(** * prepare_prose.py: the prose corpus builder of the Reader drill mode

    A shallow embedding of [scripts/prepare-corpus/prepare_prose.py] and the
    properties of its chunking, scoring and tiering functions.

    Conventions of the embedding.
    - A Python [str] is a list of Unicode code points ([char := N]).
    - A Python [int] is a [Z]; a length or a count is a [nat].
    - A Python exception is a [Raise] in the [result] monad.
    - The parts of the Python runtime that are tables or libraries (the
      Unicode character database, IEEE floats with the [statistics] module,
      the Mersenne Twister behind [random.shuffle]) are interfaces, given as
      type classes; the source is modelled over every implementation of them
      and run on small executable ones. *)

From Stdlib Require Import String Ascii DecimalString.
From Stdlib Require Import List ZArith NArith Lia Bool.
From Stdlib Require Import Permutation Sorted QArith Qround Qcanon.
Import ListNotations.

Set Implicit Arguments.
Close Scope Q_scope.
Close Scope Qc_scope.

(** ** Python strings *)

Definition char : Set := N.
Definition str := list char.

Definition chr (a : ascii) : char := N_of_ascii a.

(** [lit "abc"] is the Python literal ["abc"] (ASCII only). *)
Definition lit (s : string) : str := map chr (list_ascii_of_string s).

Definition NL : char := 10%N.
Definition CR : char := 13%N.
Definition TAB : char := 9%N.
Definition SP : char := 32%N.
Definition BOM : char := 65279%N.
Definition DQUOTE : char := 34%N.
Definition LDQUO : char := 8220%N.
Definition RDQUO : char := 8221%N.
Definition LSQUO : char := 8216%N.
Definition RSQUO : char := 8217%N.

Definition in_range (lo hi c : N) : bool := (N.leb lo c && N.leb c hi)%bool.

Definition in_chars (set : str) (c : char) : bool := existsb (N.eqb c) set.

Fixpoint str_eqb (a b : str) : bool :=
  match a, b with
  | [], [] => true
  | x :: a', y :: b' => N.eqb x y && str_eqb a' b'
  | _, _ => false
  end.

(** [str.isspace] on one character, which is also what [\s] matches in a
    [str] pattern and what [str.strip()] and [str.split()] remove. *)
Definition isspace (c : char) : bool :=
  in_range 9 13 c || in_range 28 32 c || N.eqb c 133 || N.eqb c 160
  || N.eqb c 5760 || in_range 8192 8202 c || N.eqb c 8232 || N.eqb c 8233
  || N.eqb c 8239 || N.eqb c 8287 || N.eqb c 12288.

Fixpoint lstrip (p : char -> bool) (s : str) : str :=
  match s with
  | [] => []
  | c :: s' => if p c then lstrip p s' else s
  end.

Fixpoint rstrip (p : char -> bool) (s : str) : str :=
  match s with
  | [] => []
  | c :: s' =>
      match rstrip p s' with
      | [] => if p c then [] else [c]
      | r => c :: r
      end
  end.

(** [s.strip(chars)], with the set [chars] given as a predicate. *)
Definition strip_chars (p : char -> bool) (s : str) : str := rstrip p (lstrip p s).

(** [s.strip()]. *)
Definition strip (s : str) : str := strip_chars isspace s.

Fixpoint starts_with (pre s : str) : bool :=
  match pre, s with
  | [], _ => true
  | p :: pre', c :: s' => N.eqb p c && starts_with pre' s'
  | _ :: _, [] => false
  end.

Definition ends_with (suf s : str) : bool := starts_with (rev suf) (rev s).

(** [sep.join(l)]. *)
Fixpoint join (sep : str) (l : list str) : str :=
  match l with
  | [] => []
  | x :: xs => match xs with [] => x | _ :: _ => x ++ sep ++ join sep xs end
  end.

(** [s.split(d)] for a separator of one character. *)
Fixpoint split_on (d : char) (s : str) : list str :=
  match s with
  | [] => [[]]
  | c :: s' =>
      if N.eqb c d then [] :: split_on d s'
      else match split_on d s' with
           | w :: ws => (c :: w) :: ws
           | [] => [[c]]
           end
  end.

(** The maximal runs of characters satisfying [p], left to right:
    [re.findall(r"[...]+", s)] for a character class, and [s.split()] when
    [p] is "not a space". *)
Fixpoint runs (p : char -> bool) (s : str) : list str :=
  match s with
  | [] => []
  | c :: s' =>
      if p c then
        match s' with
        | c' :: _ =>
            if p c' then
              match runs p s' with
              | w :: ws => (c :: w) :: ws
              | [] => [[c]]
              end
            else [c] :: runs p s'
        | [] => [[c]]
        end
      else runs p s'
  end.

(** [s.split()]. *)
Definition split_ws (s : str) : list str := runs (fun c => negb (isspace c)) s.

(** [s.replace(old, new)] for a non-empty [old]: left to right, occurrences
    do not overlap ([skip] characters of the last occurrence are still to be
    passed over). *)
Fixpoint replace_go (old new : str) (skip : nat) (s : str) : str :=
  match s with
  | [] => []
  | c :: s' =>
      match skip with
      | S k => replace_go old new k s'
      | O =>
          if starts_with old s then new ++ replace_go old new (length old - 1) s'
          else c :: replace_go old new 0 s'
      end
  end.

Definition replace (old new s : str) : str := replace_go old new 0 s.

(** [re.sub(r"[...]+", rep, s)] for a character class [p]: every maximal run
    is replaced by [rep] (written out when the run ends). *)
Fixpoint re_sub_runs (p : char -> bool) (rep : str) (s : str) : str :=
  match s with
  | [] => []
  | c :: s' =>
      if p c then
        match s' with
        | c' :: _ => if p c' then re_sub_runs p rep s' else rep ++ re_sub_runs p rep s'
        | [] => rep
        end
      else c :: re_sub_runs p rep s'
  end.

(** [re.sub(r"\n{3,}", "\n\n", s)]: [k] newlines of the current run have been
    read; a run keeps at most two of them. *)
Fixpoint re_sub_newlines_go (k : nat) (s : str) : str :=
  match s with
  | [] => repeat NL (Nat.min k 2)
  | c :: s' =>
      if N.eqb c NL then re_sub_newlines_go (S k) s'
      else repeat NL (Nat.min k 2) ++ c :: re_sub_newlines_go 0 s'
  end.

Definition re_sub_newlines (s : str) : str := re_sub_newlines_go 0 s.

(** ** Word and sentence counting *)

Definition is_ascii_upper (c : char) : bool := in_range 65 90 c.
Definition is_ascii_lower (c : char) : bool := in_range 97 122 c.
Definition is_ascii_alpha (c : char) : bool := is_ascii_upper c || is_ascii_lower c.
Definition is_ascii_digit (c : char) : bool := in_range 48 57 c.

(** The class [[A-Za-z']] of [_WORD_RE]. *)
Definition word_char (c : char) : bool := is_ascii_alpha c || N.eqb c 39.

(** The class [[.!?]]. *)
Definition terminal_char (c : char) : bool := in_chars (lit ".!?") c.

(** [_WORD_RE.findall(text)]. *)
Definition word_findall (text : str) : list str := runs word_char text.

Definition count_words (text : str) : nat := length (word_findall text).

Definition sentence_count (text : str) : nat :=
  Nat.max 1 (length (runs terminal_char text)).

(** ** Exceptions *)

Inductive exn : Set :=
| ValueError
| ZeroDivisionError
| StatisticsError
| IndexError
| OverflowError.

Inductive result (A : Type) : Type :=
| Ok (a : A)
| Raise (e : exn).

Arguments Ok {A} a.
Arguments Raise {A} e.

Definition bind {A B : Type} (m : result A) (k : A -> result B) : result B :=
  match m with
  | Ok a => k a
  | Raise e => Raise e
  end.

Notation "x <- m ;; k" := (bind m (fun x => k))
  (at level 61, m at next level, right associativity).

Fixpoint mapM {A B : Type} (f : A -> result B) (l : list A) : result (list B) :=
  match l with
  | [] => Ok []
  | a :: l' => b <- f a ;; bs <- mapM f l' ;; Ok (b :: bs)
  end.

(** ** The interfaces of the Python runtime *)

(** The Unicode character database, as CPython's [str] methods and the [re]
    module read it. *)
Class UnicodeDB : Type := {
  (** [Py_UNICODE_ISALNUM]: [\w] is this or an underscore. *)
  uni_isalnum : char -> bool;
  (** [Py_UNICODE_ISDECIMAL]: what [\d] matches. *)
  uni_isdecimal : char -> bool;
  (** [str.isdigit] on one character. *)
  uni_isdigit : char -> bool;
  uni_isupper : char -> bool;
  uni_islower : char -> bool;
  uni_istitle : char -> bool;
  (** [str.lower] and [str.upper]. *)
  py_lower : str -> str;
  py_upper : str -> str
}.

(** Floats: IEEE arithmetic, [round] and the two functions the source takes
    from the [statistics] module. *)
Class PyFloat (F : Type) : Type := {
  (** The float nearest to [a / b] for [b <> 0]: the value of [a / b] on two
      ints, and of a decimal literal. *)
  of_ratio : Z -> Z -> F;
  fadd : F -> F -> F;
  fsub : F -> F -> F;
  fmul : F -> F -> F;
  (** [x / y] for [y != 0]. *)
  fdiv : F -> F -> F;
  (** [x == 0]. *)
  fis_zero : F -> bool;
  flt : F -> F -> bool;
  fle : F -> F -> bool;
  (** [round(x, ndigits)]. *)
  fround : F -> Z -> F;
  (** [statistics.mean] on one value or more. *)
  stat_mean : list F -> F;
  (** [statistics.stdev] on two values or more. *)
  stat_stdev : list F -> F
}.

(** [random.Random(seed).shuffle]: the permutation depends on the seed and on
    the length only; [shuffle_indices seed n] lists, for each position of
    the shuffled list, the position it is taken from. *)
Class PyRandom : Type := {
  shuffle_indices : Z -> nat -> list nat
}.

(** ** Text normalisation *)

(** A character under [re.IGNORECASE]: the ASCII letters, and the four other
    characters that CPython matches with an ASCII letter (U+0130 and U+0131
    with i, U+017F with s, U+212A with k). *)
Definition ci_fold (c : char) : char :=
  if is_ascii_upper c then (c + 32)%N
  else if N.eqb c 304 || N.eqb c 305 then 105%N
  else if N.eqb c 383 then 115%N
  else if N.eqb c 8490 then 107%N
  else c.

Definition ci_eqb (p c : char) : bool := N.eqb (ci_fold p) (ci_fold c).

(** The literal [pre] read case-insensitively at the start of [s]: what is
    left of [s] after it. *)
Fixpoint eat_ci (pre s : str) : option str :=
  match pre, s with
  | [], _ => Some s
  | p :: pre', c :: s' => if ci_eqb p c then eat_ci pre' s' else None
  | _ :: _, [] => None
  end.

(** [.*?\*\*\*] at the start of [s]: the number of characters up to the end
    of the first [***], no newline before it. *)
Fixpoint lazy_until_stars (s : str) : option nat :=
  match s with
  | [] => None
  | c :: s' =>
      if starts_with (lit "***") s then Some 3
      else if N.eqb c NL then None
      else option_map S (lazy_until_stars s')
  end.

Definition or_else {A : Type} (a b : option A) : option A :=
  match a with
  | Some _ => a
  | None => b
  end.

(** [_GUTENBERG_START_RE] ([word] is START) and [_GUTENBERG_END_RE] ([word]
    is END) at the start of [s]: the length of the match. *)
Definition match_marker (word : str) (s : str) : option nat :=
  match eat_ci (lit "***") s with
  | None => None
  | Some r1 =>
      match eat_ci (word ++ lit " OF ") (lstrip isspace r1) with
      | None => None
      | Some r2 =>
          let tail (r : option str) : option nat :=
            match r with
            | None => None
            | Some r3 =>
                match eat_ci (lit " PROJECT GUTENBERG EBOOK ") r3 with
                | None => None
                | Some r4 =>
                    option_map (fun n => length s - length r4 + n) (lazy_until_stars r4)
                end
            end in
          or_else (tail (eat_ci (lit "THE") r2)) (tail (eat_ci (lit "THIS") r2))
      end
  end.

(** [pattern.search(s)]: the span of the leftmost match, [pos] characters
    having been passed. *)
Fixpoint re_search (m : str -> option nat) (pos : nat) (s : str) : option (nat * nat) :=
  match m s with
  | Some n => Some (pos, pos + n)
  | None =>
      match s with
      | [] => None
      | _ :: s' => re_search m (S pos) s'
      end
  end.

Definition GUTENBERG_START_RE : str -> option (nat * nat) :=
  re_search (match_marker (lit "START")) 0.

Definition GUTENBERG_END_RE : str -> option (nat * nat) :=
  re_search (match_marker (lit "END")) 0.

Definition strip_gutenberg_boilerplate (text : str) : str :=
  let start_match := GUTENBERG_START_RE text in
  let end_match := GUTENBERG_END_RE text in
  let text1 :=
    match start_match with
    | Some (_, e) => skipn e text
    | None => text
    end in
  let text2 :=
    match end_match with
    | Some (b, _) => firstn b text1
    | None => text1
    end in
  strip text2.

Definition normalize_text (raw : str) : str :=
  let text := replace [CR] [NL] (replace [CR; NL] [NL] raw) in
  let text := replace [BOM] [] text in
  let text := strip_gutenberg_boilerplate text in
  let text := re_sub_runs (in_chars [SP; TAB]) [SP] text in
  let text := re_sub_newlines text in
  strip text.

(** ** Paragraphs *)

Definition is_empty {A : Type} (l : list A) : bool :=
  match l with
  | [] => true
  | _ :: _ => false
  end.

(** The loop of [to_paragraphs]: the state is [(paragraphs, current)]. *)
Definition to_paragraphs_step (st : list str * list str) (line : str) : list str * list str :=
  let (paragraphs, current) := st in
  let stripped := strip line in
  if is_empty stripped then
    if is_empty current then st
    else (paragraphs ++ [strip (join [SP] current)], [])
  else (paragraphs, current ++ [stripped]).

Definition to_paragraphs (text : str) : list str :=
  let (paragraphs, current) := fold_left to_paragraphs_step (split_on NL text) ([], []) in
  let paragraphs :=
    if is_empty current then paragraphs
    else paragraphs ++ [strip (join [SP] current)] in
  filter (fun p => negb (is_empty p)) paragraphs.

(** ** Headings *)

(** The characters that both heading tests strip: the space, the straight
    and the curly quotes, and the brackets of the three kinds. *)
Definition heading_strip_set (c : char) : bool :=
  in_chars ([SP; DQUOTE; 39%N; LDQUO; RDQUO; LSQUO; RSQUO] ++ lit "()[]{}") c.

(** The class [[A-Za-z'’-]]. *)
Definition title_char (c : char) : bool :=
  is_ascii_alpha c || in_chars [39%N; RSQUO; 45%N] c.

(** The class [[A-Z'’-]]. *)
Definition upper_char (c : char) : bool :=
  is_ascii_upper c || in_chars [39%N; RSQUO; 45%N] c.

(** [_TITLE_WORD_RE.fullmatch(w)]. *)
Definition TITLE_WORD_RE (w : str) : bool :=
  match w with
  | [] => false
  | c :: r => is_ascii_upper c && forallb title_char r
  end.

(** [_UPPER_WORD_RE.fullmatch(w)]. *)
Definition UPPER_WORD_RE (w : str) : bool :=
  match w with
  | [] => false
  | c :: r => is_ascii_upper c && forallb upper_char r
  end.

(** A full match of [cls+ opt?]. *)
Definition fullmatch_plus_opt (cls opt : char -> bool) (s : str) : bool :=
  (negb (is_empty s) && forallb cls s)
  || match rev s with
     | [] => false
     | c :: r => opt c && negb (is_empty r) && forallb cls r
     end.

(** The class [[IVXLCDM]] under [re.IGNORECASE]. *)
Definition roman_char (c : char) : bool :=
  in_chars (lit "ivxlcdm") (ci_fold c).

(** [re.fullmatch(r"[_*][^_*]{2,120}[_*]", p)]. *)
Definition EMPHASIZED_HEADING_RE (p : str) : bool :=
  let mark := in_chars (lit "_*") in
  match p with
  | [] => false
  | a :: rest =>
      match rev rest with
      | [] => false
      | b :: mid =>
          mark a && mark b && forallb (fun c => negb (mark c)) mid
          && Nat.leb 2 (length mid) && Nat.leb (length mid) 120
      end
  end.

Definition count_if {A : Type} (p : A -> bool) (l : list A) : nat := length (filter p l).

Definition title_like_count (words : list str) : nat :=
  count_if (fun w => TITLE_WORD_RE w || UPPER_WORD_RE w) words.

Section Headings.

Context {U : UnicodeDB} {F : Type} {FL : PyFloat F}.

(** [a / b >= 0.8] on two ints, [b <> 0]. *)
Definition ratio_ge_0_8 (a b : nat) : bool :=
  fle (of_ratio 8 10) (of_ratio (Z.of_nat a) (Z.of_nat b)).

(** What [\w] matches. *)
Definition re_word (c : char) : bool := uni_isalnum c || N.eqb c 95.

(** [re.fullmatch(r"[A-Z][a-z]{4,}", token)]. *)
Definition single_title_word (token : str) : bool :=
  match token with
  | [] => false
  | c :: r => is_ascii_upper c && forallb is_ascii_lower r && Nat.leb 4 (length r)
  end.

Definition looks_like_heading (paragraph : str) : bool :=
  let p := strip paragraph in
  let p_trimmed := strip_chars heading_strip_set p in
  if is_empty p then false
  else if Nat.ltb 100 (length p) then false
  else if existsb (fun suf => ends_with suf p_trimmed) [lit "."; lit "!"; lit "?"] then false
  else
    let words := split_ws p in
    if Nat.ltb 12 (length words) then false
    else if existsb (fun pre => starts_with pre (py_lower p))
              [lit "chapter "; lit "book "; lit "part "; lit "section "] then true
    else
      match words with
      | [w] =>
          let token := filter (fun c => re_word c || in_chars [39%N; RSQUO; 45%N] c) w in
          single_title_word token
      | _ => ratio_ge_0_8 (title_like_count words) (Nat.max 1 (length words))
      end.

Definition EXCLUDED_SECTION_NAMES : list str :=
  [lit "INDEX"; lit "THE END"; lit "CONTENTS"; lit "TABLE OF CONTENTS"].

Definition is_excluded_section_name (name : str) : bool :=
  let cleaned := re_sub_runs isspace [SP] (py_upper (strip name)) in
  existsb (str_eqb cleaned) EXCLUDED_SECTION_NAMES.

Definition is_structural_heading_paragraph (paragraph : str) : bool :=
  let p := strip paragraph in
  if is_empty p then false
  else
    let plain := strip_chars heading_strip_set p in
    if fullmatch_plus_opt uni_isdecimal (in_chars (lit ".)")) plain then true
    else if fullmatch_plus_opt roman_char (in_chars (lit ".)")) plain then true
    else if EMPHASIZED_HEADING_RE p then true
    else if existsb terminal_char plain then false
    else
      let words := runs title_char plain in
      if is_empty words || Nat.ltb 12 (length words) then false
      else ratio_ge_0_8 (title_like_count words) (length words).

(** ** Sections *)

Definition section_t : Type := str * list str.

(** [l[i:j]] for [0 <= i] and [0 <= j]. *)
Definition slice {A : Type} (i j : nat) (l : list A) : list A := firstn (j - i) (skipn i l).

(** The indices [i] from [pos] on with [p (l[i])]. *)
Fixpoint indices_where {A : Type} (p : A -> bool) (pos : nat) (l : list A) : list nat :=
  match l with
  | [] => []
  | a :: l' => if p a then pos :: indices_where p (S pos) l' else indices_where p (S pos) l'
  end.

Definition words_ge (text : str) (bound : Z) : bool := Z.leb bound (Z.of_nat (count_words text)).

(** The loop of [split_sections] over the heading indices: [heading_i] is
    the head of the list and the index after it closes the body. *)
Fixpoint heading_sections (paragraphs : list str) (min_section_words : Z)
    (heading_indices : list nat) : list section_t :=
  match heading_indices with
  | [] => []
  | heading_i :: rest =>
      let heading := nth heading_i paragraphs [] in
      let body_start := S heading_i in
      let body_end :=
        match rest with
        | next :: _ => next
        | [] => length paragraphs
        end in
      let body := slice body_start body_end paragraphs in
      let later := heading_sections paragraphs min_section_words rest in
      if is_empty body then later
      else if negb (words_ge (join [NL; NL] body) min_section_words) then later
      else if is_excluded_section_name heading then later
      else (heading, body) :: later
  end.

Definition split_sections (paragraphs : list str) (split_mode : str)
    (min_section_words : Z) : result (list section_t) :=
  if negb (str_eqb split_mode (lit "headings") || str_eqb split_mode (lit "none")) then
    Raise ValueError
  else if str_eqb split_mode (lit "none") then Ok [(lit "Full text", paragraphs)]
  else
    let heading_indices := indices_where looks_like_heading 0 paragraphs in
    match heading_indices with
    | [] => Ok [(lit "Full text", paragraphs)]
    | first :: _ =>
        let lead_paragraphs := firstn first paragraphs in
        let lead :=
          if Nat.ltb 0 first && words_ge (join [NL; NL] lead_paragraphs) min_section_words
          then [(lit "Introduction", lead_paragraphs)]
          else [] in
        let sections := lead ++ heading_sections paragraphs min_section_words heading_indices in
        if is_empty sections then Ok [(lit "Full text", paragraphs)] else Ok sections
    end.

End Headings.

(** ** Splitting an oversized paragraph *)

(** [_SENT_SPLIT_RE.split(paragraph)]: a separator is a run of spaces that
    follows one of [.!?]. *)
Inductive split_mode_t : Set :=
| InText
| AfterTerminal
| InSeparator.

Definition mode_after (c : char) : split_mode_t :=
  if terminal_char c then AfterTerminal else InText.

Definition cons_head (c : char) (pieces : list str) : list str :=
  match pieces with
  | w :: ws => (c :: w) :: ws
  | [] => [[c]]
  end.

Fixpoint sent_split_go (mode : split_mode_t) (s : str) : list str :=
  match s with
  | [] => [[]]
  | c :: s' =>
      match mode with
      | InText => cons_head c (sent_split_go (mode_after c) s')
      | AfterTerminal =>
          if isspace c then [] :: sent_split_go InSeparator s'
          else cons_head c (sent_split_go (mode_after c) s')
      | InSeparator =>
          if isspace c then sent_split_go InSeparator s'
          else cons_head c (sent_split_go (mode_after c) s')
      end
  end.

Definition SENT_SPLIT_RE_split (paragraph : str) : list str := sent_split_go InText paragraph.

Definition sentences_of (paragraph : str) : list str :=
  filter (fun s => negb (is_empty s)) (map strip (SENT_SPLIT_RE_split paragraph)).

Record split_state : Type := {
  sp_chunks : list (list str);
  sp_current : list str;
  sp_words : nat
}.

(** One turn of the loop of [split_oversized_paragraph]. *)
Definition split_step (target_words max_words : Z) (st : split_state) (sentence : str)
    : split_state :=
  let w := count_words sentence in
  let st1 :=
    if negb (is_empty (sp_current st)) && Z.ltb max_words (Z.of_nat (sp_words st + w)) then
      {| sp_chunks := sp_chunks st ++ [sp_current st];
         sp_current := [sentence];
         sp_words := w |}
    else
      {| sp_chunks := sp_chunks st;
         sp_current := sp_current st ++ [sentence];
         sp_words := sp_words st + w |} in
  if Z.leb target_words (Z.of_nat (sp_words st1)) then
    {| sp_chunks := sp_chunks st1 ++ [sp_current st1]; sp_current := []; sp_words := 0 |}
  else st1.

(** The chunks of sentences at the end of the loop. *)
Definition split_chunks (target_words max_words : Z) (sentences : list str) : list (list str) :=
  let st := fold_left (split_step target_words max_words) sentences
              {| sp_chunks := []; sp_current := []; sp_words := 0 |} in
  if is_empty (sp_current st) then sp_chunks st else sp_chunks st ++ [sp_current st].

Definition split_oversized_paragraph (paragraph : str) (target_words max_words : Z) : list str :=
  let sentences := sentences_of paragraph in
  if is_empty sentences then [paragraph]
  else
    map (fun chunk => strip (join [SP] chunk))
      (filter (fun chunk => negb (is_empty chunk)) (split_chunks target_words max_words sentences)).

(** ** Chunking a section *)

Definition item : Type := str * str.

Record chunk_state : Type := {
  items : list item;
  current : list str;
  current_words : nat
}.

Definition emit_current (section_title : str) (st : chunk_state) : chunk_state :=
  if is_empty (current st) then st
  else
    let text := strip (join [NL; NL] (current st)) in
    {| items := if is_empty text then items st else items st ++ [(section_title, text)];
       current := [];
       current_words := 0 |}.

(** The merge pass of [chunk_section]: [merged] is kept as the pair of its
    last element and of the elements before it. *)
Definition merge_step (max_words min_words : Z) (merged : list item * item) (it : item)
    : list item * item :=
  let (before, last) := merged in
  let (prev_sec, prev_text) := last in
  let (sec, text) := it in
  let w := count_words text in
  let prev_w := count_words prev_text in
  if Z.ltb (Z.of_nat w) min_words && Z.leb (Z.of_nat (prev_w + w)) max_words then
    (before, (prev_sec, strip (prev_text ++ [NL; NL] ++ text)))
  else (before ++ [last], it).

Definition merge_items (max_words min_words : Z) (its : list item) : list item :=
  match its with
  | [] => []
  | [_] => its
  | first :: rest =>
      let (before, last) := fold_left (merge_step max_words min_words) rest ([], first) in
      before ++ [last]
  end.

Section Chunking.

Context {U : UnicodeDB} {F : Type} {FL : PyFloat F}.

(** One turn of the loop of [chunk_section]. *)
Definition chunk_step (section_title : str) (target_words max_words : Z)
    (st : chunk_state) (paragraph : str) : chunk_state :=
  if is_structural_heading_paragraph paragraph then emit_current section_title st
  else
    let pw := count_words paragraph in
    if Z.ltb max_words (Z.of_nat pw) then
      let st1 := emit_current section_title st in
      {| items := items st1
                  ++ map (fun piece => (section_title, piece))
                       (split_oversized_paragraph paragraph target_words max_words);
         current := current st1;
         current_words := current_words st1 |}
    else
      let st1 :=
        if negb (is_empty (current st)) && Z.ltb max_words (Z.of_nat (current_words st + pw))
        then emit_current section_title st
        else st in
      let st2 :=
        {| items := items st1;
           current := current st1 ++ [paragraph];
           current_words := current_words st1 + pw |} in
      if Z.leb target_words (Z.of_nat (current_words st2)) then emit_current section_title st2
      else st2.

Definition chunk_items (section_title : str) (paragraphs : list str)
    (target_words max_words : Z) : list item :=
  items (emit_current section_title
           (fold_left (chunk_step section_title target_words max_words) paragraphs
              {| items := []; current := []; current_words := 0 |})).

Definition chunk_section (section_title : str) (paragraphs : list str)
    (target_words max_words min_words : Z) : list item :=
  merge_items max_words min_words (chunk_items section_title paragraphs target_words max_words).

End Chunking.

(** ** Scoring *)

Definition VOWELS : str := lit "aeiouyAEIOUY".

(** The vowel groups of [token]: the loop of [count_syllables]. *)
Fixpoint vowel_groups (prev_vowel : bool) (token : str) : nat :=
  match token with
  | [] => 0
  | ch :: rest =>
      let is_vowel := in_chars VOWELS ch in
      (if is_vowel && negb prev_vowel then 1 else 0) + vowel_groups is_vowel rest
  end.

Definition count_syllables (word : str) : nat :=
  let token := strip_chars (in_chars (lit ".,;:!?" ++ [DQUOTE; 39%N] ++ lit "()[]")) word in
  if is_empty token then 1
  else
    let count := vowel_groups false token in
    let count := if ends_with (lit "e") token && Nat.ltb 1 count then count - 1 else count in
    Nat.max 1 count.

Section Scoring.

Context {U : UnicodeDB} {F : Type} {FL : PyFloat F}.

(** The literal [0.0]. *)
Definition fzero : F := of_ratio 0 1.

(** [a / b] on two ints. *)
Definition truediv (a b : nat) : result F :=
  if Nat.eqb b 0 then Raise ZeroDivisionError
  else Ok (of_ratio (Z.of_nat a) (Z.of_nat b)).

(** [x / y] on two floats. *)
Definition py_fdiv (x y : F) : result F :=
  if fis_zero y then Raise ZeroDivisionError else Ok (fdiv x y).

Definition flesch_kincaid_grade (text : str) : result F :=
  let words := split_ws text in
  let n_words := length words in
  if Nat.eqb n_words 0 then Ok fzero
  else
    let n_sents := sentence_count text in
    let n_syllables := list_sum (map count_syllables words) in
    a <- truediv n_words n_sents ;;
    b <- truediv n_syllables n_words ;;
    Ok (fsub (fadd (fmul (of_ratio 39 100) a) (fmul (of_ratio 118 10) b)) (of_ratio 1559 100)).

(** [re.findall(r"\b[\w'-]+\b", text)]: in every maximal run of the class
    that holds a word character, what lies from the first word character to
    the last one. *)
Definition burden_tokens (text : str) : list str :=
  filter (fun t => negb (is_empty t))
    (map (strip_chars (fun c => negb (re_word c)))
       (runs (fun c => re_word c || in_chars [39%N; 45%N] c) text)).

(** [s.isupper()] and [s.islower()], as CPython computes them. *)
Fixpoint cased_scan (mine other : char -> bool) (cased : bool) (s : str) : bool :=
  match s with
  | [] => cased
  | ch :: rest =>
      if other ch || uni_istitle ch then false
      else cased_scan mine other (cased || mine ch) rest
  end.

Definition py_isupper (s : str) : bool :=
  match s with
  | [ch] => uni_isupper ch
  | _ => cased_scan uni_isupper uni_islower false s
  end.

Definition py_islower (s : str) : bool :=
  match s with
  | [ch] => uni_islower ch
  | _ => cased_scan uni_islower uni_isupper false s
  end.

Definition factual_burden_score (text : str) : result F :=
  let tokens := burden_tokens text in
  if is_empty tokens then Ok fzero
  else
    let digit_count := count_if (existsb uni_isdigit) tokens in
    let capital_mid :=
      count_if (fun token => py_isupper (firstn 1 token) && py_islower (skipn 1 token)) tokens in
    truediv (digit_count + capital_mid) (length tokens).

Definition pct_polysyllabic (text : str) : result F :=
  let words := word_findall text in
  if is_empty words then Ok fzero
  else
    let poly := count_if (fun w => Nat.leb 3 (count_syllables w)) words in
    truediv poly (length words).

End Scoring.

(** ** Works and unit records *)

Module SourceSpec.
Record t : Type := {
  source_type : str;
  gutenberg_id : option Z;
  file_path : option str;
  url : option str
}.
End SourceSpec.

Module WorkSpec.
Record t : Type := {
  work_id : str;
  author : str;
  title : str;
  source : SourceSpec.t;
  domain : str;
  unit_type : str;
  tags : list str;
  split_mode : str
}.
End WorkSpec.

(** The dict that [build_records] makes of a chunk. *)
Record UnitRecord (F : Type) : Type := {
  title : str;
  text : str;
  domain : str;
  fk_grade : F;
  words : nat;
  sentences : nat;
  author : str;
  work_title : str;
  work_id : str;
  unit_type : str;
  tags : list str;
  section : str;
  pct_poly : F;
  factual_burden : F
}.

(** [str(n)]. *)
Definition str_of_nat (n : nat) : str := lit (NilEmpty.string_of_uint (Nat.to_uint n)).

(** [rng.shuffle(l)] for the generator seeded with [seed]. *)
Definition shuffle {R : PyRandom} {A : Type} (seed : Z) (l : list A) : list A :=
  flat_map (fun i => match nth_error l i with Some a => [a] | None => [] end)
    (shuffle_indices seed (length l)).

Section BuildRecords.

Context {U : UnicodeDB} {F : Type} {FL : PyFloat F} {R : PyRandom}.

(** The text source provider: [load_work_text] with its directories and its
    session. *)
Variable load_work_text : WorkSpec.t -> result str.

Variables target_words max_words min_words min_section_words min_unit_words : Z.

Definition record_of_chunk (work : WorkSpec.t) (sec_name chunk_text : str) (unit_index : nat)
    : result (UnitRecord F) :=
  let wc := count_words chunk_text in
  let sc := sentence_count chunk_text in
  fk <- flesch_kincaid_grade chunk_text ;;
  poly <- pct_polysyllabic chunk_text ;;
  burden <- factual_burden_score chunk_text ;;
  Ok {| title := WorkSpec.author work ++ lit " - " ++ WorkSpec.title work ++ lit " - "
                 ++ sec_name ++ lit " (" ++ str_of_nat unit_index ++ lit ")";
        text := chunk_text;
        domain := WorkSpec.domain work;
        fk_grade := fround fk 1;
        words := wc;
        sentences := sc;
        author := WorkSpec.author work;
        work_title := WorkSpec.title work;
        work_id := WorkSpec.work_id work;
        unit_type := WorkSpec.unit_type work;
        tags := WorkSpec.tags work;
        section := sec_name;
        pct_poly := fround poly 4;
        factual_burden := fround burden 4 |}.

(** The loop over the chunks of a section: the state is the list of records
    and [unit_index]. *)
Fixpoint chunks_loop (work : WorkSpec.t) (chunks : list item)
    (st : list (UnitRecord F) * nat) : result (list (UnitRecord F) * nat) :=
  match chunks with
  | [] => Ok st
  | (sec_name, chunk_text) :: rest =>
      if Z.ltb (Z.of_nat (count_words chunk_text)) min_unit_words then chunks_loop work rest st
      else
        rec <- record_of_chunk work sec_name chunk_text (snd st) ;;
        chunks_loop work rest (fst st ++ [rec], S (snd st))
  end.

Fixpoint sections_loop (work : WorkSpec.t) (sections : list section_t)
    (st : list (UnitRecord F) * nat) : result (list (UnitRecord F) * nat) :=
  match sections with
  | [] => Ok st
  | (section_title, section_paragraphs) :: rest =>
      st' <- chunks_loop work
               (chunk_section section_title section_paragraphs target_words max_words min_words)
               st ;;
      sections_loop work rest st'
  end.

Fixpoint works_loop (works : list WorkSpec.t) (records : list (UnitRecord F))
    : result (list (UnitRecord F)) :=
  match works with
  | [] => Ok records
  | work :: rest =>
      raw_text <- load_work_text work ;;
      let norm_text := normalize_text raw_text in
      let paragraphs := to_paragraphs norm_text in
      if is_empty paragraphs then works_loop rest records
      else
        sections <- split_sections paragraphs (WorkSpec.split_mode work) min_section_words ;;
        st <- sections_loop work sections (records, 1) ;;
        works_loop rest (fst st)
  end.

Definition build_records (works : list WorkSpec.t) (shuffle_seed : option Z)
    : result (list (UnitRecord F)) :=
  records <- works_loop works [] ;;
  match shuffle_seed with
  | Some seed => Ok (shuffle seed records)
  | None => Ok records
  end.

End BuildRecords.

(** ** Tier assignment *)

Record Tiers (A : Type) : Type := {
  easy : list A;
  medium : list A;
  hard : list A
}.

Definition tiers_map {A B : Type} (f : A -> B) (t : Tiers A) : Tiers B :=
  {| easy := map f (easy t); medium := map f (medium t); hard := map f (hard t) |}.

(** [l[i]], which raises outside of the list. *)
Definition index {A : Type} (l : list A) (i : nat) : result A :=
  match nth_error l i with
  | Some a => Ok a
  | None => Raise IndexError
  end.

(** [by_author[key].append(row)] on a [defaultdict(list)]: the keys stay in
    the order of their first insertion. *)
Fixpoint dict_append {A : Type} (key : str) (row : A) (d : list (str * list A))
    : list (str * list A) :=
  match d with
  | [] => [(key, [row])]
  | (k, rows) :: d' =>
      if str_eqb k key then (k, rows ++ [row]) :: d'
      else (k, rows) :: dict_append key row d'
  end.

Section Tiering.

Context {F : Type} {FL : PyFloat F}.

Definition statistics_mean (values : list F) : result F :=
  if is_empty values then Raise StatisticsError else Ok (stat_mean values).

Definition statistics_stdev (values : list F) : result F :=
  if Nat.ltb (length values) 2 then Raise StatisticsError else Ok (stat_stdev values).

Definition z_score (values : list F) : result (list F) :=
  if is_empty values then Ok []
  else
    mean <- statistics_mean values ;;
    stdev <- (if Nat.ltb 1 (length values) then statistics_stdev values else Ok fzero) ;;
    if fis_zero stdev then Ok (map (fun _ => fzero) values)
    else mapM (fun v => py_fdiv (fsub v mean) stdev) values.

(** [z_score] over any floats: the body of the function with its two calls
    of the [statistics] module as they are in general, calls that can raise
    ([statistics.stdev] raises [OverflowError] on a deviation beyond the
    largest float). [z_score] is [z_score_on] with the module on the floats
    that the scoring yields, where it returns. *)
Definition z_score_on (lib_mean lib_stdev : list F -> result F) (values : list F)
    : result (list F) :=
  if is_empty values then Ok []
  else
    mean <- lib_mean values ;;
    stdev <- (if Nat.ltb 1 (length values) then lib_stdev values else Ok fzero) ;;
    if fis_zero stdev then Ok (map (fun _ => fzero) values)
    else mapM (fun v => py_fdiv (fsub v mean) stdev) values.

(** A record with its ["_difficulty"] entry. *)
Definition row : Type := F * UnitRecord F.

Definition difficulty_of (a b c : F) : F :=
  fsub (fadd (fmul (of_ratio 6 10) a) (fmul (of_ratio 3 10) b)) (fmul (of_ratio 1 10) c).

(** The loop that fills [ranked], from the index [i] on. *)
Fixpoint rank_loop (fk_z poly_z burden_z : list F) (i : nat) (records : list (UnitRecord F))
    : result (list row) :=
  match records with
  | [] => Ok []
  | rec :: rest =>
      a <- index fk_z i ;;
      b <- index poly_z i ;;
      c <- index burden_z i ;;
      ranked <- rank_loop fk_z poly_z burden_z (S i) rest ;;
      Ok ((difficulty_of a b c, rec) :: ranked)
  end.

Definition rank_records (records : list (UnitRecord F)) : result (list row) :=
  fk_z <- z_score (map (@fk_grade F) records) ;;
  poly_z <- z_score (map (@pct_poly F) records) ;;
  burden_z <- z_score (map (@factual_burden F) records) ;;
  rank_loop fk_z poly_z burden_z 0 records.

Definition group_by_author (ranked : list row) : list (str * list row) :=
  fold_left (fun d r => dict_append (author (snd r)) r d) ranked [].

(** [author_rows.sort(key=...)]: a stable sort by [<] on the keys. *)
Fixpoint insert_row (x : row) (l : list row) : list row :=
  match l with
  | [] => [x]
  | y :: l' => if flt (fst y) (fst x) then y :: insert_row x l' else x :: l
  end.

Definition sort_rows (l : list row) : list row := fold_right insert_row [] l.

(** One turn of the loop over [by_author.values()]. *)
Definition tier_author (t : Tiers row) (author_rows : list row) : Tiers row :=
  let rows := sort_rows author_rows in
  let n := length rows in
  if Nat.eqb n 1 then
    {| easy := easy t; medium := medium t; hard := hard t ++ rows |}
  else if Nat.eqb n 2 then
    {| easy := easy t; medium := medium t ++ slice 0 1 rows; hard := hard t ++ slice 1 2 rows |}
  else
    let cut1 := Nat.max 1 (n / 3) in
    let cut2 := Nat.max (cut1 + 1) ((2 * n) / 3) in
    let cut2 := if Nat.leb n cut2 then n - 1 else cut2 in
    {| easy := easy t ++ firstn cut1 rows;
       medium := medium t ++ slice cut1 cut2 rows;
       hard := hard t ++ skipn cut2 rows |}.

(** The tiers before the difficulty is dropped from the rows. *)
Definition tier_rows (ranked : list row) : Tiers row :=
  fold_left tier_author (map snd (group_by_author ranked))
    {| easy := []; medium := []; hard := [] |}.

Definition assign_tiers (records : list (UnitRecord F)) : result (Tiers (UnitRecord F)) :=
  if is_empty records then Ok {| easy := []; medium := []; hard := [] |}
  else if Nat.ltb (length records) 3 then Ok {| easy := []; medium := []; hard := records |}
  else
    ranked <- rank_records records ;;
    Ok (tiers_map snd (tier_rows ranked)).

End Tiering.

(** ** Executable instances of the interfaces *)

(** The character database cut down to ASCII: CPython's answers on the
    first 128 code points, and no letter or digit beyond them. *)
Definition ascii_lower (c : char) : char := if is_ascii_upper c then (c + 32)%N else c.
Definition ascii_upper (c : char) : char := if is_ascii_lower c then (c - 32)%N else c.

Definition ascii_db : UnicodeDB := {|
  uni_isalnum := fun c => is_ascii_alpha c || is_ascii_digit c;
  uni_isdecimal := is_ascii_digit;
  uni_isdigit := is_ascii_digit;
  uni_isupper := is_ascii_upper;
  uni_islower := is_ascii_lower;
  uni_istitle := fun _ => false;
  py_lower := map ascii_lower;
  py_upper := map ascii_upper
|}.

(** Exact rational arithmetic in the place of floats. The square root of
    [statistics.stdev] is rounded up to a multiple of [2^-64], so that it is
    zero on a zero variance only. *)
Definition qc_of_ratio (a b : Z) : Qc := Q2Qc (inject_Z a / inject_Z b)%Q.

Definition qc_ltb (x y : Qc) : bool := negb (Qle_bool (this y) (this x)).

Definition qc_leb (x y : Qc) : bool := Qle_bool (this x) (this y).

Definition qc_is_zero (x : Qc) : bool := Qeq_bool (this x) 0%Q.

(** Rounding to [ndigits] decimals, a tie going to the even neighbour. *)
Definition qc_round (x : Qc) (ndigits : Z) : Qc :=
  let scale := (10 ^ ndigits)%Z in
  let q := (this x * inject_Z scale)%Q in
  let n := Qfloor q in
  let twice := (q * inject_Z 2 - inject_Z (2 * n))%Q in
  let r :=
    match Qcompare twice 1%Q with
    | Lt => n
    | Gt => (n + 1)%Z
    | Eq => if Z.even n then n else (n + 1)%Z
    end in
  qc_of_ratio r scale.

Definition qc_sum (l : list Qc) : Qc := fold_right Qcplus (Q2Qc 0%Q) l.

Definition qc_mean (l : list Qc) : Qc :=
  Qcdiv (qc_sum l) (qc_of_ratio (Z.of_nat (length l)) 1).

Definition qc_sqrt_up (v : Qc) : Qc :=
  qc_of_ratio (Z.sqrt_up (Qceiling (this v * inject_Z (2 ^ 128))%Q)) (2 ^ 64).

Definition qc_stdev (l : list Qc) : Qc :=
  let m := qc_mean l in
  let ss := qc_sum (map (fun x => Qcmult (Qcminus x m) (Qcminus x m)) l) in
  qc_sqrt_up (Qcdiv ss (qc_of_ratio (Z.of_nat (length l) - 1) 1)).

Definition qc_float : PyFloat Qc := {|
  of_ratio := qc_of_ratio;
  fadd := Qcplus;
  fsub := Qcminus;
  fmul := Qcmult;
  fdiv := Qcdiv;
  fis_zero := qc_is_zero;
  flt := qc_ltb;
  fle := qc_leb;
  fround := qc_round;
  stat_mean := qc_mean;
  stat_stdev := qc_stdev
|}.

(** Two values of CPython 3.11's generator on lists of three elements (the
    seed 4 reverses them, the seed 0 exchanges the last two), and the
    identity elsewhere. *)
Definition sample_random : PyRandom := {|
  shuffle_indices := fun seed n =>
    if Nat.eqb n 3 && Z.eqb seed 4 then [2; 1; 0]
    else if Nat.eqb n 3 && Z.eqb seed 0 then [0; 2; 1]
    else seq 0 n
|}.

(** The largest float. *)
Definition DBL_MAX : Qc := Q2Qc (inject_Z (2 ^ 1024 - 2 ^ 971)).

(** [statistics.mean] and [statistics.stdev] on the rationals within the
    range of the floats: the deviation raises [OverflowError] when it is
    beyond the largest float. *)
Definition checked_mean (values : list Qc) : result Qc :=
  if is_empty values then Raise StatisticsError else Ok (qc_mean values).

Definition checked_stdev (values : list Qc) : result Qc :=
  if Nat.ltb (length values) 2 then Raise StatisticsError
  else if qc_ltb DBL_MAX (qc_stdev values) then Raise OverflowError
  else Ok (qc_stdev values).

(** ** The definitions that follow the words of the specification

    They are compared below with the ones taken from the source. *)

Section SpecWords.

Context {F : Type} {FL : PyFloat F}.

(** The standard deviation over the whole list, the one of
    [statistics.stdev], a list of one value having the deviation zero. *)
Definition spec_stdev (values : list F) : F :=
  if Nat.ltb 1 (length values) then stat_stdev values else fzero.

(** The z-score of [v] among [values]: zero for everyone when the deviation
    is zero. *)
Definition spec_z (values : list F) (v : F) : F :=
  if fis_zero (spec_stdev values) then fzero
  else fdiv (fsub v (stat_mean values)) (spec_stdev values).

(** The composite difficulty [0.6*z(grade) + 0.3*z(poly) - 0.1*z(burden)] of
    a record among [records]. *)
Definition spec_difficulty (records : list (UnitRecord F)) (r : UnitRecord F) : F :=
  fsub
    (fadd (fmul (of_ratio 6 10) (spec_z (map (@fk_grade F) records) (fk_grade r)))
          (fmul (of_ratio 3 10) (spec_z (map (@pct_poly F) records) (pct_poly r))))
    (fmul (of_ratio 1 10) (spec_z (map (@factual_burden F) records) (factual_burden r))).

Definition spec_ranked (records : list (UnitRecord F)) : list (F * UnitRecord F) :=
  map (fun r => (spec_difficulty records r, r)) records.

End SpecWords.

(** The two variances of a list of exact values: the sum of the squares of
    the deviations from the mean, over [n - 1] (the sample variance, the one
    of [statistics.stdev]) and over [n] (the population variance, the one of
    [statistics.pstdev]). *)
Definition sum_of_squares (values : list Qc) : Qc :=
  let m := qc_mean values in
  qc_sum (map (fun x => Qcmult (Qcminus x m) (Qcminus x m)) values).

Definition sample_variance (values : list Qc) : Qc :=
  Qcdiv (sum_of_squares values) (qc_of_ratio (Z.of_nat (length values) - 1) 1).

Definition population_variance (values : list Qc) : Qc :=
  Qcdiv (sum_of_squares values) (qc_of_ratio (Z.of_nat (length values)) 1).

Section SpecDeviation.

Context {F : Type} {FL : PyFloat F}.

(** The exact value of a float ([float.as_integer_ratio]), the float of an
    exact value ([float(Fraction)]) and the square root of an exact value as
    a float ([statistics._float_sqrt_of_frac]). *)
Variable exact_ratio : F -> Qc.
Variable of_fraction : Qc -> F.
Variable float_sqrt_of_frac : Qc -> F.

(** The variance that the deviation is taken from. *)
Variable variance : list Qc -> Qc.

(** The deviation of a list: the square root of its variance, and zero for
    a list of one value. *)
Definition deviation_with (values : list F) : F :=
  if Nat.ltb 1 (length values) then float_sqrt_of_frac (variance (map exact_ratio values))
  else fzero.

(** The z-score of [v] among [values]: zero for everyone when the deviation
    is zero. *)
Definition z_with (values : list F) (v : F) : F :=
  if fis_zero (deviation_with values) then fzero
  else fdiv (fsub v (of_fraction (qc_mean (map exact_ratio values)))) (deviation_with values).

(** The composite difficulty [0.6*z(grade) + 0.3*z(poly) - 0.1*z(burden)]. *)
Definition difficulty_with (records : list (UnitRecord F)) (r : UnitRecord F) : F :=
  fsub
    (fadd (fmul (of_ratio 6 10) (z_with (map (@fk_grade F) records) (fk_grade r)))
          (fmul (of_ratio 3 10) (z_with (map (@pct_poly F) records) (pct_poly r))))
    (fmul (of_ratio 1 10) (z_with (map (@factual_burden F) records) (factual_burden r))).

Definition ranked_with (records : list (UnitRecord F)) : list (F * UnitRecord F) :=
  map (fun r => (difficulty_with records r, r)) records.

End SpecDeviation.

(** * Properties *)

(** ** The result monad and lists *)

Lemma mapM_ok_map {A B : Type} (f : A -> result B) (g : A -> B) (l : list A) :
  (forall a, In a l -> f a = Ok (g a)) -> mapM f l = Ok (map g l).
Proof.
  induction l as [|a l IH]; intros Hf; simpl.
  - reflexivity.
  - rewrite (Hf a (or_introl eq_refl)). simpl.
    rewrite IH by (intros b Hb; apply Hf; right; exact Hb).
    reflexivity.
Qed.

Lemma is_empty_true {A : Type} (l : list A) : is_empty l = true <-> l = [].
Proof. destruct l; simpl; split; congruence. Qed.

Lemma is_empty_false {A : Type} (l : list A) : is_empty l = false <-> l <> [].
Proof. destruct l; simpl; split; congruence. Qed.

Lemma str_eqb_eq (a b : str) : str_eqb a b = true <-> a = b.
Proof.
  revert b; induction a as [|x a IH]; intros [|y b]; simpl; split; try congruence.
  - intros H. apply andb_true_iff in H as [Hx Hab].
    apply N.eqb_eq in Hx. apply IH in Hab. congruence.
  - intros H. injection H as -> ->. rewrite N.eqb_refl. simpl. apply IH. reflexivity.
Qed.

Lemma str_eqb_refl (a : str) : str_eqb a a = true.
Proof. apply str_eqb_eq. reflexivity. Qed.

Lemma str_eqb_neq (a b : str) : str_eqb a b = false <-> a <> b.
Proof.
  split.
  - intros H E. apply str_eqb_eq in E. congruence.
  - intros H. destruct (str_eqb a b) eqn:E; [|reflexivity].
    apply str_eqb_eq in E. contradiction.
Qed.

(** ** The z-scores (claims C9 and C4) *)

Section ZScore.

Context {F : Type} {FL : PyFloat F}.

(** The list that [z_score] returns, element by element. *)
Lemma z_score_spec (values : list F) :
  z_score values = Ok (map (spec_z values) values).
Proof.
  unfold z_score. destruct (is_empty values) eqn:He.
  - apply is_empty_true in He. subst. reflexivity.
  - unfold statistics_mean. rewrite He. cbn [bind].
    assert (Hs : (if Nat.ltb 1 (length values) then statistics_stdev values else Ok fzero)
                 = Ok (spec_stdev values)).
    { unfold spec_stdev, statistics_stdev.
      destruct (Nat.ltb 1 (length values)) eqn:Hl; [|reflexivity].
      apply Nat.ltb_lt in Hl.
      destruct (Nat.ltb (length values) 2) eqn:Hl2; [|reflexivity].
      apply Nat.ltb_lt in Hl2. lia. }
    rewrite Hs. cbn [bind].
    destruct (fis_zero (spec_stdev values)) eqn:Hz.
    + f_equal. apply map_ext. intros v. unfold spec_z. rewrite Hz. reflexivity.
    + apply mapM_ok_map. intros v _. unfold py_fdiv, spec_z. rewrite Hz. reflexivity.
Qed.

(** [z_score] is the general function with the module on the floats of the
    scoring. *)
Lemma z_score_on_statistics (values : list F) :
  z_score values = z_score_on statistics_mean statistics_stdev values.
Proof. reflexivity. Qed.

(** C9, as the code has it. On every list of floats on which
    [statistics.mean] and [statistics.stdev] return, [z_score] returns a
    list that has the length of its input: the empty list for the empty
    input. *)
Theorem z_score_length_where_statistics_returns
    (lib_mean lib_stdev : list F -> result F) (values : list F)
    (Hmean : values <> [] -> exists m, lib_mean values = Ok m)
    (Hstdev : 1 < length values -> exists s, lib_stdev values = Ok s) :
  exists zs,
    z_score_on lib_mean lib_stdev values = Ok zs
    /\ length zs = length values
    /\ (values = [] -> zs = []).
Proof.
  unfold z_score_on. destruct (is_empty values) eqn:He.
  - apply is_empty_true in He. subst values. exists []. repeat split.
  - apply is_empty_false in He. destruct (Hmean He) as (m & ->). cbn [bind].
    assert (Hs : exists s,
               (if Nat.ltb 1 (length values) then lib_stdev values else Ok fzero) = Ok s).
    { destruct (Nat.ltb 1 (length values)) eqn:Hl; [|exists fzero; reflexivity].
      apply Nat.ltb_lt in Hl. exact (Hstdev Hl). }
    destruct Hs as (s & ->). cbn [bind].
    destruct (fis_zero s) eqn:Hz.
    + eexists. split; [reflexivity|]. split; [apply length_map|].
      intros E. contradiction.
    + exists (map (fun v => fdiv (fsub v m) s) values).
      split; [|split; [apply length_map|intros E; contradiction]].
      apply mapM_ok_map. intros v _. unfold py_fdiv. rewrite Hz. reflexivity.
Qed.

Lemma index_map {A B : Type} (g : A -> B) (l : list A) (i : nat) (a : A) :
  nth_error l i = Some a -> index (map g l) i = Ok (g a).
Proof.
  intros H. unfold index. rewrite nth_error_map, H. reflexivity.
Qed.

Lemma rank_loop_spec (f1 f2 f3 : UnitRecord F -> F) (all : list (UnitRecord F)) :
  forall (rest before : list (UnitRecord F)),
    all = before ++ rest ->
    rank_loop (map f1 all) (map f2 all) (map f3 all) (length before) rest
    = Ok (map (fun r => (difficulty_of (f1 r) (f2 r) (f3 r), r)) rest).
Proof.
  induction rest as [|r rest IH]; intros before Hall; simpl.
  - reflexivity.
  - assert (Hnth : nth_error all (length before) = Some r).
    { subst all. rewrite nth_error_app2 by lia. rewrite Nat.sub_diag. reflexivity. }
    rewrite !(index_map _ _ _ Hnth). cbn [bind].
    specialize (IH (before ++ [r])).
    rewrite length_app in IH. simpl in IH. rewrite Nat.add_1_r in IH.
    rewrite IH by (subst all; rewrite <- app_assoc; reflexivity).
    reflexivity.
Qed.

(** The list [ranked] of [assign_tiers] pairs every record with the
    composite difficulty of the specification. *)
Lemma rank_records_spec (records : list (UnitRecord F)) :
  rank_records records = Ok (spec_ranked records).
Proof.
  unfold rank_records. rewrite !z_score_spec. cbn [bind].
  rewrite !map_map.
  apply (@rank_loop_spec
           (fun r => spec_z (map (@fk_grade F) records) (fk_grade r))
           (fun r => spec_z (map (@pct_poly F) records) (pct_poly r))
           (fun r => spec_z (map (@factual_burden F) records) (factual_burden r))
           records records []).
  reflexivity.
Qed.

Lemma assign_tiers_spec (records : list (UnitRecord F)) :
  3 <= length records ->
  assign_tiers records = Ok (tiers_map snd (tier_rows (spec_ranked records))).
Proof.
  intros Hlen. unfold assign_tiers.
  destruct records as [|r records]; [simpl in Hlen; lia|].
  cbn [is_empty].
  destruct (Nat.ltb (length (r :: records)) 3) eqn:Hlt.
  - apply Nat.ltb_lt in Hlt. lia.
  - rewrite rank_records_spec. reflexivity.
Qed.

(** The library against the exact values: [statistics.mean] is the float of
    the exact mean, and [statistics.stdev] the square root, as a float, of
    the exact sample variance. *)
Variable exact_ratio : F -> Qc.
Variable of_fraction : Qc -> F.
Variable float_sqrt_of_frac : Qc -> F.

Hypothesis stat_mean_exact :
  forall values : list F,
    values <> [] -> stat_mean values = of_fraction (qc_mean (map exact_ratio values)).
Hypothesis stat_stdev_sample :
  forall values : list F,
    2 <= length values ->
    stat_stdev values = float_sqrt_of_frac (sample_variance (map exact_ratio values)).

Local Notation sample_stdev :=
  (deviation_with exact_ratio float_sqrt_of_frac sample_variance).
Local Notation sample_z :=
  (z_with exact_ratio of_fraction float_sqrt_of_frac sample_variance).

Lemma spec_stdev_sample (values : list F) : spec_stdev values = sample_stdev values.
Proof.
  unfold spec_stdev, deviation_with.
  destruct (Nat.ltb 1 (length values)) eqn:Hl; [|reflexivity].
  apply Nat.ltb_lt in Hl. apply stat_stdev_sample. lia.
Qed.

Lemma spec_z_sample (values : list F) (v : F) :
  values <> [] -> spec_z values v = sample_z values v.
Proof.
  intros Hne. unfold spec_z, z_with.
  rewrite spec_stdev_sample, (stat_mean_exact Hne). reflexivity.
Qed.

Lemma spec_ranked_sample (records : list (UnitRecord F)) :
  spec_ranked records
  = ranked_with exact_ratio of_fraction float_sqrt_of_frac sample_variance records.
Proof.
  unfold spec_ranked, ranked_with. apply map_ext_in. intros r Hr.
  assert (Hne : forall f : UnitRecord F -> F, map f records <> []).
  { intros f E. apply map_eq_nil in E. subst records. contradiction. }
  unfold spec_difficulty, difficulty_with.
  rewrite !spec_z_sample by apply Hne. reflexivity.
Qed.

(** C4, as the code has it. On three records or more, [assign_tiers] ranks
    every record by [0.6*z(grade) + 0.3*z(poly) - 0.1*z(burden)], each
    z-score being taken against the mean and the sample standard deviation
    (the divisor is [n - 1]) of the whole list; a list whose deviation is
    zero, and a list of a single value, have the z-score zero for every
    element. *)
Theorem assign_tiers_sample_difficulty
    (zero_is_zero : fis_zero (fzero (F := F)) = true)
    (records : list (UnitRecord F)) (Hlen : 3 <= length records) :
  rank_records records
  = Ok (ranked_with exact_ratio of_fraction float_sqrt_of_frac sample_variance records)
  /\ assign_tiers records
     = Ok (tiers_map snd
             (tier_rows
                (ranked_with exact_ratio of_fraction float_sqrt_of_frac sample_variance
                   records)))
  /\ (forall values : list F,
        fis_zero (sample_stdev values) = true ->
        z_score values = Ok (map (fun _ => fzero) values))
  /\ (forall v : F, z_score [v] = Ok [fzero]).
Proof.
  rewrite <- spec_ranked_sample.
  split; [apply rank_records_spec|].
  split; [apply assign_tiers_spec; exact Hlen|].
  split.
  - intros values Hz. rewrite <- spec_stdev_sample in Hz. rewrite z_score_spec. f_equal.
    apply map_ext. intros v. unfold spec_z. rewrite Hz. reflexivity.
  - intros v. rewrite z_score_spec. simpl. unfold spec_z, spec_stdev. simpl.
    rewrite zero_is_zero. reflexivity.
Qed.

End ZScore.

(** ** The dict of the rows by author *)

Section Dict.

Variable A : Type.
Variable key : A -> str.

(** [d.get(k, [])]. *)
Fixpoint dict_get (k : str) (d : list (str * list A)) : list A :=
  match d with
  | [] => []
  | (k', rows) :: d' => if str_eqb k' k then rows else dict_get k d'
  end.

Definition group_rows (l : list A) : list (str * list A) :=
  fold_left (fun d r => dict_append (key r) r d) l [].

(** The rows of [l] whose key is [k], in the order of [l]. *)
Definition rows_of (k : str) (l : list A) : list A :=
  filter (fun r => str_eqb (key r) k) l.

Lemma dict_get_append (k k' : str) (r : A) (d : list (str * list A)) :
  dict_get k' (dict_append k r d)
  = if str_eqb k k' then dict_get k' d ++ [r] else dict_get k' d.
Proof.
  induction d as [|[k0 rows] d IH]; simpl.
  - destruct (str_eqb k k'); reflexivity.
  - destruct (str_eqb k0 k) eqn:E0; simpl.
    + apply str_eqb_eq in E0. subst k0.
      destruct (str_eqb k k'); reflexivity.
    + destruct (str_eqb k0 k') eqn:E1.
      * destruct (str_eqb k k') eqn:E2; [|reflexivity].
        apply str_eqb_eq in E1, E2. apply str_eqb_neq in E0. congruence.
      * exact IH.
Qed.

Lemma dict_keys_append (k : str) (r : A) (d : list (str * list A)) :
  map fst (dict_append k r d)
  = map fst d ++ (if existsb (fun k' => str_eqb k' k) (map fst d) then [] else [k]).
Proof.
  induction d as [|[k0 rows] d IH]; simpl.
  - reflexivity.
  - destruct (str_eqb k0 k) eqn:E0; simpl.
    + rewrite app_nil_r. reflexivity.
    + rewrite IH. reflexivity.
Qed.

Lemma dict_entries_get (d : list (str * list A)) :
  NoDup (map fst d) -> forall e, In e d -> dict_get (fst e) d = snd e.
Proof.
  induction d as [|[k0 rows] d IH]; simpl; intros Hnd e He; [contradiction|].
  inversion Hnd as [|? ? Hnotin Hnd']; subst.
  destruct He as [<-|He]; simpl.
  - rewrite str_eqb_refl. reflexivity.
  - destruct (str_eqb k0 (fst e)) eqn:E.
    + apply str_eqb_eq in E. subst k0. exfalso. apply Hnotin.
      apply in_map. exact He.
    + apply IH; assumption.
Qed.

Lemma dict_keys_nodup_append (k : str) (r : A) (d : list (str * list A)) :
  NoDup (map fst d) -> NoDup (map fst (dict_append k r d)).
Proof.
  intros Hnd. rewrite dict_keys_append.
  destruct (existsb _ _) eqn:Ex.
  - rewrite app_nil_r. exact Hnd.
  - apply NoDup_app; [exact Hnd|repeat constructor; intros []|].
    intros k' Hin [<-|[]].
    assert (existsb (fun k'0 => str_eqb k'0 k) (map fst d) = true).
    { apply existsb_exists. exists k. split; [exact Hin|apply str_eqb_refl]. }
    congruence.
Qed.

(** The dict after the loop: no key twice, every key with the rows of that
    key, and a key for every row. *)
Lemma group_rows_spec (l : list A) :
  NoDup (map fst (group_rows l))
  /\ (forall k, dict_get k (group_rows l) = rows_of k l)
  /\ (forall e, In e (group_rows l) -> snd e = rows_of (fst e) l).
Proof.
  unfold group_rows.
  induction l as [|r l IH] using rev_ind.
  - simpl. split; [constructor|]. split; [reflexivity|intros e []].
  - rewrite fold_left_app. simpl.
    destruct IH as (Hnd & Hget & Hent).
    assert (Hget' : forall k,
               dict_get k (dict_append (key r) r (fold_left (fun d r0 => dict_append (key r0) r0 d) l []))
               = rows_of k (l ++ [r])).
    { intros k. rewrite dict_get_append, Hget. unfold rows_of.
      rewrite filter_app. simpl.
      destruct (str_eqb (key r) k); [reflexivity|rewrite app_nil_r; reflexivity]. }
    split; [apply dict_keys_nodup_append; exact Hnd|].
    split; [exact Hget'|].
    intros e He. rewrite <- Hget'. symmetry.
    apply dict_entries_get; [apply dict_keys_nodup_append; exact Hnd|exact He].
Qed.

Lemma dict_append_perm (k : str) (r : A) (d : list (str * list A)) :
  Permutation (concat (map snd (dict_append k r d))) (r :: concat (map snd d)).
Proof.
  induction d as [|[k0 rows] d IH]; simpl.
  - constructor. constructor.
  - destruct (str_eqb k0 k); simpl.
    + rewrite <- app_assoc. simpl. apply Permutation_sym, Permutation_middle.
    + rewrite IH. apply Permutation_sym, Permutation_middle.
Qed.

Lemma group_rows_perm (l : list A) :
  Permutation (concat (map snd (group_rows l))) l.
Proof.
  unfold group_rows.
  induction l as [|r l IH] using rev_ind.
  - constructor.
  - rewrite fold_left_app. simpl. rewrite dict_append_perm.
    rewrite IH. apply Permutation_cons_append.
Qed.

End Dict.

(** ** The tiers (claims C2 and C5) *)

Lemma slice_partition {A : Type} (c1 c2 : nat) (l : list A) :
  c1 <= c2 -> firstn c1 l ++ slice c1 c2 l ++ skipn c2 l = l.
Proof.
  intros Hle. unfold slice.
  replace (skipn c2 l) with (skipn (c2 - c1) (skipn c1 l)).
  - rewrite firstn_skipn. apply firstn_skipn.
  - rewrite skipn_skipn. f_equal. lia.
Qed.

Lemma NoDup_app_disjoint {A : Type} (l1 l2 : list A) :
  NoDup (l1 ++ l2) -> forall a, In a l1 -> ~ In a l2.
Proof.
  induction l1 as [|x l1 IH]; simpl; intros Hnd a Ha; [contradiction|].
  inversion Hnd as [|? ? Hx Hnd']; subst.
  destruct Ha as [<-|Ha].
  - intros H2. apply Hx. apply in_or_app. right. exact H2.
  - apply IH; assumption.
Qed.

Section Tiers.

Context {F : Type} {FL : PyFloat F}.

Local Definition empty_tiers : Tiers (@row F) := {| easy := []; medium := []; hard := [] |}.

(** [x] is not above [y]: [y < x] does not hold. *)
Definition not_above (x y : @row F) : Prop := flt (fst y) (fst x) = false.

Lemma insert_row_perm (x : @row F) (l : list (@row F)) : Permutation (insert_row x l) (x :: l).
Proof.
  induction l as [|y l IH]; simpl.
  - reflexivity.
  - destruct (flt (fst y) (fst x)).
    + rewrite IH. apply perm_swap.
    + reflexivity.
Qed.

Lemma sort_rows_perm (l : list (@row F)) : Permutation (sort_rows l) l.
Proof.
  induction l as [|x l IH]; simpl.
  - constructor.
  - rewrite insert_row_perm. constructor. exact IH.
Qed.

Lemma sort_rows_length (l : list (@row F)) : length (sort_rows l) = length l.
Proof. apply Permutation_length, sort_rows_perm. Qed.

(** What one author adds to the tiers is the sorted list of the rows of the
    author, cut in three. *)
Lemma tier_author_cut (g : list (@row F)) :
  easy (tier_author empty_tiers g) ++ medium (tier_author empty_tiers g)
    ++ hard (tier_author empty_tiers g)
  = sort_rows g.
Proof.
  unfold tier_author. set (rows := sort_rows g).
  destruct (Nat.eqb (length rows) 1) eqn:E1; [reflexivity|].
  destruct (Nat.eqb (length rows) 2) eqn:E2.
  - apply Nat.eqb_eq in E2. cbn [easy medium hard app].
    destruct rows as [|a [|b [|c rows]]]; simpl in E2; try discriminate.
    reflexivity.
  - cbn [easy medium hard app].
    apply Nat.eqb_neq in E1, E2.
    destruct (Nat.eq_dec (length rows) 0) as [E0|E0].
    + apply length_zero_iff_nil in E0. rewrite E0.
      unfold slice. rewrite !firstn_nil, !skipn_nil. reflexivity.
    + apply slice_partition.
      set (n := length rows) in *.
      assert (Hd : n / 3 <= n - 1).
      { apply Nat.Div0.div_le_upper_bound. lia. }
      destruct (Nat.leb n (Nat.max (Nat.max 1 (n / 3) + 1) (2 * n / 3))); lia.
Qed.

Lemma tier_author_app (t : Tiers (@row F)) (g : list (@row F)) :
  tier_author t g
  = {| easy := easy t ++ easy (tier_author empty_tiers g);
       medium := medium t ++ medium (tier_author empty_tiers g);
       hard := hard t ++ hard (tier_author empty_tiers g) |}.
Proof.
  unfold tier_author.
  destruct (Nat.eqb (length (sort_rows g)) 1).
  - cbn [easy medium hard]. rewrite !app_nil_r. reflexivity.
  - destruct (Nat.eqb (length (sort_rows g)) 2).
    + cbn [easy medium hard]. rewrite !app_nil_r. reflexivity.
    + cbn [easy medium hard]. reflexivity.
Qed.

Lemma fold_tier_author (gs : list (list (@row F))) (t : Tiers (@row F)) :
  fold_left tier_author gs t
  = {| easy := easy t ++ concat (map (fun g => easy (tier_author empty_tiers g)) gs);
       medium := medium t ++ concat (map (fun g => medium (tier_author empty_tiers g)) gs);
       hard := hard t ++ concat (map (fun g => hard (tier_author empty_tiers g)) gs) |}.
Proof.
  revert t. induction gs as [|g gs IH]; intros t; simpl.
  - rewrite !app_nil_r. destruct t; reflexivity.
  - rewrite IH. rewrite (tier_author_app t g). cbn [easy medium hard].
    rewrite <- !app_assoc. reflexivity.
Qed.

Lemma app3_perm {A : Type} (a1 a2 a3 b1 b2 b3 : list A) :
  Permutation ((a1 ++ b1) ++ (a2 ++ b2) ++ (a3 ++ b3)) ((a1 ++ a2 ++ a3) ++ b1 ++ b2 ++ b3).
Proof.
  rewrite <- !app_assoc. apply Permutation_app_head.
  rewrite (Permutation_app_swap_app b1 a2). apply Permutation_app_head.
  rewrite (Permutation_app_swap_app b2 a3).
  apply Permutation_app_swap_app.
Qed.

Lemma concat3_perm {A : Type} (f1 f2 f3 : list A -> list A) (gs : list (list A)) :
  Permutation
    (concat (map f1 gs) ++ concat (map f2 gs) ++ concat (map f3 gs))
    (concat (map (fun g => f1 g ++ f2 g ++ f3 g) gs)).
Proof.
  induction gs as [|g gs IH]; simpl.
  - constructor.
  - rewrite <- IH. apply app3_perm.
Qed.

(** The three tiers hold every row once. *)
Lemma tier_rows_perm (ranked : list (@row F)) :
  Permutation
    (easy (tier_rows ranked) ++ medium (tier_rows ranked) ++ hard (tier_rows ranked))
    ranked.
Proof.
  unfold tier_rows. rewrite fold_tier_author. cbn [easy medium hard app].
  rewrite concat3_perm.
  rewrite (map_ext _ sort_rows) by (intros g; apply tier_author_cut).
  transitivity (concat (map snd (group_by_author ranked))).
  - generalize (map snd (group_by_author ranked)) as gs.
    induction gs as [|g gs IH]; simpl; [constructor|].
    apply Permutation_app; [apply sort_rows_perm|exact IH].
  - apply (group_rows_perm (fun r : @row F => author (snd r))).
Qed.

Lemma spec_ranked_records (records : list (UnitRecord F)) :
  map snd (spec_ranked records) = records.
Proof.
  unfold spec_ranked. rewrite map_map. simpl. apply map_id.
Qed.

Lemma assign_tiers_perm (records : list (UnitRecord F)) :
  exists t, assign_tiers records = Ok t
            /\ Permutation (easy t ++ medium t ++ hard t) records.
Proof.
  destruct (Nat.ltb (length records) 3) eqn:Hlt.
  - exists {| easy := []; medium := []; hard := records |}. split; [|reflexivity].
    unfold assign_tiers. rewrite Hlt.
    destruct records; reflexivity.
  - apply Nat.ltb_ge in Hlt.
    exists (tiers_map snd (tier_rows (spec_ranked records))).
    split; [apply assign_tiers_spec; exact Hlt|].
    cbn [tiers_map easy medium hard]. rewrite <- !map_app.
    rewrite tier_rows_perm. rewrite spec_ranked_records. reflexivity.
Qed.

(** C2. [assign_tiers] puts every record of its input in one tier and in one
    only: the three tiers together are the input list up to the order, so
    they are pairwise disjoint when the records are distinct; on fewer than
    three records the easy and the medium tier are empty and the hard tier is
    the input. *)
Theorem assign_tiers_partition (records : list (UnitRecord F)) :
  exists t,
    assign_tiers records = Ok t
    /\ Permutation (easy t ++ medium t ++ hard t) records
    /\ (NoDup records ->
        forall r, (In r (easy t) -> ~ In r (medium t))
                  /\ (In r (easy t) -> ~ In r (hard t))
                  /\ (In r (medium t) -> ~ In r (hard t)))
    /\ (length records < 3 -> easy t = [] /\ medium t = [] /\ hard t = records).
Proof.
  destruct (assign_tiers_perm records) as (t & Ht & Hperm).
  exists t. split; [exact Ht|]. split; [exact Hperm|]. split.
  - intros Hnd r.
    assert (Hnd' : NoDup (easy t ++ medium t ++ hard t)).
    { apply (Permutation_NoDup (Permutation_sym Hperm)). exact Hnd. }
    pose proof (NoDup_app_disjoint _ _ Hnd') as Hdis.
    pose proof (NoDup_app_disjoint _ _ (NoDup_app_remove_l _ _ Hnd')) as Hdis'.
    repeat split.
    + intros He Hm. apply (Hdis r He). apply in_or_app. left. exact Hm.
    + intros He Hh. apply (Hdis r He). apply in_or_app. right. exact Hh.
    + intros Hm Hh. apply (Hdis' r Hm Hh).
  - intros Hlt. unfold assign_tiers in Ht.
    apply Nat.ltb_lt in Hlt. rewrite Hlt in Ht.
    destruct records; injection Ht as <-; repeat split.
Qed.

End Tiers.

Section Monotone.

Context {F : Type} {FL : PyFloat F}.

(** The order of the floats that are no NaN: [<] is a strict weak order. *)
Hypothesis flt_asym : forall x y : F, flt x y = true -> flt y x = false.
Hypothesis flt_cotrans :
  forall x y z : F, flt x z = true -> flt x y = true \/ flt y z = true.

Lemma not_above_trans (x y z : @row F) :
  not_above x y -> not_above y z -> not_above x z.
Proof.
  unfold not_above. intros Hxy Hyz.
  destruct (flt (fst z) (fst x)) eqn:E; [|reflexivity].
  destruct (flt_cotrans (fst z) (fst y) (fst x) E); congruence.
Qed.

Lemma insert_row_sorted (x : @row F) (l : list (@row F)) :
  StronglySorted not_above l -> StronglySorted not_above (insert_row x l).
Proof.
  induction 1 as [|y l Hs IH Hy]; simpl.
  - repeat constructor.
  - destruct (flt (fst y) (fst x)) eqn:E.
    + constructor; [exact IH|].
      apply (Permutation_Forall (Permutation_sym (insert_row_perm x l))).
      constructor; [|exact Hy].
      unfold not_above. apply flt_asym. exact E.
    + constructor; [constructor; assumption|].
      constructor; [exact E|].
      apply Forall_forall. intros z Hz.
      apply not_above_trans with y; [exact E|].
      rewrite Forall_forall in Hy. apply Hy. exact Hz.
Qed.

Lemma sort_rows_sorted (l : list (@row F)) : StronglySorted not_above (sort_rows l).
Proof.
  induction l as [|x l IH]; simpl.
  - constructor.
  - apply insert_row_sorted. exact IH.
Qed.

Lemma sorted_app_inv {A : Type} (R : A -> A -> Prop) (l1 l2 : list A) :
  StronglySorted R (l1 ++ l2) -> forall x y, In x l1 -> In y l2 -> R x y.
Proof.
  induction l1 as [|a l1 IH]; simpl; intros Hs x y Hx Hy; [contradiction|].
  inversion Hs as [|? ? Hs' Ha]; subst.
  destruct Hx as [<-|Hx].
  - rewrite Forall_forall in Ha. apply Ha. apply in_or_app. right. exact Hy.
  - apply IH; assumption.
Qed.

Lemma sorted_app_r {A : Type} (R : A -> A -> Prop) (l1 l2 : list A) :
  StronglySorted R (l1 ++ l2) -> StronglySorted R l2.
Proof.
  induction l1 as [|a l1 IH]; simpl; intros Hs; [exact Hs|].
  inversion Hs; subst. apply IH. assumption.
Qed.

(** A row of a tier comes from the rows of its own author. *)
Lemma in_concat_groups (f : list (@row F) -> list (@row F)) (ranked : list (@row F))
    (x : @row F) :
  (forall g y, In y (f g) -> In y g) ->
  In x (concat (map f (map snd (group_by_author ranked)))) ->
  In x (f (rows_of (fun r : @row F => author (snd r)) (author (snd x)) ranked)).
Proof.
  intros Hsub Hx.
  apply in_concat in Hx as (l & Hl & Hxl).
  apply in_map_iff in Hl as (g & <- & Hg).
  apply in_map_iff in Hg as (e & <- & He).
  destruct (group_rows_spec (fun r : @row F => author (snd r)) ranked) as (_ & _ & Hent).
  pose proof (Hent e He) as Hsnd.
  assert (Hk : author (snd x) = fst e).
  { pose proof (Hsub _ _ Hxl) as Hin. rewrite Hsnd in Hin.
    unfold rows_of in Hin. apply filter_In in Hin as [_ Hk].
    apply str_eqb_eq in Hk. exact Hk. }
  rewrite Hk, <- Hsnd. exact Hxl.
Qed.

Lemma tier_author_sub (g : list (@row F)) (y : @row F) :
  In y (easy (tier_author empty_tiers g) ++ medium (tier_author empty_tiers g)
        ++ hard (tier_author empty_tiers g)) ->
  In y g.
Proof.
  rewrite tier_author_cut. intros H.
  apply (Permutation_in _ (sort_rows_perm g)). exact H.
Qed.

(** Within the rows of one author the three bands are in ascending order. *)
Lemma tier_author_bands (g : list (@row F)) :
  let t := tier_author empty_tiers g in
  (forall e m, In e (easy t) -> In m (medium t) -> not_above e m)
  /\ (forall m h, In m (medium t) -> In h (hard t) -> not_above m h)
  /\ (forall e h, In e (easy t) -> In h (hard t) -> not_above e h).
Proof.
  intros t. pose proof (sort_rows_sorted g) as Hs.
  rewrite <- (tier_author_cut g) in Hs. fold t in Hs.
  repeat split.
  - intros e m He Hm. apply (sorted_app_inv _ _ Hs); [exact He|].
    apply in_or_app. left. exact Hm.
  - intros m h Hm Hh. apply sorted_app_r in Hs.
    apply (sorted_app_inv _ _ Hs); assumption.
  - intros e h He Hh. apply (sorted_app_inv _ _ Hs); [exact He|].
    apply in_or_app. right. exact Hh.
Qed.

Lemma tier_rows_bands (ranked : list (@row F)) :
  let t := tier_rows ranked in
  (forall e m, In e (easy t) -> In m (medium t) ->
               author (snd e) = author (snd m) -> not_above e m)
  /\ (forall m h, In m (medium t) -> In h (hard t) ->
                  author (snd m) = author (snd h) -> not_above m h)
  /\ (forall e h, In e (easy t) -> In h (hard t) ->
                  author (snd e) = author (snd h) -> not_above e h).
Proof.
  intros t. unfold t, tier_rows. rewrite fold_tier_author. cbn [easy medium hard app].
  assert (He : forall g y, In y (easy (tier_author empty_tiers g)) -> In y g).
  { intros g y H. apply tier_author_sub. apply in_or_app. left. exact H. }
  assert (Hm : forall g y, In y (medium (tier_author empty_tiers g)) -> In y g).
  { intros g y H. apply tier_author_sub. apply in_or_app. right.
    apply in_or_app. left. exact H. }
  assert (Hh : forall g y, In y (hard (tier_author empty_tiers g)) -> In y g).
  { intros g y H. apply tier_author_sub. apply in_or_app. right.
    apply in_or_app. right. exact H. }
  repeat split; intros a b Ha Hb Hauth;
    destruct (tier_author_bands
                (rows_of (fun r : @row F => author (snd r)) (author (snd a)) ranked))
      as (B1 & B2 & B3).
  - apply (in_concat_groups _ _ _ He) in Ha. apply (in_concat_groups _ _ _ Hm) in Hb.
    rewrite <- Hauth in Hb. apply B1; assumption.
  - apply (in_concat_groups _ _ _ Hm) in Ha. apply (in_concat_groups _ _ _ Hh) in Hb.
    rewrite <- Hauth in Hb. apply B2; assumption.
  - apply (in_concat_groups _ _ _ He) in Ha. apply (in_concat_groups _ _ _ Hh) in Hb.
    rewrite <- Hauth in Hb. apply B3; assumption.
Qed.

(** C5. On three records or more, the rows that [assign_tiers] sorts carry
    the composite difficulty, and within one author no easy row is above a
    medium row, and no medium row above a hard row, in difficulty. *)
Theorem assign_tiers_monotone (records : list (UnitRecord F)) (Hlen : 3 <= length records) :
  let t := tier_rows (spec_ranked records) in
  assign_tiers records = Ok (tiers_map snd t)
  /\ (forall x, In x (easy t ++ medium t ++ hard t) ->
                fst x = spec_difficulty records (snd x))
  /\ (forall e m, In e (easy t) -> In m (medium t) ->
                  author (snd e) = author (snd m) -> flt (fst m) (fst e) = false)
  /\ (forall m h, In m (medium t) -> In h (hard t) ->
                  author (snd m) = author (snd h) -> flt (fst h) (fst m) = false)
  /\ (forall e h, In e (easy t) -> In h (hard t) ->
                  author (snd e) = author (snd h) -> flt (fst h) (fst e) = false).
Proof.
  intros t. split; [apply assign_tiers_spec; exact Hlen|]. split.
  - intros x Hx.
    apply (Permutation_in _ (tier_rows_perm (spec_ranked records))) in Hx.
    unfold spec_ranked in Hx. apply in_map_iff in Hx as (r & <- & _). reflexivity.
  - apply (tier_rows_bands (spec_ranked records)).
Qed.

End Monotone.

(** ** The scoring functions (claim C8) *)

Section ScoringTotal.

Context {U : UnicodeDB} {F : Type} {FL : PyFloat F}.

Lemma truediv_ok (a b : nat) :
  b <> 0 -> truediv a b = Ok (of_ratio (Z.of_nat a) (Z.of_nat b)).
Proof.
  intros Hb. unfold truediv. destruct (Nat.eqb b 0) eqn:E; [|reflexivity].
  apply Nat.eqb_eq in E. contradiction.
Qed.

Lemma length_nonzero {A : Type} (l : list A) : is_empty l = false -> length l <> 0.
Proof. destruct l; simpl; congruence. Qed.

Lemma flesch_kincaid_grade_total (text : str) :
  exists v, flesch_kincaid_grade text = Ok v.
Proof.
  unfold flesch_kincaid_grade.
  destruct (Nat.eqb (length (split_ws text)) 0) eqn:E; [eexists; reflexivity|].
  apply Nat.eqb_neq in E.
  rewrite truediv_ok by (unfold sentence_count; lia). cbn [bind].
  rewrite truediv_ok by exact E. cbn [bind].
  eexists; reflexivity.
Qed.

Lemma pct_polysyllabic_total (text : str) :
  exists v, pct_polysyllabic text = Ok v.
Proof.
  unfold pct_polysyllabic.
  destruct (is_empty (word_findall text)) eqn:E; [eexists; reflexivity|].
  rewrite truediv_ok by (apply length_nonzero; exact E).
  eexists; reflexivity.
Qed.

Lemma factual_burden_score_total (text : str) :
  exists v, factual_burden_score text = Ok v.
Proof.
  unfold factual_burden_score.
  destruct (is_empty (burden_tokens text)) eqn:E; [eexists; reflexivity|].
  rewrite truediv_ok by (apply length_nonzero; exact E).
  eexists; reflexivity.
Qed.

(** C8. The three scoring functions raise on no text, and each returns
    [0.0] on a text in which it finds no word: on the empty text in
    particular. *)
Theorem scoring_total (text : str) :
  (exists v, flesch_kincaid_grade text = Ok v)
  /\ (exists v, pct_polysyllabic text = Ok v)
  /\ (exists v, factual_burden_score text = Ok v)
  /\ (split_ws text = [] -> flesch_kincaid_grade text = Ok fzero)
  /\ (word_findall text = [] -> pct_polysyllabic text = Ok fzero)
  /\ (burden_tokens text = [] -> factual_burden_score text = Ok fzero)
  /\ flesch_kincaid_grade [] = Ok fzero
  /\ pct_polysyllabic [] = Ok fzero
  /\ factual_burden_score [] = Ok fzero.
Proof.
  split; [apply flesch_kincaid_grade_total|].
  split; [apply pct_polysyllabic_total|].
  split; [apply factual_burden_score_total|].
  split; [|split; [|split]].
  - intros H. unfold flesch_kincaid_grade. rewrite H. reflexivity.
  - intros H. unfold pct_polysyllabic. rewrite H. reflexivity.
  - intros H. unfold factual_burden_score. rewrite H. reflexivity.
  - repeat split.
Qed.

End ScoringTotal.

(** ** Counting words across cuts and joins *)

(** The number of maximal runs of [p], [prev] telling whether the character
    before the text is in [p]. *)
Fixpoint run_count (p : char -> bool) (prev : bool) (s : str) : nat :=
  match s with
  | [] => 0
  | c :: s' => (if p c && negb prev then 1 else 0) + run_count p (p c) s'
  end.

Lemma runs_length (p : char -> bool) (s : str) :
  length (runs p s) = run_count p false s.
Proof.
  induction s as [|c s IH]; [reflexivity|].
  cbn [runs run_count]. destruct (p c) eqn:Hc; cbn [andb negb].
  - destruct s as [|c' s']; [reflexivity|].
    destruct (p c') eqn:Hc'.
    + cbn [run_count] in *. rewrite Hc' in *. cbn [andb negb] in *.
      destruct (runs p (c' :: s')) as [|w ws]; simpl in *; lia.
    + cbn [length]. rewrite IH. cbn [run_count]. rewrite Hc'. reflexivity.
  - exact IH.
Qed.

Lemma count_words_run_count (s : str) : count_words s = run_count word_char false s.
Proof. apply runs_length. Qed.

Lemma run_count_app_sep (p : char -> bool) (c : char) (a b : str) (prev : bool) :
  p c = false ->
  run_count p prev (a ++ c :: b) = run_count p prev a + run_count p false b.
Proof.
  intros Hc. revert prev. induction a as [|x a IH]; intros prev; simpl.
  - rewrite Hc. reflexivity.
  - rewrite IH. lia.
Qed.

Lemma run_count_lstrip (p q : char -> bool) (s : str) :
  (forall c, q c = true -> p c = false) ->
  run_count p false (lstrip q s) = run_count p false s.
Proof.
  intros Hq. induction s as [|c s IH]; [reflexivity|].
  cbn [lstrip]. destruct (q c) eqn:Hc; [|reflexivity].
  cbn [run_count]. rewrite (Hq c Hc). exact IH.
Qed.

Lemma run_count_rstrip (p q : char -> bool) (s : str) :
  (forall c, q c = true -> p c = false) ->
  forall prev, run_count p prev (rstrip q s) = run_count p prev s.
Proof.
  intros Hq. induction s as [|c s IH]; intros prev; [reflexivity|].
  cbn [rstrip]. destruct (rstrip q s) as [|r rs] eqn:Hr.
  - destruct (q c) eqn:Hc.
    + cbn [run_count]. rewrite (Hq c Hc). rewrite <- IH. reflexivity.
    + cbn [run_count]. rewrite <- IH. reflexivity.
  - cbn [run_count]. rewrite <- IH. reflexivity.
Qed.

Lemma range_spec (lo hi c : N) : in_range lo hi c = true <-> (lo <= c <= hi)%N.
Proof.
  unfold in_range. rewrite andb_true_iff, !N.leb_le. reflexivity.
Qed.

(** A space is in no word. *)
Lemma isspace_not_word (c : char) : isspace c = true -> word_char c = false.
Proof.
  unfold isspace, word_char, is_ascii_alpha, is_ascii_upper, is_ascii_lower.
  intros H.
  repeat (apply orb_true_iff in H as [H|H]);
    try apply range_spec in H; try apply N.eqb_eq in H;
    (apply orb_false_iff; split; [apply orb_false_iff; split|]);
    try (apply not_true_iff_false; intros E; apply range_spec in E; lia);
    try (apply N.eqb_neq; lia).
Qed.

Lemma count_words_strip (s : str) : count_words (strip s) = count_words s.
Proof.
  rewrite !count_words_run_count. unfold strip, strip_chars.
  rewrite run_count_rstrip by apply isspace_not_word.
  apply run_count_lstrip, isspace_not_word.
Qed.

Lemma count_words_nil : count_words [] = 0.
Proof. reflexivity. Qed.

Lemma count_words_app_sep (c : char) (a b : str) :
  word_char c = false -> count_words (a ++ c :: b) = count_words a + count_words b.
Proof.
  intros Hc. rewrite !count_words_run_count. apply run_count_app_sep. exact Hc.
Qed.

Lemma count_words_sep_cons (c : char) (b : str) :
  word_char c = false -> count_words (c :: b) = count_words b.
Proof.
  intros Hc. apply (count_words_app_sep c [] b Hc).
Qed.

Definition total_words (l : list str) : nat := list_sum (map count_words l).

Lemma total_words_app (l1 l2 : list str) :
  total_words (l1 ++ l2) = total_words l1 + total_words l2.
Proof. unfold total_words. rewrite map_app, list_sum_app. reflexivity. Qed.

(** Joining with spaces or with blank lines keeps the words apart. *)
Lemma count_words_join (sep : str) (l : list str) :
  sep <> [] -> Forall (fun c => word_char c = false) sep ->
  count_words (join sep l) = total_words l.
Proof.
  intros Hne Hsep. induction l as [|x l IH]; [reflexivity|].
  cbn [join]. destruct l as [|y l].
  - unfold total_words. simpl. lia.
  - destruct sep as [|c sep]; [contradiction|].
    inversion Hsep as [|? ? Hc Hrest]; subst.
    change ((c :: sep) ++ join (c :: sep) (y :: l))
      with (c :: (sep ++ join (c :: sep) (y :: l))).
    rewrite count_words_app_sep by exact Hc.
    assert (Hdrop : forall t, count_words (sep ++ t) = count_words t).
    { clear -Hrest. induction Hrest as [|d sep Hd _ IHs]; intros t; [reflexivity|].
      simpl. rewrite count_words_sep_cons by exact Hd. apply IHs. }
    rewrite Hdrop, IH. unfold total_words. simpl. lia.
Qed.

Lemma count_words_join_sp (l : list str) : count_words (join [SP] l) = total_words l.
Proof.
  apply count_words_join; [discriminate|]. repeat constructor.
Qed.

Lemma count_words_join_nl (l : list str) : count_words (join [NL; NL] l) = total_words l.
Proof.
  apply count_words_join; [discriminate|]. repeat constructor.
Qed.

(** ** Splitting an oversized paragraph (claim C10) *)

Lemma mode_after_text (c : char) : mode_after c <> InSeparator.
Proof. unfold mode_after. destruct (terminal_char c); discriminate. Qed.

(** The separators that the split removes hold no word. *)
Lemma sent_split_count (s : str) :
  forall (mode : split_mode_t) (prev : bool),
    (mode = InSeparator -> prev = false) ->
    match sent_split_go mode s with
    | [] => False
    | h :: t => run_count word_char prev s = run_count word_char prev h + total_words t
    end.
Proof.
  induction s as [|c s IH]; intros mode prev Hmode.
  - simpl. reflexivity.
  - assert (Hcons : match cons_head c (sent_split_go (mode_after c) s) with
                    | [] => False
                    | h :: t => run_count word_char prev (c :: s)
                                = run_count word_char prev h + total_words t
                    end).
    { specialize (IH (mode_after c) (word_char c)
                     (fun E => False_ind _ (mode_after_text c E))).
      destruct (sent_split_go (mode_after c) s) as [|h t]; [contradiction|].
      cbn [cons_head run_count]. rewrite IH. lia. }
    cbn [sent_split_go]. destruct mode.
    + exact Hcons.
    + destruct (isspace c) eqn:Hc; [|exact Hcons].
      specialize (IH InSeparator false (fun _ => eq_refl)).
      destruct (sent_split_go InSeparator s) as [|h t]; [contradiction|].
      cbn [run_count]. rewrite (isspace_not_word c Hc). cbn [andb].
      rewrite IH. unfold total_words. cbn [map list_sum].
      rewrite count_words_run_count. reflexivity.
    + destruct (isspace c) eqn:Hc; [|exact Hcons].
      rewrite (Hmode eq_refl).
      specialize (IH InSeparator false (fun _ => eq_refl)).
      destruct (sent_split_go InSeparator s) as [|h t]; [contradiction|].
      cbn [run_count]. rewrite (isspace_not_word c Hc). cbn [andb].
      exact IH.
Qed.

Lemma SENT_SPLIT_RE_split_words (paragraph : str) :
  total_words (SENT_SPLIT_RE_split paragraph) = count_words paragraph.
Proof.
  unfold SENT_SPLIT_RE_split.
  pose proof (@sent_split_count paragraph InText false (fun E => eq_refl)) as H.
  destruct (sent_split_go InText paragraph) as [|h t]; [contradiction|].
  rewrite count_words_run_count, H. unfold total_words. cbn [map list_sum].
  rewrite count_words_run_count. reflexivity.
Qed.

Lemma total_words_cons (x : str) (l : list str) :
  total_words (x :: l) = count_words x + total_words l.
Proof. reflexivity. Qed.

Lemma total_words_snoc (l : list str) (x : str) :
  total_words (l ++ [x]) = total_words l + count_words x.
Proof.
  rewrite total_words_app, total_words_cons. unfold total_words at 2. simpl. lia.
Qed.

Lemma total_words_strip_filter (l : list str) :
  total_words (filter (fun s => negb (is_empty s)) (map strip l)) = total_words l.
Proof.
  induction l as [|x l IH]; [reflexivity|].
  cbn [map filter]. rewrite total_words_cons.
  destruct (is_empty (strip x)) eqn:E; cbn [negb].
  - apply is_empty_true in E. rewrite IH.
    rewrite <- (count_words_strip x), E. reflexivity.
  - rewrite total_words_cons, IH, count_words_strip. reflexivity.
Qed.

Lemma sentences_of_words (paragraph : str) :
  total_words (sentences_of paragraph) = count_words paragraph.
Proof.
  unfold sentences_of. rewrite total_words_strip_filter.
  apply SENT_SPLIT_RE_split_words.
Qed.

(** A text that starts on a character that is no space. *)
Definition starts_solid (s : str) : Prop :=
  match s with
  | [] => False
  | c :: _ => isspace c = false
  end.

Lemma lstrip_solid (p : char -> bool) (s : str) :
  match lstrip p s with
  | [] => True
  | c :: _ => p c = false
  end.
Proof.
  induction s as [|c s IH]; simpl; [exact I|].
  destruct (p c) eqn:Hc; [exact IH|exact Hc].
Qed.

Lemma rstrip_solid_head (p : char -> bool) (c : char) (r : str) :
  p c = false -> exists r', rstrip p (c :: r) = c :: r'.
Proof.
  intros Hc. cbn [rstrip]. destruct (rstrip p r) as [|x xs].
  - rewrite Hc. exists []. reflexivity.
  - exists (x :: xs). reflexivity.
Qed.

Lemma strip_solid (s : str) : strip s <> [] -> starts_solid (strip s).
Proof.
  unfold strip, strip_chars. pose proof (lstrip_solid isspace s) as H.
  destruct (lstrip isspace s) as [|c r]; [intros E; exfalso; apply E; reflexivity|].
  destruct (rstrip_solid_head isspace c r H) as (r' & ->). intros _. exact H.
Qed.

Lemma strip_of_solid (s : str) : starts_solid s -> strip s <> [].
Proof.
  destruct s as [|c r]; [contradiction|]. intros Hc. simpl in Hc.
  unfold strip, strip_chars. cbn [lstrip]. rewrite Hc.
  destruct (rstrip_solid_head isspace c r Hc) as (r' & ->). discriminate.
Qed.

Lemma sentences_of_solid (paragraph : str) : Forall starts_solid (sentences_of paragraph).
Proof.
  unfold sentences_of. apply Forall_forall. intros s Hs.
  apply filter_In in Hs as [Hin Hne].
  apply in_map_iff in Hin as (x & <- & _).
  apply strip_solid. apply is_empty_false. apply negb_true_iff. exact Hne.
Qed.

Lemma join_solid (sep : str) (chunk : list str) :
  chunk <> [] -> Forall starts_solid chunk -> starts_solid (join sep chunk).
Proof.
  destruct chunk as [|x l]; [contradiction|]. intros _ H.
  inversion H as [|? ? Hx _]; subst. cbn [join].
  destruct l; [exact Hx|].
  destruct x as [|c r]; [contradiction|]. exact Hx.
Qed.

(** The loop of [split_oversized_paragraph] files every sentence once, in
    order, and closes no empty chunk. *)
Lemma split_step_inv (target_words max_words : Z) (st : split_state) (sentence : str) :
  Forall (fun chunk => chunk <> []) (sp_chunks st) ->
  let st' := split_step target_words max_words st sentence in
  concat (sp_chunks st') ++ sp_current st'
  = (concat (sp_chunks st) ++ sp_current st) ++ [sentence]
  /\ Forall (fun chunk => chunk <> []) (sp_chunks st').
Proof.
  intros Hall. unfold split_step.
  set (flush := negb (is_empty (sp_current st))
                && Z.ltb max_words (Z.of_nat (sp_words st + count_words sentence))).
  destruct flush eqn:Hflush; cbn [sp_chunks sp_current sp_words].
  - apply andb_true_iff in Hflush as [Hcur _].
    apply negb_true_iff, is_empty_false in Hcur.
    destruct (Z.leb target_words (Z.of_nat (count_words sentence)));
      cbn [sp_chunks sp_current sp_words]; rewrite ?concat_app; simpl;
      rewrite ?app_nil_r, <- ?app_assoc; (split; [reflexivity|]);
      repeat (apply Forall_app; split); try assumption;
      repeat constructor; try assumption; discriminate.
  - destruct (Z.leb target_words (Z.of_nat (sp_words st + count_words sentence)));
      cbn [sp_chunks sp_current sp_words]; rewrite ?concat_app; simpl;
      rewrite ?app_nil_r, <- ?app_assoc; (split; [reflexivity|]);
      repeat (apply Forall_app; split); try assumption;
      repeat constructor.
    intros E. apply app_eq_nil in E as [_ E]. discriminate.
Qed.

Lemma split_fold_inv (target_words max_words : Z) (sentences : list str) :
  forall st : split_state,
    Forall (fun chunk => chunk <> []) (sp_chunks st) ->
    let st' := fold_left (split_step target_words max_words) sentences st in
    concat (sp_chunks st') ++ sp_current st'
    = (concat (sp_chunks st) ++ sp_current st) ++ sentences
    /\ Forall (fun chunk => chunk <> []) (sp_chunks st').
Proof.
  induction sentences as [|s l IH]; intros st Hall; cbn [fold_left].
  - rewrite app_nil_r. split; [reflexivity|exact Hall].
  - destruct (split_step_inv target_words max_words st s Hall) as [Hc Hf].
    destruct (IH _ Hf) as [Hc' Hf'].
    split; [|exact Hf'].
    rewrite Hc', Hc, <- !app_assoc. reflexivity.
Qed.

Lemma split_chunks_spec (target_words max_words : Z) (sentences : list str) :
  concat (split_chunks target_words max_words sentences) = sentences
  /\ Forall (fun chunk => chunk <> []) (split_chunks target_words max_words sentences).
Proof.
  unfold split_chunks.
  destruct (split_fold_inv target_words max_words sentences
              {| sp_chunks := []; sp_current := []; sp_words := 0 |} (Forall_nil _))
    as [Hc Hf].
  cbn [sp_chunks sp_current concat app] in Hc.
  set (st := fold_left _ _ _) in *.
  destruct (is_empty (sp_current st)) eqn:He.
  - apply is_empty_true in He. rewrite He, app_nil_r in Hc. split; assumption.
  - apply is_empty_false in He. split.
    + rewrite concat_app. simpl. rewrite app_nil_r. exact Hc.
    + apply Forall_app. split; [exact Hf|]. repeat constructor. exact He.
Qed.

Lemma filter_all {A : Type} (p : A -> bool) (l : list A) :
  Forall (fun a => p a = true) l -> filter p l = l.
Proof.
  induction 1 as [|a l Ha _ IH]; simpl; [reflexivity|].
  rewrite Ha, IH. reflexivity.
Qed.

Lemma total_words_concat (chunks : list (list str)) :
  total_words (concat chunks) = list_sum (map total_words chunks).
Proof.
  induction chunks as [|ch chunks IH]; [reflexivity|].
  simpl. rewrite total_words_app, IH. reflexivity.
Qed.

(** C10. On a paragraph that is not empty, [split_oversized_paragraph]
    returns one piece or more and no empty piece; the pieces are the
    sentences of the paragraph, each once and in their order, grouped in
    chunks; and the pieces have together the words of the paragraph. *)
Theorem split_oversized_paragraph_keeps_text
    (paragraph : str) (target_words max_words : Z) (Hne : paragraph <> []) :
  let pieces := split_oversized_paragraph paragraph target_words max_words in
  pieces <> []
  /\ Forall (fun piece => piece <> []) pieces
  /\ (exists chunks : list (list str),
        concat chunks = sentences_of paragraph
        /\ Forall (fun chunk => chunk <> []) chunks
        /\ (sentences_of paragraph <> [] ->
            pieces = map (fun chunk => strip (join [SP] chunk)) chunks))
  /\ (sentences_of paragraph = [] -> pieces = [paragraph])
  /\ total_words pieces = count_words paragraph.
Proof.
  intros pieces. unfold pieces, split_oversized_paragraph.
  destruct (split_chunks_spec target_words max_words (sentences_of paragraph)) as [Hcat Hall].
  set (chunks := split_chunks target_words max_words (sentences_of paragraph)) in *.
  assert (Hfilter : filter (fun chunk => negb (is_empty chunk)) chunks = chunks).
  { apply filter_all. eapply Forall_impl; [|exact Hall].
    intros ch Hch. apply negb_true_iff, is_empty_false. exact Hch. }
  destruct (is_empty (sentences_of paragraph)) eqn:He.
  - apply is_empty_true in He.
    split; [discriminate|]. split; [repeat constructor; exact Hne|].
    split; [exists chunks; repeat split; try assumption; intros H; contradiction|].
    split; [reflexivity|].
    unfold total_words. simpl. rewrite <- (sentences_of_words paragraph), He.
    unfold total_words. simpl. lia.
  - apply is_empty_false in He. rewrite Hfilter.
    assert (Hsolid : Forall (fun chunk => Forall starts_solid chunk) chunks).
    { apply Forall_forall. intros ch Hch. apply Forall_forall. intros s Hs.
      pose proof (sentences_of_solid paragraph) as Hso.
      rewrite <- Hcat in Hso. rewrite Forall_forall in Hso. apply Hso.
      apply in_concat. exists ch. split; assumption. }
    split; [|split; [|split; [|split]]].
    + destruct chunks as [|ch chunks']; [|discriminate].
      simpl in Hcat. congruence.
    + apply Forall_forall. intros piece Hp.
      apply in_map_iff in Hp as (ch & <- & Hch).
      apply strip_of_solid, join_solid.
      * rewrite Forall_forall in Hall. apply Hall. exact Hch.
      * rewrite Forall_forall in Hsolid. apply Hsolid. exact Hch.
    + exists chunks. repeat split; try assumption.
    + intros E. contradiction.
    + rewrite <- (sentences_of_words paragraph), <- Hcat, total_words_concat.
      unfold total_words at 1. rewrite map_map. f_equal.
      apply map_ext. intros ch. rewrite count_words_strip. apply count_words_join_sp.
Qed.

(** ** Chunking at the target (claim C6) *)

Lemma lstrip_length (p : char -> bool) (s : str) : length (lstrip p s) <= length s.
Proof.
  induction s as [|c s IH]; simpl; [lia|]. destruct (p c); simpl; lia.
Qed.

Lemma rstrip_length (p : char -> bool) (s : str) : length (rstrip p s) <= length s.
Proof.
  induction s as [|c s IH]; simpl; [lia|].
  destruct (rstrip p s); [destruct (p c)|]; simpl in *; lia.
Qed.

(** A paragraph as [to_paragraphs] makes them: not empty, and with no space
    at either end. *)
Definition trimmed (s : str) : Prop := s <> [] /\ strip s = s.

Lemma trimmed_ends (s : str) :
  trimmed s -> starts_solid s /\ rstrip isspace s = s.
Proof.
  intros [Hne Hs]. destruct s as [|c r]; [contradiction|].
  unfold strip, strip_chars in Hs. cbn [lstrip] in Hs. cbn [starts_solid].
  destruct (isspace c) eqn:Hc.
  - exfalso.
    pose proof (rstrip_length isspace (lstrip isspace r)) as H1.
    pose proof (lstrip_length isspace r) as H2.
    rewrite Hs in H1. simpl in H1. lia.
  - split; [reflexivity|exact Hs].
Qed.

Lemma rstrip_app_fixed (p : char -> bool) (x b : str) :
  b <> [] -> rstrip p b = b -> rstrip p (x ++ b) = x ++ b.
Proof.
  intros Hne Hb. induction x as [|c x IH]; [exact Hb|].
  cbn [app rstrip]. rewrite IH.
  destruct (x ++ b) eqn:E; [|reflexivity].
  apply app_eq_nil in E as [_ E]. contradiction.
Qed.

Lemma strip_fixed (s : str) : starts_solid s -> rstrip isspace s = s -> strip s = s.
Proof.
  destruct s as [|c r]; [contradiction|]. cbn [starts_solid]. intros Hc Hr.
  unfold strip, strip_chars. cbn [lstrip]. rewrite Hc. exact Hr.
Qed.

Lemma join_trimmed (sep : str) (l : list str) :
  l <> [] -> Forall trimmed l -> trimmed (join sep l).
Proof.
  induction l as [|x l IH]; [contradiction|]. intros _ Hall.
  inversion Hall as [|? ? Hx Hl]; subst. cbn [join].
  destruct l as [|y l]; [exact Hx|].
  assert (Hrest : trimmed (join sep (y :: l))) by (apply IH; [discriminate|exact Hl]).
  destruct (trimmed_ends Hx) as [Hxs _]. destruct (trimmed_ends Hrest) as [_ Hre].
  destruct Hrest as [Hrne _].
  split.
  - destruct x; [contradiction|discriminate].
  - apply strip_fixed.
    + destruct x; [contradiction|exact Hxs].
    + rewrite app_assoc. apply rstrip_app_fixed; assumption.
Qed.

Lemma join_app (sep : str) (l1 l2 : list str) :
  l1 <> [] -> l2 <> [] -> join sep (l1 ++ l2) = join sep l1 ++ sep ++ join sep l2.
Proof.
  intros H1 H2. induction l1 as [|x l1 IH]; [contradiction|].
  destruct l1 as [|y l1].
  - simpl. destruct l2; [contradiction|reflexivity].
  - change ((x :: y :: l1) ++ l2) with (x :: (y :: l1) ++ l2).
    cbn [join]. cbn [app]. cbn [app] in IH. rewrite IH by discriminate.
    rewrite <- !app_assoc. reflexivity.
Qed.

Lemma count_words_nonempty (s : str) : 0 < count_words s -> s <> [].
Proof. intros H E. subst. rewrite count_words_nil in H. lia. Qed.

Section ChunkTarget.

Context {U : UnicodeDB} {F : Type} {FL : PyFloat F}.

Variable section_title : str.
Variables target_words max_words min_words : Z.

Hypothesis target_pos : (1 <= target_words)%Z.
Hypothesis target_le_max : (target_words <= max_words)%Z.
Hypothesis min_pos : (1 <= min_words)%Z.

Local Notation step := (chunk_step section_title target_words max_words).

(** A paragraph that leaves the accumulator below the target is added to it. *)
Lemma chunk_step_below (its : list item) (cur : list str) (cw : nat) (p : str) :
  is_structural_heading_paragraph p = false ->
  (Z.of_nat (cw + count_words p) < target_words)%Z ->
  step {| items := its; current := cur; current_words := cw |} p
  = {| items := its; current := cur ++ [p]; current_words := cw + count_words p |}.
Proof.
  intros Hstub Hlt. unfold chunk_step. rewrite Hstub.
  cbn [items current current_words].
  replace (Z.ltb max_words (Z.of_nat (count_words p))) with false
    by (symmetry; apply Z.ltb_ge; lia).
  replace (Z.ltb max_words (Z.of_nat (cw + count_words p))) with false
    by (symmetry; apply Z.ltb_ge; lia).
  rewrite andb_false_r. cbn [items current current_words].
  replace (Z.leb target_words (Z.of_nat (cw + count_words p))) with false
    by (symmetry; apply Z.leb_gt; lia).
  reflexivity.
Qed.

(** The paragraph that brings the accumulator to the target flushes it. *)
Lemma chunk_step_reach (its : list item) (cur : list str) (p : str) :
  is_structural_heading_paragraph p = false ->
  Z.of_nat (total_words (cur ++ [p])) = target_words ->
  step {| items := its; current := cur; current_words := total_words cur |} p
  = {| items := its ++ [(section_title, strip (join [NL; NL] (cur ++ [p])))];
       current := [];
       current_words := 0 |}.
Proof.
  intros Hstub Htot. unfold chunk_step. rewrite Hstub.
  cbn [items current current_words].
  rewrite total_words_snoc in Htot.
  replace (Z.ltb max_words (Z.of_nat (count_words p))) with false
    by (symmetry; apply Z.ltb_ge; lia).
  replace (Z.ltb max_words (Z.of_nat (total_words cur + count_words p))) with false
    by (symmetry; apply Z.ltb_ge; lia).
  rewrite andb_false_r. cbn [items current current_words].
  replace (Z.leb target_words (Z.of_nat (total_words cur + count_words p))) with true
    by (symmetry; apply Z.leb_le; lia).
  unfold emit_current. cbn [items current current_words].
  destruct (is_empty (cur ++ [p])) eqn:E.
  { apply is_empty_true, app_eq_nil in E as [_ E]. discriminate. }
  destruct (is_empty (strip (join [NL; NL] (cur ++ [p])))) eqn:E2; [|reflexivity].
  exfalso. apply is_empty_true in E2.
  assert (H0 : count_words (strip (join [NL; NL] (cur ++ [p]))) = 0) by (rewrite E2; reflexivity).
  rewrite count_words_strip, count_words_join_nl, total_words_snoc in H0. lia.
Qed.

(** After the flush, a paragraph without a word waits in the accumulator. *)
Lemma chunk_fold_wordless (rest : list str) :
  forall (its : list item) (cur : list str),
    Forall (fun p => is_structural_heading_paragraph p = false) rest ->
    total_words rest = 0 ->
    fold_left step rest {| items := its; current := cur; current_words := 0 |}
    = {| items := its; current := cur ++ rest; current_words := 0 |}.
Proof.
  induction rest as [|p rest IH]; intros its cur Hstub Hzero; cbn [fold_left].
  - rewrite app_nil_r. reflexivity.
  - apply Forall_cons_iff in Hstub as [Hp Hrest].
    rewrite total_words_cons in Hzero.
    rewrite chunk_step_below by (try exact Hp; lia).
    replace (0 + count_words p) with 0 by lia.
    rewrite IH by (try exact Hrest; lia).
    rewrite <- app_assoc. reflexivity.
Qed.

Lemma chunk_fold_target (paragraphs : list str) :
  forall (its : list item) (cur : list str),
    Forall (fun p => is_structural_heading_paragraph p = false) paragraphs ->
    (Z.of_nat (total_words cur) < target_words)%Z ->
    Z.of_nat (total_words cur + total_words paragraphs) = target_words ->
    exists pre post,
      paragraphs = pre ++ post
      /\ pre <> []
      /\ total_words post = 0
      /\ Z.of_nat (total_words (cur ++ pre)) = target_words
      /\ fold_left step paragraphs
           {| items := its; current := cur; current_words := total_words cur |}
         = {| items := its ++ [(section_title, strip (join [NL; NL] (cur ++ pre)))];
              current := post;
              current_words := 0 |}.
Proof.
  induction paragraphs as [|p rest IH]; intros its cur Hstub Hlt Htot.
  - unfold total_words at 2 in Htot. simpl in Htot. lia.
  - apply Forall_cons_iff in Hstub as [Hp Hrest].
    rewrite total_words_cons in Htot. cbn [fold_left].
    destruct (Z.ltb (Z.of_nat (total_words cur + count_words p)) target_words) eqn:E.
    + apply Z.ltb_lt in E.
      rewrite chunk_step_below by assumption.
      pose proof (total_words_snoc cur p) as Hcur.
      rewrite <- Hcur.
      destruct (IH its (cur ++ [p]) Hrest) as (pre & post & Hsplit & _ & Hpost & Hpre & Hfold).
      { rewrite Hcur. exact E. }
      { rewrite Hcur. rewrite <- Htot. f_equal. lia. }
      exists (p :: pre), post. rewrite <- app_assoc in Hpre, Hfold. simpl in Hpre, Hfold.
      repeat split; try assumption; try discriminate.
      simpl. f_equal. exact Hsplit.
    + apply Z.ltb_ge in E.
      pose proof (total_words_snoc cur p) as Hcur.
      assert (Hreach : Z.of_nat (total_words (cur ++ [p])) = target_words) by lia.
      rewrite chunk_step_reach by assumption.
      rewrite chunk_fold_wordless by (try exact Hrest; lia).
      exists [p], rest. repeat split; try assumption; try discriminate. lia.
Qed.

(** C6, as the code has it. A section in which no paragraph is a structural
    heading stub, and whose paragraphs have together exactly [target_words]
    words (for [1 <= target_words <= max_words] and [1 <= min_words]), gives
    exactly one unit, under the name of the section, with all the words of
    the section; its text is the paragraphs joined by blank lines when the
    paragraphs are trimmed. *)
Theorem chunk_section_at_target (paragraphs : list str)
    (Hstub : Forall (fun p => is_structural_heading_paragraph p = false) paragraphs)
    (Htotal : Z.of_nat (total_words paragraphs) = target_words) :
  exists unit_text,
    chunk_section section_title paragraphs target_words max_words min_words
    = [(section_title, unit_text)]
    /\ Z.of_nat (count_words unit_text) = target_words
    /\ (Forall trimmed paragraphs -> unit_text = join [NL; NL] paragraphs).
Proof.
  destruct (@chunk_fold_target paragraphs [] [] Hstub) as
    (pre & post & Hsplit & Hpre & Hpost & Hwords & Hfold).
  { unfold total_words. simpl. lia. }
  { exact Htotal. }
  unfold chunk_section, chunk_items.
  change (total_words []) with 0 in Hfold. rewrite Hfold.
  cbn [app] in *.
  set (t1 := strip (join [NL; NL] pre)) in *.
  assert (Ht1 : count_words t1 = total_words pre).
  { unfold t1. rewrite count_words_strip. apply count_words_join_nl. }
  assert (Hpre_t : Forall trimmed paragraphs -> t1 = join [NL; NL] pre).
  { intros Hall. subst paragraphs. apply Forall_app in Hall as [Hall _].
    apply (join_trimmed [NL; NL] Hpre Hall). }
  unfold emit_current. cbn [items current current_words].
  destruct (is_empty post) eqn:Epost.
  - apply is_empty_true in Epost. subst post. rewrite app_nil_r in Hsplit. subst pre.
    exists t1. cbn [items merge_items]. repeat split; [lia|exact Hpre_t].
  - destruct (is_empty (strip (join [NL; NL] post))) eqn:Et2.
    + exists t1. cbn [items merge_items]. split; [reflexivity|]. split; [lia|].
      intros Hall. exfalso.
      apply is_empty_false in Epost. apply is_empty_true in Et2.
      subst paragraphs. apply Forall_app in Hall as [_ Hall].
      destruct (join_trimmed [NL; NL] Epost Hall) as [Hne Hfix]. congruence.
    + set (t2 := strip (join [NL; NL] post)) in *.
      assert (Ht2 : count_words t2 = 0).
      { unfold t2. rewrite count_words_strip, count_words_join_nl. exact Hpost. }
      exists (strip (t1 ++ [NL; NL] ++ t2)).
      cbn [items merge_items app fold_left merge_step].
      replace (Z.ltb (Z.of_nat (count_words t2)) min_words) with true
        by (symmetry; apply Z.ltb_lt; lia).
      replace (Z.leb (Z.of_nat (count_words t1 + count_words t2)) max_words) with true
        by (symmetry; apply Z.leb_le; lia).
      cbn [andb app]. split; [reflexivity|]. split.
      * rewrite count_words_strip.
        change (t1 ++ NL :: NL :: t2) with (t1 ++ NL :: (NL :: t2)).
        rewrite count_words_app_sep by reflexivity.
        rewrite count_words_sep_cons by reflexivity. lia.
      * intros Hall. apply is_empty_false in Epost.
        pose proof Hall as Hall'.
        rewrite Hsplit in Hall'. apply Forall_app in Hall' as [Hallpre Hallpost].
        assert (Hj2 : t2 = join [NL; NL] post)
          by (apply (join_trimmed [NL; NL] Epost Hallpost)).
        rewrite (Hpre_t Hall), Hj2.
        change (join [NL; NL] pre ++ NL :: NL :: join [NL; NL] post)
          with (join [NL; NL] pre ++ [NL; NL] ++ join [NL; NL] post).
        rewrite <- join_app by assumption. rewrite <- Hsplit.
        apply join_trimmed; [|exact Hall].
        intros E. rewrite E in Hsplit. symmetry in Hsplit.
        apply app_eq_nil in Hsplit as [Hsplit _]. contradiction.
Qed.

End ChunkTarget.

(** ** Normalising twice (claim C7) *)

Lemma Forall_firstn {A : Type} (P : A -> Prop) (n : nat) (l : list A) :
  Forall P l -> Forall P (firstn n l).
Proof.
  intros H. rewrite <- (firstn_skipn n l) in H. apply Forall_app in H. apply H.
Qed.

Lemma Forall_skipn {A : Type} (P : A -> Prop) (n : nat) (l : list A) :
  Forall P l -> Forall P (skipn n l).
Proof.
  intros H. rewrite <- (firstn_skipn n l) in H. apply Forall_app in H. apply H.
Qed.

Lemma Forall_lstrip (P : char -> Prop) (p : char -> bool) (s : str) :
  Forall P s -> Forall P (lstrip p s).
Proof.
  induction 1 as [|c s Hc Hs IH]; simpl; [constructor|].
  destruct (p c); [exact IH|constructor; assumption].
Qed.

Lemma Forall_rstrip (P : char -> Prop) (p : char -> bool) (s : str) :
  Forall P s -> Forall P (rstrip p s).
Proof.
  induction 1 as [|c s Hc Hs IH]; simpl; [constructor|].
  destruct (rstrip p s) as [|x r].
  - destruct (p c); repeat constructor. exact Hc.
  - constructor; assumption.
Qed.

Lemma Forall_strip (P : char -> Prop) (s : str) : Forall P s -> Forall P (strip s).
Proof. intros H. apply Forall_rstrip, Forall_lstrip, H. Qed.

Lemma Forall_replace_go (P : char -> Prop) (old new : str) (s : str) :
  Forall P new -> Forall P s -> forall skip, Forall P (replace_go old new skip s).
Proof.
  intros Hnew. induction 1 as [|c s Hc Hs IH]; intros skip; simpl; [constructor|].
  destruct skip; [|apply IH].
  destruct (starts_with old (c :: s)).
  - apply Forall_app. split; [exact Hnew|apply IH].
  - constructor; [exact Hc|apply IH].
Qed.

Lemma Forall_re_sub_runs (P : char -> Prop) (p : char -> bool) (rep s : str) :
  Forall P rep -> Forall P s -> Forall P (re_sub_runs p rep s).
Proof.
  intros Hrep. induction 1 as [|c s Hc Hs IH]; [constructor|].
  cbn [re_sub_runs]. destruct (p c).
  - destruct s as [|c' s']; [exact Hrep|].
    destruct (p c'); [exact IH|].
    apply Forall_app. split; [exact Hrep|exact IH].
  - constructor; assumption.
Qed.

Lemma Forall_repeat {A : Type} (P : A -> Prop) (a : A) (n : nat) :
  P a -> Forall P (repeat a n).
Proof. intros H. induction n; simpl; constructor; assumption. Qed.

Lemma Forall_re_sub_newlines_go (P : char -> Prop) (s : str) :
  P NL -> Forall P s -> forall k, Forall P (re_sub_newlines_go k s).
Proof.
  intros Hnl. induction 1 as [|c s Hc Hs IH]; intros k; simpl.
  - apply Forall_repeat, Hnl.
  - destruct (N.eqb c NL); [apply IH|].
    apply Forall_app. split; [apply Forall_repeat, Hnl|].
    constructor; [exact Hc|apply IH].
Qed.

(** The text that replaces every [c] holds no [c]. *)
Lemma replace_char_absent (c : char) (new s : str) :
  Forall (fun x => x <> c) new -> Forall (fun x => x <> c) (replace [c] new s).
Proof.
  intros Hnew. unfold replace. induction s as [|x s IH]; simpl; [constructor|].
  destruct (N.eqb c x) eqn:E; simpl.
  - apply Forall_app. split; [exact Hnew|exact IH].
  - constructor; [|exact IH]. apply N.eqb_neq in E. congruence.
Qed.

(** A pattern whose first character is not in the text is replaced nowhere. *)
Lemma replace_absent (c : char) (old new s : str) :
  Forall (fun x => x <> c) s -> replace (c :: old) new s = s.
Proof.
  unfold replace. induction 1 as [|x s Hx Hs IH]; simpl; [reflexivity|].
  replace (N.eqb c x) with false by (symmetry; apply N.eqb_neq; congruence).
  simpl. rewrite IH. reflexivity.
Qed.

Lemma rstrip_idempotent (p : char -> bool) (s : str) :
  rstrip p (rstrip p s) = rstrip p s.
Proof.
  induction s as [|c s IH]; [reflexivity|].
  cbn [rstrip]. destruct (rstrip p s) as [|x xs] eqn:E.
  - destruct (p c) eqn:Hc; [reflexivity|]. simpl. rewrite Hc. reflexivity.
  - cbn [rstrip]. cbn [rstrip] in IH. rewrite IH. reflexivity.
Qed.

Lemma strip_idempotent (s : str) : strip (strip s) = strip s.
Proof.
  destruct (strip s) as [|c r] eqn:E; [reflexivity|]. rewrite <- E.
  apply strip_fixed.
  - apply strip_solid. rewrite E. discriminate.
  - unfold strip, strip_chars. apply rstrip_idempotent.
Qed.

(** No tab, and no space after a space: the texts that
    [re.sub(r"[ \t]+", " ", text)] leaves as they are. *)
Definition head_not_sp (s : str) : Prop :=
  match s with
  | [] => True
  | c :: _ => c <> SP
  end.

Fixpoint sp_ok (s : str) : Prop :=
  match s with
  | [] => True
  | c :: s' => c <> TAB /\ (c = SP -> head_not_sp s') /\ sp_ok s'
  end.

Definition blank : char -> bool := in_chars [SP; TAB].

Lemma blank_spec (c : char) : blank c = true <-> c = SP \/ c = TAB.
Proof.
  unfold blank, in_chars. simpl. rewrite !orb_true_iff, !N.eqb_eq.
  intuition congruence.
Qed.

Lemma blank_false (c : char) : blank c = false <-> c <> SP /\ c <> TAB.
Proof.
  rewrite <- not_true_iff_false, blank_spec. intuition.
Qed.

Lemma re_sub_runs_sp_ok (s : str) : sp_ok (re_sub_runs blank [SP] s).
Proof.
  induction s as [|c s IH]; [exact I|].
  cbn [re_sub_runs]. destruct (blank c) eqn:Hc.
  - destruct s as [|c' s']; [repeat split; discriminate|].
    destruct (blank c') eqn:Hc'; [exact IH|].
    cbn [re_sub_runs] in IH. rewrite Hc' in IH.
    cbn [app sp_ok re_sub_runs]. rewrite Hc'.
    apply blank_false in Hc'.
    split; [discriminate|]. split; [intros _; apply Hc'|exact IH].
  - apply blank_false in Hc. split; [apply Hc|]. split; [|exact IH].
    intros E. destruct Hc as [Hc _]. contradiction.
Qed.

Lemma sp_ok_fixed (s : str) : sp_ok s -> re_sub_runs blank [SP] s = s.
Proof.
  induction s as [|c s IH]; [reflexivity|].
  intros (Htab & Hsp & Hok). cbn [re_sub_runs].
  destruct (blank c) eqn:Hc.
  - apply blank_spec in Hc as [Hc|Hc]; [|contradiction]. subst c.
    destruct s as [|c' s']; [reflexivity|].
    specialize (Hsp eq_refl). simpl in Hsp. pose proof (proj1 Hok) as Htab'.
    replace (blank c') with false by (symmetry; apply blank_false; split; assumption).
    rewrite IH by exact Hok. reflexivity.
  - rewrite IH by exact Hok. reflexivity.
Qed.

Lemma sp_ok_tail (c : char) (s : str) : sp_ok (c :: s) -> sp_ok s.
Proof. intros (_ & _ & H). exact H. Qed.

Lemma sp_ok_lstrip (p : char -> bool) (s : str) : sp_ok s -> sp_ok (lstrip p s).
Proof.
  induction s as [|c s IH]; [exact id|].
  intros H. cbn [lstrip]. destruct (p c); [apply IH, (sp_ok_tail H)|exact H].
Qed.

Lemma rstrip_head (p : char -> bool) (s : str) (x : char) (r : str) :
  rstrip p s = x :: r -> exists s', s = x :: s'.
Proof.
  destruct s as [|c s]; [discriminate|]. cbn [rstrip].
  destruct (rstrip p s); [destruct (p c)|]; intros E; try discriminate;
    injection E as <- _; eexists; reflexivity.
Qed.

Lemma sp_ok_rstrip (p : char -> bool) (s : str) : sp_ok s -> sp_ok (rstrip p s).
Proof.
  induction s as [|c s IH]; [exact id|].
  intros (Htab & Hsp & Hok). cbn [rstrip].
  destruct (rstrip p s) as [|x r] eqn:E.
  - destruct (p c); [exact I|]. repeat split. exact Htab.
  - split; [exact Htab|]. split; [|apply IH, Hok].
    intros Hc. specialize (Hsp Hc).
    destruct (@rstrip_head p s x r E) as (s' & ->). exact Hsp.
Qed.

Lemma sp_ok_newlines (m : nat) (s : str) : sp_ok s -> sp_ok (repeat NL m ++ s).
Proof.
  intros H. induction m as [|m IH]; [exact H|].
  cbn [repeat app]. split; [discriminate|]. split; [discriminate|exact IH].
Qed.

Lemma sp_ok_re_sub_newlines_go (s : str) :
  forall k, sp_ok s ->
    sp_ok (re_sub_newlines_go k s)
    /\ (head_not_sp s \/ 1 <= k -> head_not_sp (re_sub_newlines_go k s)).
Proof.
  induction s as [|c s IH]; intros k Hok.
  - cbn [re_sub_newlines_go]. split.
    + rewrite <- (app_nil_r (repeat NL _)). apply sp_ok_newlines. exact I.
    + intros _. destruct (Nat.min k 2); simpl; [exact I|discriminate].
  - destruct Hok as (Htab & Hsp & Hok). cbn [re_sub_newlines_go].
    destruct (N.eqb c NL) eqn:Hc.
    + destruct (IH (S k) Hok) as [H1 H2]. split; [exact H1|].
      intros _. apply H2. right. lia.
    + destruct (IH 0 Hok) as [H1 H2]. split.
      * apply sp_ok_newlines. split; [exact Htab|]. split; [|exact H1].
        intros E. apply H2. left. apply Hsp. exact E.
      * intros Hhead. destruct (Nat.min k 2) eqn:Em; simpl; [|discriminate].
        destruct Hhead as [Hhead|Hk]; [exact Hhead|lia].
Qed.

(** No three newlines in a row, [k] of them standing before the text: the
    texts that [re.sub(r"\n{3,}", "\n\n", text)] leaves as they are. *)
Fixpoint nl_bounded (k : nat) (s : str) : Prop :=
  match s with
  | [] => k <= 2
  | c :: s' => if N.eqb c NL then nl_bounded (S k) s' else k <= 2 /\ nl_bounded 0 s'
  end.

Lemma nl_bounded_le (s : str) : forall k, nl_bounded k s -> k <= 2.
Proof.
  induction s as [|c s IH]; intros k; simpl; [exact id|].
  destruct (N.eqb c NL).
  - intros H. apply IH in H. lia.
  - intros [H _]. exact H.
Qed.

Lemma nl_bounded_mono (s : str) : forall j k, j <= k -> nl_bounded k s -> nl_bounded j s.
Proof.
  induction s as [|c s IH]; intros j k Hjk; simpl; [lia|].
  destruct (N.eqb c NL).
  - apply IH. lia.
  - intros [H1 H2]. split; [lia|exact H2].
Qed.

Lemma repeat_snoc {A : Type} (a : A) (k : nat) (l : list A) :
  repeat a (S k) ++ l = repeat a k ++ a :: l.
Proof.
  induction k as [|k IH]; [reflexivity|].
  change (repeat a (S (S k)) ++ l) with (a :: (repeat a (S k) ++ l)).
  rewrite IH. reflexivity.
Qed.

Lemma nl_bounded_fixed (s : str) :
  forall k, nl_bounded k s -> re_sub_newlines_go k s = repeat NL k ++ s.
Proof.
  induction s as [|c s IH]; intros k H; cbn [re_sub_newlines_go].
  - simpl in H. rewrite Nat.min_l by exact H. rewrite app_nil_r. reflexivity.
  - simpl in H. destruct (N.eqb c NL) eqn:Hc.
    + apply N.eqb_eq in Hc. subst c. rewrite IH by exact H. apply repeat_snoc.
    + destruct H as [Hk H0]. rewrite Nat.min_l by exact Hk.
      rewrite IH by exact H0. reflexivity.
Qed.

Lemma nl_bounded_repeat (m : nat) (s : str) :
  forall j, nl_bounded (j + m) s -> nl_bounded j (repeat NL m ++ s).
Proof.
  induction m as [|m IH]; intros j H.
  - rewrite Nat.add_0_r in H. exact H.
  - cbn [repeat app nl_bounded]. rewrite N.eqb_refl. apply IH.
    replace (S j + m) with (j + S m) by lia. exact H.
Qed.

Lemma re_sub_newlines_go_bounded (s : str) : forall k, nl_bounded 0 (re_sub_newlines_go k s).
Proof.
  induction s as [|c s IH]; intros k; cbn [re_sub_newlines_go].
  - rewrite <- (app_nil_r (repeat NL _)). apply nl_bounded_repeat. simpl. lia.
  - destruct (N.eqb c NL) eqn:Hc; [apply IH|].
    apply nl_bounded_repeat. cbn [nl_bounded]. rewrite Hc.
    split; [simpl; lia|apply IH].
Qed.

Lemma nl_bounded_lstrip (p : char -> bool) (s : str) :
  nl_bounded 0 s -> nl_bounded 0 (lstrip p s).
Proof.
  induction s as [|c s IH]; [exact id|].
  intros H. cbn [lstrip]. destruct (p c); [|exact H].
  apply IH. simpl in H. destruct (N.eqb c NL).
  - apply (nl_bounded_mono s (j := 0) (k := 1)); [lia|exact H].
  - apply H.
Qed.

Lemma nl_bounded_rstrip (p : char -> bool) (s : str) :
  forall k, nl_bounded k s -> nl_bounded k (rstrip p s).
Proof.
  induction s as [|c s IH]; intros k H; [exact H|].
  cbn [rstrip]. cbn [nl_bounded] in H.
  destruct (rstrip p s) as [|x r] eqn:E.
  - destruct (p c).
    + simpl. destruct (N.eqb c NL).
      * apply nl_bounded_le in H. lia.
      * apply H.
    + cbn [nl_bounded]. destruct (N.eqb c NL).
      * apply nl_bounded_le in H. simpl. exact H.
      * split; [apply H|simpl; lia].
  - cbn [nl_bounded]. fold (nl_bounded (S k) (x :: r)). fold (nl_bounded 0 (x :: r)).
    destruct (N.eqb c NL).
    + apply IH. exact H.
    + split; [apply H|apply IH, H].
Qed.

(** What [normalize_text] returns: no carriage return, no byte-order mark,
    no space at either end, and neither runs of blanks nor runs of newlines
    left to reduce. *)
Lemma normalize_text_normal (raw : str) :
  let t := normalize_text raw in
  Forall (fun x => x <> CR) t
  /\ Forall (fun x => x <> BOM) t
  /\ strip t = t
  /\ sp_ok t
  /\ nl_bounded 0 t.
Proof.
  intros t. unfold t, normalize_text.
  set (t1 := replace [CR] [NL] (replace [CR; NL] [NL] raw)).
  set (t2 := replace [BOM] [] t1).
  assert (H1 : Forall (fun x => x <> CR) t1).
  { apply replace_char_absent. repeat constructor. discriminate. }
  assert (H2 : Forall (fun x => x <> CR) t2).
  { apply Forall_replace_go; [constructor|exact H1]. }
  assert (H2' : Forall (fun x => x <> BOM) t2).
  { apply replace_char_absent. constructor. }
  assert (Hg : forall P : char -> Prop,
             Forall P t2 -> Forall P (strip_gutenberg_boilerplate t2)).
  { intros P HP. unfold strip_gutenberg_boilerplate.
    apply Forall_strip.
    destruct (GUTENBERG_START_RE t2) as [[b e]|];
      destruct (GUTENBERG_END_RE t2) as [[b' e']|];
      repeat first [apply Forall_firstn | apply Forall_skipn]; exact HP. }
  set (t3 := strip_gutenberg_boilerplate t2) in *.
  repeat split.
  - apply Forall_strip, Forall_re_sub_newlines_go; [discriminate|].
    apply Forall_re_sub_runs; [repeat constructor; discriminate|].
    apply Hg, H2.
  - apply Forall_strip, Forall_re_sub_newlines_go; [discriminate|].
    apply Forall_re_sub_runs; [repeat constructor; discriminate|].
    apply Hg, H2'.
  - apply strip_idempotent.
  - apply sp_ok_rstrip, sp_ok_lstrip.
    apply sp_ok_re_sub_newlines_go. apply re_sub_runs_sp_ok.
  - apply nl_bounded_rstrip, nl_bounded_lstrip. apply re_sub_newlines_go_bounded.
Qed.

(** C7, as the code has it. Normalising a text that is already normalised
    changes nothing, provided the normalised text holds no Gutenberg START
    or END marker. *)
Theorem normalize_text_idempotent_without_marker (raw : str)
    (Hstart : GUTENBERG_START_RE (normalize_text raw) = None)
    (Hend : GUTENBERG_END_RE (normalize_text raw) = None) :
  normalize_text (normalize_text raw) = normalize_text raw.
Proof.
  destruct (normalize_text_normal raw) as (Hcr & Hbom & Hstrip & Hsp & Hnl).
  set (t := normalize_text raw) in *.
  unfold normalize_text at 1.
  rewrite (replace_absent [NL] [NL] Hcr).
  rewrite (replace_absent [] [NL] Hcr).
  rewrite (replace_absent [] [] Hbom).
  unfold strip_gutenberg_boilerplate. rewrite Hstart, Hend, Hstrip.
  fold blank. rewrite (sp_ok_fixed t Hsp).
  unfold re_sub_newlines. rewrite (nl_bounded_fixed t 0 Hnl).
  exact Hstrip.
Qed.

(** ** Shuffling before tiering (claim C3) *)

Lemma Permutation_filter {A : Type} (p : A -> bool) (l l' : list A) :
  Permutation l l' -> Permutation (filter p l) (filter p l').
Proof.
  induction 1 as [|x l l' _ IH|x y l|l l' l'' _ IH1 _ IH2]; simpl.
  - constructor.
  - destruct (p x); [constructor|]; exact IH.
  - destruct (p x), (p y); try reflexivity. apply perm_swap.
  - transitivity (filter p l'); assumption.
Qed.

Lemma Permutation_flat_map {A B : Type} (f : A -> list B) (l l' : list A) :
  Permutation l l' -> Permutation (flat_map f l) (flat_map f l').
Proof.
  induction 1 as [|x l l' _ IH|x y l|l l' l'' _ IH1 _ IH2]; simpl.
  - constructor.
  - apply Permutation_app_head. exact IH.
  - rewrite !app_assoc. apply Permutation_app_tail, Permutation_app_comm.
  - transitivity (flat_map f l'); assumption.
Qed.

Lemma flat_map_nth_error {A : Type} (l before : list A) :
  flat_map (fun i => match nth_error (before ++ l) i with Some a => [a] | None => [] end)
    (seq (length before) (length l))
  = l.
Proof.
  revert before. induction l as [|a l IH]; intros before; simpl; [reflexivity|].
  rewrite nth_error_app2 by lia. rewrite Nat.sub_diag. simpl. f_equal.
  specialize (IH (before ++ [a])).
  rewrite length_app, <- app_assoc in IH. simpl in IH.
  rewrite Nat.add_1_r in IH. exact IH.
Qed.

Lemma ForallOrdPairs_filter {A : Type} (R : A -> A -> Prop) (p : A -> bool) (l : list A) :
  ForallOrdPairs R l -> ForallOrdPairs R (filter p l).
Proof.
  induction 1 as [|a l Ha _ IH]; simpl; [constructor|].
  destruct (p a); [|exact IH].
  constructor; [|exact IH].
  apply Forall_forall. intros x Hx. apply filter_In in Hx as [Hx _].
  rewrite Forall_forall in Ha. apply Ha. exact Hx.
Qed.

Lemma ForallOrdPairs_map {A B : Type} (R : B -> B -> Prop) (f : A -> B) (l : list A) :
  ForallOrdPairs (fun a a' => R (f a) (f a')) l -> ForallOrdPairs R (map f l).
Proof.
  induction 1 as [|a l Ha _ IH]; simpl; constructor; [|exact IH].
  apply Forall_forall. intros y Hy. apply in_map_iff in Hy as (x & <- & Hx).
  rewrite Forall_forall in Ha. apply Ha. exact Hx.
Qed.

Lemma ForallOrdPairs_impl {A : Type} (R R' : A -> A -> Prop) (l : list A) :
  (forall a b, In a l -> In b l -> R a b -> R' a b) ->
  ForallOrdPairs R l -> ForallOrdPairs R' l.
Proof.
  intros Himp H. induction H as [|a l Ha _ IH]; constructor.
  - apply Forall_forall. intros x Hx. rewrite Forall_forall in Ha.
    apply Himp; [left; reflexivity|right; exact Hx|apply Ha; exact Hx].
  - apply IH. intros x y Hx Hy. apply Himp; right; assumption.
Qed.

(** A symmetric relation that holds between the elements of a list holds
    between them in any order. *)
Lemma ForallOrdPairs_perm {A : Type} (R : A -> A -> Prop) (l l' : list A) :
  (forall a b, R a b -> R b a) ->
  Permutation l l' -> ForallOrdPairs R l -> ForallOrdPairs R l'.
Proof.
  intros Hsym. induction 1 as [|x l l' Hp IH|x y l|l l' l'' _ IH1 _ IH2]; intros H.
  - exact H.
  - inversion H as [|? ? Hx Hl]; subst. constructor.
    + apply (Permutation_Forall Hp). exact Hx.
    + apply IH. exact Hl.
  - inversion H as [|? ? Hy Hxl]; subst.
    inversion Hxl as [|? ? Hx Hl]; subst.
    inversion Hy as [|? ? Hyx Hyl]; subst.
    constructor; [constructor; [apply Hsym; exact Hyx|exact Hx]|].
    constructor; assumption.
  - apply IH2, IH1, H.
Qed.

Lemma dict_get_in {A : Type} (k : str) (d : list (str * list A)) :
  dict_get k d <> [] -> In (k, dict_get k d) d.
Proof.
  induction d as [|[k0 rows] d IH]; simpl; [intros H; contradiction|].
  destruct (str_eqb k0 k) eqn:E.
  - apply str_eqb_eq in E. subst k0. intros _. left. reflexivity.
  - intros H. right. apply IH. exact H.
Qed.

(** Two tiers hold the same units. *)
Definition same_units {A : Type} (l l' : list A) : Prop := forall a, In a l <-> In a l'.

Definition tiers_agree {A : Type} (t t' : Tiers A) : Prop :=
  same_units (easy t) (easy t')
  /\ same_units (medium t) (medium t')
  /\ same_units (hard t) (hard t').

Section Shuffle.

Context {U : UnicodeDB} {F : Type} {FL : PyFloat F} {R : PyRandom}.

Hypothesis flt_asym : forall x y : F, flt x y = true -> flt y x = false.
Hypothesis flt_cotrans :
  forall x y z : F, flt x z = true -> flt x y = true \/ flt y z = true.

(** [statistics.mean] and [statistics.stdev] sum exactly: the order of the
    values does not count. *)
Hypothesis mean_perm :
  forall l l' : list F, Permutation l l' -> stat_mean l = stat_mean l'.
Hypothesis stdev_perm :
  forall l l' : list F, Permutation l l' -> stat_stdev l = stat_stdev l'.

(** A shuffle moves the elements and loses none. *)
Hypothesis shuffle_indices_perm :
  forall (seed : Z) (n : nat), Permutation (shuffle_indices seed n) (seq 0 n).

(** Two rows one of which is strictly below the other. *)
Definition apart (x y : @row F) : Prop :=
  flt (fst x) (fst y) = true \/ flt (fst y) (fst x) = true.

(** No two records of one author have the same composite difficulty. *)
Definition no_ties (records : list (UnitRecord F)) : Prop :=
  ForallOrdPairs
    (fun r r' => author r = author r' ->
                 flt (spec_difficulty records r) (spec_difficulty records r') = true
                 \/ flt (spec_difficulty records r') (spec_difficulty records r) = true)
    records.

Lemma apart_sym (x y : @row F) : apart x y -> apart y x.
Proof. unfold apart. intros [H|H]; [right|left]; exact H. Qed.

Lemma spec_z_perm (values values' : list F) (v : F) :
  Permutation values values' -> spec_z values v = spec_z values' v.
Proof.
  intros Hp. unfold spec_z, spec_stdev.
  rewrite (Permutation_length Hp), (mean_perm Hp).
  destruct (Nat.ltb 1 (length values')); [rewrite (stdev_perm Hp)|]; reflexivity.
Qed.

Lemma spec_difficulty_perm (records records' : list (UnitRecord F)) (r : UnitRecord F) :
  Permutation records records' -> spec_difficulty records r = spec_difficulty records' r.
Proof.
  intros Hp. unfold spec_difficulty.
  rewrite (spec_z_perm _ (Permutation_map (@fk_grade F) Hp)).
  rewrite (spec_z_perm _ (Permutation_map (@pct_poly F) Hp)).
  rewrite (spec_z_perm _ (Permutation_map (@factual_burden F) Hp)).
  reflexivity.
Qed.

Lemma spec_ranked_perm (records records' : list (UnitRecord F)) :
  Permutation records records' -> Permutation (spec_ranked records) (spec_ranked records').
Proof.
  intros Hp. unfold spec_ranked.
  rewrite (map_ext (fun r => (spec_difficulty records r, r))
                   (fun r => (spec_difficulty records' r, r))).
  - apply Permutation_map. exact Hp.
  - intros r. rewrite (spec_difficulty_perm r Hp). reflexivity.
Qed.

(** A list sorted by difficulty, without ties, has one order only. *)
Lemma sorted_unique (l1 : list (@row F)) :
  forall l2,
    StronglySorted not_above l1 -> StronglySorted not_above l2 ->
    Permutation l1 l2 -> ForallOrdPairs apart l1 -> l1 = l2.
Proof.
  induction l1 as [|a l1 IH]; intros l2 Hs1 Hs2 Hp Hap.
  - apply Permutation_nil in Hp. congruence.
  - destruct l2 as [|b l2].
    { apply Permutation_sym, Permutation_nil in Hp. discriminate. }
    inversion Hs1 as [|? ? Hs1' Ha]; subst.
    inversion Hs2 as [|? ? Hs2' Hb]; subst.
    inversion Hap as [|? ? Hapa Hap']; subst.
    assert (Hab : a = b).
    { assert (Hin_a : In a (b :: l2)) by (apply (Permutation_in _ Hp); left; reflexivity).
      assert (Hin_b : In b (a :: l1))
        by (apply (Permutation_in _ (Permutation_sym Hp)); left; reflexivity).
      destruct Hin_a as [E|Hin_a]; [congruence|].
      destruct Hin_b as [E|Hin_b]; [exact E|].
      exfalso. rewrite Forall_forall in Ha, Hb, Hapa.
      pose proof (Ha b Hin_b) as H1. pose proof (Hb a Hin_a) as H2.
      unfold not_above in H1, H2.
      destruct (Hapa b Hin_b) as [H|H]; congruence. }
    subst b. f_equal. apply IH; try assumption.
    apply Permutation_cons_inv with a. exact Hp.
Qed.

Lemma sort_rows_perm_eq (g g' : list (@row F)) :
  Permutation g g' -> ForallOrdPairs apart g -> sort_rows g = sort_rows g'.
Proof.
  intros Hp Hap.
  apply sorted_unique.
  - apply sort_rows_sorted; assumption.
  - apply sort_rows_sorted; assumption.
  - rewrite !sort_rows_perm. exact Hp.
  - apply (ForallOrdPairs_perm apart_sym (Permutation_sym (sort_rows_perm g))).
    exact Hap.
Qed.

Lemma tier_author_perm_eq (g g' : list (@row F)) :
  Permutation g g' -> ForallOrdPairs apart g ->
  tier_author empty_tiers g = tier_author empty_tiers g'.
Proof.
  intros Hp Hap. unfold tier_author.
  rewrite (sort_rows_perm_eq Hp Hap). reflexivity.
Qed.

Local Notation key := (fun r : @row F => author (snd r)).

(** A row is in a tier exactly when the cut of the rows of its author puts
    it there. *)
Lemma in_tier_iff (f : list (@row F) -> list (@row F)) (ranked : list (@row F))
    (x : @row F) :
  (forall g y, In y (f g) -> In y g) ->
  In x (concat (map f (map snd (group_by_author ranked))))
  <-> In x (f (rows_of key (author (snd x)) ranked)).
Proof.
  intros Hsub. split; [apply in_concat_groups; exact Hsub|].
  intros Hx.
  destruct (group_rows_spec key ranked) as (_ & Hget & _).
  assert (Hne : dict_get (author (snd x)) (group_rows key ranked) <> []).
  { rewrite Hget. intros E. apply Hsub in Hx. rewrite E in Hx. contradiction. }
  apply dict_get_in in Hne. rewrite Hget in Hne.
  apply in_concat. exists (f (rows_of key (author (snd x)) ranked)).
  split; [|exact Hx].
  apply in_map. apply (in_map snd) in Hne. exact Hne.
Qed.

Lemma rows_of_apart (ranked : list (@row F)) (k : str) :
  ForallOrdPairs (fun x y => author (snd x) = author (snd y) -> apart x y) ranked ->
  ForallOrdPairs apart (rows_of key k ranked).
Proof.
  intros H. apply (ForallOrdPairs_filter (fun r => str_eqb (key r) k)) in H.
  revert H. apply ForallOrdPairs_impl.
  intros a b Ha Hb Hab. apply Hab.
  apply filter_In in Ha as [_ Ha]. apply filter_In in Hb as [_ Hb].
  apply str_eqb_eq in Ha, Hb. simpl in Ha, Hb. congruence.
Qed.

Lemma tier_rows_agree (ranked ranked' : list (@row F)) :
  Permutation ranked ranked' ->
  ForallOrdPairs (fun x y => author (snd x) = author (snd y) -> apart x y) ranked ->
  tiers_agree (tier_rows ranked) (tier_rows ranked').
Proof.
  intros Hp Hap.
  assert (He : forall g y, In y (easy (tier_author empty_tiers g)) -> In y g).
  { intros g y H. apply tier_author_sub. apply in_or_app. left. exact H. }
  assert (Hm : forall g y, In y (medium (tier_author empty_tiers g)) -> In y g).
  { intros g y H. apply tier_author_sub. apply in_or_app. right.
    apply in_or_app. left. exact H. }
  assert (Hh : forall g y, In y (hard (tier_author empty_tiers g)) -> In y g).
  { intros g y H. apply tier_author_sub. apply in_or_app. right.
    apply in_or_app. right. exact H. }
  assert (Heq : forall k,
             tier_author empty_tiers (rows_of key k ranked)
             = tier_author empty_tiers (rows_of key k ranked')).
  { intros k. apply tier_author_perm_eq.
    - apply Permutation_filter. exact Hp.
    - apply rows_of_apart. exact Hap. }
  unfold tiers_agree, same_units, tier_rows. rewrite !fold_tier_author.
  cbn [easy medium hard app].
  repeat split; intros H.
  - apply (in_tier_iff _ _ _ He). rewrite <- Heq. apply (in_tier_iff _ _ _ He). exact H.
  - apply (in_tier_iff _ _ _ He). rewrite Heq. apply (in_tier_iff _ _ _ He). exact H.
  - apply (in_tier_iff _ _ _ Hm). rewrite <- Heq. apply (in_tier_iff _ _ _ Hm). exact H.
  - apply (in_tier_iff _ _ _ Hm). rewrite Heq. apply (in_tier_iff _ _ _ Hm). exact H.
  - apply (in_tier_iff _ _ _ Hh). rewrite <- Heq. apply (in_tier_iff _ _ _ Hh). exact H.
  - apply (in_tier_iff _ _ _ Hh). rewrite Heq. apply (in_tier_iff _ _ _ Hh). exact H.
Qed.

Lemma same_units_map {A B : Type} (f : A -> B) (l l' : list A) :
  same_units l l' -> same_units (map f l) (map f l').
Proof.
  intros H b. rewrite !in_map_iff.
  split; intros (a & E & Ha); exists a; (split; [exact E|apply H; exact Ha]).
Qed.

(** The tiers of two orders of the same records. *)
Lemma assign_tiers_order (records records' : list (UnitRecord F))
    (t t' : Tiers (UnitRecord F)) :
  Permutation records records' -> no_ties records ->
  assign_tiers records = Ok t -> assign_tiers records' = Ok t' ->
  tiers_agree t t'.
Proof.
  intros Hp Hties Ht Ht'.
  destruct (Nat.ltb (length records) 3) eqn:Hlen.
  - assert (Hlen' : Nat.ltb (length records') 3 = true)
      by (rewrite <- (Permutation_length Hp); exact Hlen).
    unfold assign_tiers in Ht, Ht'. rewrite Hlen in Ht. rewrite Hlen' in Ht'.
    assert (E : t = {| easy := []; medium := []; hard := records |})
      by (destruct records; injection Ht as <-; reflexivity).
    assert (E' : t' = {| easy := []; medium := []; hard := records' |})
      by (destruct records'; injection Ht' as <-; reflexivity).
    subst t t'. unfold tiers_agree, same_units. cbn [easy medium hard].
    repeat split; try (intros H; exact H).
    + apply Permutation_in. exact Hp.
    + apply Permutation_in, Permutation_sym. exact Hp.
  - apply Nat.ltb_ge in Hlen.
    assert (Hlen' : 3 <= length records') by (rewrite <- (Permutation_length Hp); exact Hlen).
    rewrite (assign_tiers_spec records Hlen) in Ht.
    rewrite (assign_tiers_spec records' Hlen') in Ht'.
    injection Ht as <-. injection Ht' as <-.
    assert (Hagree : tiers_agree (tier_rows (spec_ranked records))
                                 (tier_rows (spec_ranked records'))).
    { apply tier_rows_agree; [apply spec_ranked_perm; exact Hp|].
      unfold spec_ranked. apply ForallOrdPairs_map. exact Hties. }
    destruct Hagree as (H1 & H2 & H3).
    unfold tiers_agree. cbn [tiers_map easy medium hard].
    split; [|split]; apply same_units_map; assumption.
Qed.

Lemma shuffle_permutation {A : Type} (seed : Z) (l : list A) :
  Permutation (shuffle seed l) l.
Proof.
  unfold shuffle.
  rewrite (Permutation_flat_map _ (shuffle_indices_perm seed (length l))).
  pose proof (flat_map_nth_error l []) as E. cbn [app length] in E.
  rewrite E. reflexivity.
Qed.

Variable load_work_text : WorkSpec.t -> result str.
Variables target_words max_words min_words min_section_words min_unit_words : Z.

Local Notation build :=
  (build_records load_work_text target_words max_words min_words
     min_section_words min_unit_words).

Lemma build_records_order (works : list WorkSpec.t) (seed1 seed2 : option Z)
    (records1 records2 : list (UnitRecord F)) :
  build works seed1 = Ok records1 -> build works seed2 = Ok records2 ->
  Permutation records1 records2.
Proof.
  unfold build_records.
  destruct (works_loop load_work_text target_words max_words min_words
              min_section_words min_unit_words works []) as [base|e];
    cbn [bind]; [|discriminate].
  intros H1 H2.
  assert (P1 : Permutation records1 base)
    by (destruct seed1; injection H1 as <-; [apply shuffle_permutation|reflexivity]).
  assert (P2 : Permutation records2 base)
    by (destruct seed2; injection H2 as <-; [apply shuffle_permutation|reflexivity]).
  rewrite P1, P2. reflexivity.
Qed.

(** C3, as the code has it. Two runs over the same corpus, whatever their
    shuffle seeds (a seed or none), put the same units in each tier provided
    no two units of one author have the same composite difficulty; the order
    within a tier may differ. *)
Theorem shuffle_keeps_tiers_without_ties (works : list WorkSpec.t) (seed1 seed2 : option Z)
    (records1 records2 : list (UnitRecord F)) (t1 t2 : Tiers (UnitRecord F))
    (Hrun1 : build works seed1 = Ok records1)
    (Hrun2 : build works seed2 = Ok records2)
    (Htiers1 : assign_tiers records1 = Ok t1)
    (Htiers2 : assign_tiers records2 = Ok t2)
    (Hties : no_ties records1) :
  tiers_agree t1 t2.
Proof.
  apply (assign_tiers_order (build_records_order works seed1 seed2 Hrun1 Hrun2)
           Hties Htiers1 Htiers2).
Qed.

End Shuffle.

(** ** The word bounds of the units (claim C1) *)

Section WordBounds.

Context {U : UnicodeDB} {F : Type} {FL : PyFloat F} {R : PyRandom}.

Variable load_work_text : WorkSpec.t -> result str.
Variables target_words max_words min_words min_section_words min_unit_words : Z.

(** A record holds the word count of its text, which is not below the floor. *)
Definition floor_ok (r : UnitRecord F) : Prop :=
  words r = count_words (text r) /\ (min_unit_words <= Z.of_nat (words r))%Z.

Lemma record_of_chunk_words (work : WorkSpec.t) (sec_name chunk_text : str) (i : nat)
    (r : UnitRecord F) :
  record_of_chunk work sec_name chunk_text i = Ok r ->
  text r = chunk_text /\ words r = count_words chunk_text.
Proof.
  unfold record_of_chunk.
  destruct (flesch_kincaid_grade chunk_text); cbn [bind]; [|discriminate].
  destruct (pct_polysyllabic chunk_text); cbn [bind]; [|discriminate].
  destruct (factual_burden_score chunk_text); cbn [bind]; [|discriminate].
  intros E. injection E as <-. split; reflexivity.
Qed.

Lemma chunks_loop_floor (work : WorkSpec.t) (chunks : list item) :
  forall st st',
    chunks_loop min_unit_words work chunks st = Ok st' ->
    Forall floor_ok (fst st) -> Forall floor_ok (fst st').
Proof.
  induction chunks as [|[sec_name chunk_text] rest IH]; intros st st' Hrun Hst.
  - simpl in Hrun. injection Hrun as <-. exact Hst.
  - cbn [chunks_loop] in Hrun.
    destruct (Z.ltb (Z.of_nat (count_words chunk_text)) min_unit_words) eqn:Hlow.
    + apply (IH _ _ Hrun Hst).
    + destruct (record_of_chunk work sec_name chunk_text (snd st)) as [r|e] eqn:Hr;
        cbn [bind] in Hrun; [|discriminate].
      apply (IH _ _ Hrun). cbn [fst].
      apply Forall_app. split; [exact Hst|]. repeat constructor.
      * destruct (record_of_chunk_words _ _ _ _ Hr) as [Ht Hw]. congruence.
      * destruct (record_of_chunk_words _ _ _ _ Hr) as [_ Hw]. rewrite Hw.
        apply Z.ltb_ge. exact Hlow.
Qed.

Lemma sections_loop_floor (work : WorkSpec.t) (sections : list section_t) :
  forall st st',
    sections_loop target_words max_words min_words min_unit_words work sections st = Ok st' ->
    Forall floor_ok (fst st) -> Forall floor_ok (fst st').
Proof.
  induction sections as [|[section_title section_paragraphs] rest IH];
    intros st st' Hrun Hst.
  - simpl in Hrun. injection Hrun as <-. exact Hst.
  - cbn [sections_loop] in Hrun.
    destruct (chunks_loop min_unit_words work
                (chunk_section section_title section_paragraphs
                   target_words max_words min_words) st) as [st1|e] eqn:H1;
      cbn [bind] in Hrun; [|discriminate].
    apply (IH _ _ Hrun). apply (chunks_loop_floor _ _ _ H1 Hst).
Qed.

Lemma works_loop_floor (works : list WorkSpec.t) :
  forall records records',
    works_loop load_work_text target_words max_words min_words min_section_words
      min_unit_words works records = Ok records' ->
    Forall floor_ok records -> Forall floor_ok records'.
Proof.
  induction works as [|work rest IH]; intros records records' Hrun Hst.
  - simpl in Hrun. injection Hrun as <-. exact Hst.
  - cbn [works_loop] in Hrun.
    destruct (load_work_text work) as [raw|e]; cbn [bind] in Hrun; [|discriminate].
    destruct (is_empty (to_paragraphs (normalize_text raw))).
    + apply (IH _ _ Hrun Hst).
    + destruct (split_sections (to_paragraphs (normalize_text raw))
                  (WorkSpec.split_mode work) min_section_words) as [sections|e];
        cbn [bind] in Hrun; [|discriminate].
      destruct (sections_loop target_words max_words min_words min_unit_words work
                  sections (records, 1)) as [st|e] eqn:Hs;
        cbn [bind] in Hrun; [|discriminate].
      apply (IH _ _ Hrun). apply (sections_loop_floor _ _ _ Hs Hst).
Qed.

Lemma shuffle_in {A : Type} (seed : Z) (l : list A) (a : A) :
  In a (shuffle seed l) -> In a l.
Proof.
  unfold shuffle. intros H. apply in_flat_map in H as (i & _ & Hi).
  destruct (nth_error l i) as [b|] eqn:E; [|contradiction].
  destruct Hi as [<-|[]]. apply (nth_error_In _ _ E).
Qed.

(** X15. The floor of the units: every record of a run, shuffled or not,
    has a text of [min_unit_words] words or more. *)
Lemma build_records_min_unit_words (works : list WorkSpec.t) (shuffle_seed : option Z)
    (records : list (UnitRecord F)) (r : UnitRecord F) :
  build_records load_work_text target_words max_words min_words min_section_words
    min_unit_words works shuffle_seed = Ok records ->
  In r records ->
  (min_unit_words <= Z.of_nat (count_words (text r)))%Z.
Proof.
  unfold build_records. intros Hrun Hin.
  destruct (works_loop load_work_text target_words max_words min_words
              min_section_words min_unit_words works []) as [base|e] eqn:Hbase;
    cbn [bind] in Hrun; [|discriminate].
  pose proof (@works_loop_floor works [] base Hbase (Forall_nil _)) as Hall.
  assert (Hr : In r base).
  { destruct shuffle_seed; injection Hrun as <-; [apply (shuffle_in _ _ _ Hin)|exact Hin]. }
  rewrite Forall_forall in Hall. destruct (Hall r Hr) as [Hw Hmin].
  rewrite <- Hw. exact Hmin.
Qed.

End WordBounds.

Section MaxWords.

Context {U : UnicodeDB} {F : Type} {FL : PyFloat F} {R : PyRandom}.

Variables target_words max_words min_words : Z.

Hypothesis max_nonneg : (0 <= max_words)%Z.

Definition fits (s : str) : Prop := (Z.of_nat (count_words s) <= max_words)%Z.

(** A paragraph of more than [max_words] words none of whose sentences has
    more than [max_words] words: the paragraphs that the split can cut to
    size. *)
Definition splits_to_size (paragraph : str) : Prop :=
  (max_words < Z.of_nat (count_words paragraph))%Z -> Forall fits (sentences_of paragraph).

Definition split_inv (st : split_state) : Prop :=
  sp_words st = total_words (sp_current st)
  /\ (Z.of_nat (sp_words st) <= max_words)%Z
  /\ Forall (fun chunk => (Z.of_nat (total_words chunk) <= max_words)%Z) (sp_chunks st).

Lemma split_step_bound (st : split_state) (sentence : str) :
  fits sentence -> split_inv st -> split_inv (split_step target_words max_words st sentence).
Proof.
  unfold fits. intros Hfit (Hw & Hle & Hch). unfold split_step.
  set (flush := negb (is_empty (sp_current st))
                && Z.ltb max_words (Z.of_nat (sp_words st + count_words sentence))).
  assert (Hst1 : split_inv
            (if flush
             then {| sp_chunks := sp_chunks st ++ [sp_current st];
                     sp_current := [sentence];
                     sp_words := count_words sentence |}
             else {| sp_chunks := sp_chunks st;
                     sp_current := sp_current st ++ [sentence];
                     sp_words := sp_words st + count_words sentence |})).
  { destruct flush eqn:Hflush; unfold split_inv; cbn [sp_chunks sp_current sp_words].
    - split; [unfold total_words; simpl; lia|]. split; [exact Hfit|].
      apply Forall_app. split; [exact Hch|]. repeat constructor. rewrite <- Hw. exact Hle.
    - split; [rewrite total_words_snoc; lia|]. split; [|exact Hch].
      apply andb_false_iff in Hflush as [Hcur|Hover].
      + apply negb_false_iff, is_empty_true in Hcur. rewrite Hcur in Hw.
        change (total_words []) with 0 in Hw. rewrite Hw. exact Hfit.
      + apply Z.ltb_ge in Hover. exact Hover. }
  destruct (if flush then _ else _) as [chunks cur w] eqn:E.
  destruct Hst1 as (Hw1 & Hle1 & Hch1). cbn [sp_chunks sp_current sp_words] in *.
  destruct (Z.leb target_words (Z.of_nat w)); unfold split_inv;
    cbn [sp_chunks sp_current sp_words].
  - split; [reflexivity|]. split; [exact max_nonneg|].
    apply Forall_app. split; [exact Hch1|]. repeat constructor. rewrite <- Hw1. exact Hle1.
  - repeat split; assumption.
Qed.

Lemma split_fold_bound (sentences : list str) :
  forall st, Forall fits sentences -> split_inv st ->
             split_inv (fold_left (split_step target_words max_words) sentences st).
Proof.
  induction sentences as [|s l IH]; intros st Hall Hst; [exact Hst|].
  apply Forall_cons_iff in Hall as [Hs Hl]. cbn [fold_left].
  apply IH; [exact Hl|]. apply split_step_bound; assumption.
Qed.

(** The pieces of a paragraph that splits to size fit under [max_words]. *)
Lemma split_oversized_paragraph_fits (paragraph : str) :
  Forall fits (sentences_of paragraph) ->
  Forall fits (split_oversized_paragraph paragraph target_words max_words).
Proof.
  intros Hall. unfold split_oversized_paragraph.
  destruct (is_empty (sentences_of paragraph)) eqn:He.
  - repeat constructor. unfold fits.
    apply is_empty_true in He.
    rewrite <- (sentences_of_words paragraph), He. exact max_nonneg.
  - apply Forall_forall. intros piece Hp.
    apply in_map_iff in Hp as (chunk & <- & Hch).
    apply filter_In in Hch as [Hch _].
    unfold fits. rewrite count_words_strip, count_words_join_sp.
    assert (Hinv : split_inv (fold_left (split_step target_words max_words)
                                (sentences_of paragraph)
                                {| sp_chunks := []; sp_current := []; sp_words := 0 |})).
    { apply split_fold_bound; [exact Hall|].
      unfold split_inv. cbn [sp_chunks sp_current sp_words].
      repeat split; [exact max_nonneg|constructor]. }
    unfold split_chunks in Hch.
    destruct Hinv as (Hw & Hle & Hchunks). rewrite Forall_forall in Hchunks.
    destruct (is_empty (sp_current _)) in Hch; [apply Hchunks; exact Hch|].
    apply in_app_or in Hch as [Hch|[<-|[]]]; [apply Hchunks; exact Hch|].
    rewrite <- Hw. exact Hle.
Qed.

Definition chunk_inv (st : chunk_state) : Prop :=
  current_words st = total_words (current st)
  /\ (Z.of_nat (current_words st) <= max_words)%Z
  /\ Forall (fun it : item => fits (snd it)) (items st).

Lemma emit_current_bound (section_title : str) (st : chunk_state) :
  chunk_inv st -> chunk_inv (emit_current section_title st).
Proof.
  intros (Hw & Hle & Hit). unfold emit_current.
  destruct (is_empty (current st)); [repeat split; assumption|].
  unfold chunk_inv. cbn [items current current_words].
  split; [reflexivity|]. split; [exact max_nonneg|].
  destruct (is_empty (strip (join [NL; NL] (current st)))); [exact Hit|].
  apply Forall_app. split; [exact Hit|]. repeat constructor.
  unfold fits. cbn [snd]. rewrite count_words_strip, count_words_join_nl, <- Hw. exact Hle.
Qed.

Lemma emit_current_reset (section_title : str) (st : chunk_state) :
  current st <> [] ->
  current (emit_current section_title st) = []
  /\ current_words (emit_current section_title st) = 0.
Proof.
  intros Hne. unfold emit_current.
  destruct (is_empty (current st)) eqn:E; [apply is_empty_true in E; contradiction|].
  split; reflexivity.
Qed.

Lemma chunk_step_bound (section_title : str) (st : chunk_state) (paragraph : str) :
  splits_to_size paragraph -> chunk_inv st ->
  chunk_inv (chunk_step section_title target_words max_words st paragraph).
Proof.
  intros Hsplit Hst. unfold chunk_step.
  destruct (is_structural_heading_paragraph paragraph);
    [apply emit_current_bound; exact Hst|].
  destruct (Z.ltb max_words (Z.of_nat (count_words paragraph))) eqn:Hbig.
  - apply Z.ltb_lt in Hbig.
    destruct (emit_current_bound section_title Hst) as (Hw & Hle & Hit).
    unfold chunk_inv. cbn [items current current_words].
    split; [exact Hw|]. split; [exact Hle|].
    apply Forall_app. split; [exact Hit|].
    apply Forall_forall. intros it Hin. apply in_map_iff in Hin as (piece & <- & Hp).
    cbn [snd].
    pose proof (split_oversized_paragraph_fits paragraph (Hsplit Hbig)) as Hfits.
    rewrite Forall_forall in Hfits. apply Hfits. exact Hp.
  - apply Z.ltb_ge in Hbig.
    set (flush := negb (is_empty (current st))
                  && Z.ltb max_words (Z.of_nat (current_words st + count_words paragraph))).
    assert (Hst1 : chunk_inv (if flush then emit_current section_title st else st)
                   /\ (Z.of_nat (current_words
                                   (if flush then emit_current section_title st else st)
                                 + count_words paragraph) <= max_words)%Z).
    { destruct flush eqn:Hflush.
      - split; [apply emit_current_bound; exact Hst|].
        apply andb_true_iff in Hflush as [Hcur _].
        apply negb_true_iff, is_empty_false in Hcur.
        destruct (emit_current_reset section_title st Hcur) as [_ ->]. exact Hbig.
      - split; [exact Hst|].
        apply andb_false_iff in Hflush as [Hcur|Hover].
        + apply negb_false_iff, is_empty_true in Hcur.
          destruct Hst as (Hw & _). rewrite Hcur in Hw.
          change (total_words []) with 0 in Hw. rewrite Hw. exact Hbig.
        + apply Z.ltb_ge in Hover. exact Hover. }
    destruct Hst1 as [(Hw1 & Hle1 & Hit1) Hsum].
    set (st1 := if flush then emit_current section_title st else st) in *.
    assert (Hst2 : chunk_inv {| items := items st1;
                                current := current st1 ++ [paragraph];
                                current_words := current_words st1 + count_words paragraph |}).
    { unfold chunk_inv. cbn [items current current_words].
      split; [rewrite total_words_snoc; lia|]. split; assumption. }
    cbn [items current current_words].
    destruct (Z.leb target_words (Z.of_nat (current_words st1 + count_words paragraph)));
      [apply emit_current_bound|]; exact Hst2.
Qed.

Lemma chunk_items_fit (section_title : str) (paragraphs : list str) :
  Forall splits_to_size paragraphs ->
  Forall (fun it : item => fits (snd it))
    (chunk_items section_title paragraphs target_words max_words).
Proof.
  intros Hall. unfold chunk_items.
  assert (Hinv : forall st, chunk_inv st ->
            chunk_inv (fold_left (chunk_step section_title target_words max_words)
                         paragraphs st)).
  { induction Hall as [|p l Hp _ IH]; intros st Hst; [exact Hst|].
    cbn [fold_left]. apply IH. apply chunk_step_bound; assumption. }
  apply emit_current_bound, Hinv.
  unfold chunk_inv. cbn [items current current_words].
  repeat split; [exact max_nonneg|constructor].
Qed.

Lemma merge_step_fit (merged : list item * item) (it : item) :
  Forall (fun i : item => fits (snd i)) (fst merged) -> fits (snd (snd merged)) ->
  fits (snd it) ->
  Forall (fun i : item => fits (snd i)) (fst (merge_step max_words min_words merged it))
  /\ fits (snd (snd (merge_step max_words min_words merged it))).
Proof.
  destruct merged as [before [prev_sec prev_text]]. destruct it as [sec text0].
  cbn [fst snd]. intros Hb Hl Hi. unfold merge_step.
  destruct (Z.ltb (Z.of_nat (count_words text0)) min_words
            && Z.leb (Z.of_nat (count_words prev_text + count_words text0)) max_words)
    eqn:Hm; cbn [fst snd].
  - split; [exact Hb|]. apply andb_true_iff in Hm as [_ Hm]. apply Z.leb_le in Hm.
    unfold fits. rewrite count_words_strip.
    change (prev_text ++ [NL; NL] ++ text0) with (prev_text ++ NL :: (NL :: text0)).
    rewrite count_words_app_sep by reflexivity.
    rewrite count_words_sep_cons by reflexivity. exact Hm.
  - split; [|exact Hi]. apply Forall_app. split; [exact Hb|]. repeat constructor. exact Hl.
Qed.

Lemma merge_items_fit (its : list item) :
  Forall (fun i : item => fits (snd i)) its ->
  Forall (fun i : item => fits (snd i)) (merge_items max_words min_words its).
Proof.
  intros Hall. unfold merge_items.
  destruct its as [|first [|second rest]]; [exact Hall|exact Hall|].
  apply Forall_cons_iff in Hall as [Hfirst Hrest].
  assert (Hfold : forall l merged,
            Forall (fun i : item => fits (snd i)) l ->
            Forall (fun i : item => fits (snd i)) (fst merged) ->
            fits (snd (snd merged)) ->
            Forall (fun i : item => fits (snd i))
              (fst (fold_left (merge_step max_words min_words) l merged))
            /\ fits (snd (snd (fold_left (merge_step max_words min_words) l merged)))).
  { induction l as [|x l IH]; intros merged Hl Hb Hlast; [split; assumption|].
    apply Forall_cons_iff in Hl as [Hx Hl]. cbn [fold_left].
    destruct (merge_step_fit merged x Hb Hlast Hx) as [Hb' Hlast'].
    apply IH; assumption. }
  destruct (Hfold (second :: rest) ([], first) Hrest (Forall_nil _) Hfirst) as [Hb Hl].
  destruct (fold_left _ _ _) as [before last]. cbn [fst snd] in *.
  apply Forall_app. split; [exact Hb|]. repeat constructor. exact Hl.
Qed.

(** The units of a section fit under [max_words] when its oversized
    paragraphs split to size. *)
Lemma chunk_section_fits (section_title : str) (paragraphs : list str) :
  Forall splits_to_size paragraphs ->
  Forall (fun it : item => fits (snd it))
    (chunk_section section_title paragraphs target_words max_words min_words).
Proof.
  intros Hall. unfold chunk_section. apply merge_items_fit, chunk_items_fit, Hall.
Qed.

End MaxWords.

(** ** Paragraphs *)

(** The lines of a text hold its words: a newline is in no word. *)
Lemma split_on_count (d : char) (s : str) :
  word_char d = false ->
  forall prev : bool,
    match split_on d s with
    | [] => False
    | h :: t => run_count word_char prev s = run_count word_char prev h + total_words t
    end.
Proof.
  intros Hd. induction s as [|c s IH]; intros prev.
  - simpl. reflexivity.
  - cbn [split_on]. destruct (N.eqb c d) eqn:E.
    + apply N.eqb_eq in E. subst c.
      specialize (IH false). destruct (split_on d s) as [|h t]; [contradiction|].
      cbn [run_count]. rewrite Hd. cbn [andb].
      rewrite total_words_cons, count_words_run_count. lia.
    + specialize (IH (word_char c)). destruct (split_on d s) as [|h t]; [contradiction|].
      cbn [run_count]. rewrite IH. lia.
Qed.

Lemma split_on_words (s : str) : total_words (split_on NL s) = count_words s.
Proof.
  pose proof (@split_on_count NL s eq_refl false) as H.
  destruct (split_on NL s) as [|h t]; [contradiction|].
  rewrite total_words_cons, !count_words_run_count, H. reflexivity.
Qed.

Lemma split_on_no_delimiter (d : char) (s : str) :
  Forall (fun line => Forall (fun c => c <> d) line) (split_on d s).
Proof.
  induction s as [|c s IH]; cbn [split_on].
  - repeat constructor.
  - destruct (N.eqb c d) eqn:E.
    + constructor; [constructor|exact IH].
    + apply N.eqb_neq in E.
      destruct (split_on d s) as [|w ws]; [repeat constructor; exact E|].
      apply Forall_cons_iff in IH as [Hw Hws].
      constructor; [constructor; assumption|exact Hws].
Qed.

Lemma total_words_filter_nonempty (l : list str) :
  total_words (filter (fun p => negb (is_empty p)) l) = total_words l.
Proof.
  induction l as [|x l IH]; [reflexivity|].
  cbn [filter]. destruct x as [|c x]; cbn [is_empty negb].
  - rewrite total_words_cons, count_words_nil. exact IH.
  - rewrite !total_words_cons, IH. reflexivity.
Qed.

(** The paragraphs that the loop of [to_paragraphs] would return if the text
    ended in the state [st]. *)
Definition close_paragraphs (st : list str * list str) : list str :=
  if is_empty (snd st) then fst st else fst st ++ [strip (join [SP] (snd st))].

Lemma to_paragraphs_close (text : str) :
  to_paragraphs text
  = filter (fun p => negb (is_empty p))
      (close_paragraphs (fold_left to_paragraphs_step (split_on NL text) ([], []))).
Proof.
  unfold to_paragraphs, close_paragraphs.
  destruct (fold_left to_paragraphs_step (split_on NL text) ([], [])) as [ps cur].
  reflexivity.
Qed.

Lemma close_paragraphs_words (st : list str * list str) :
  total_words (close_paragraphs st) = total_words (fst st) + total_words (snd st).
Proof.
  destruct st as [ps cur]. unfold close_paragraphs. cbn [fst snd].
  destruct cur as [|x cur]; cbn [is_empty].
  - change (total_words []) with 0. lia.
  - rewrite total_words_snoc, count_words_strip, count_words_join_sp. reflexivity.
Qed.

Lemma to_paragraphs_step_words (st : list str * list str) (line : str) :
  total_words (fst (to_paragraphs_step st line)) + total_words (snd (to_paragraphs_step st line))
  = total_words (fst st) + total_words (snd st) + count_words line.
Proof.
  destruct st as [ps cur]. unfold to_paragraphs_step.
  destruct (is_empty (strip line)) eqn:E.
  - apply is_empty_true in E.
    assert (H0 : count_words line = 0) by (rewrite <- count_words_strip, E; reflexivity).
    rewrite H0.
    destruct (is_empty cur) eqn:Ec; cbn [fst snd]; [lia|].
    rewrite total_words_snoc, count_words_strip, count_words_join_sp.
    change (total_words []) with 0. lia.
  - cbn [fst snd]. rewrite total_words_snoc, count_words_strip. lia.
Qed.

Lemma to_paragraphs_fold_words (lines : list str) :
  forall st : list str * list str,
    total_words (fst (fold_left to_paragraphs_step lines st))
    + total_words (snd (fold_left to_paragraphs_step lines st))
    = total_words (fst st) + total_words (snd st) + total_words lines.
Proof.
  induction lines as [|line lines IH]; intros st; cbn [fold_left].
  - change (total_words []) with 0. lia.
  - rewrite IH, to_paragraphs_step_words, total_words_cons. lia.
Qed.

(** X1. [to_paragraphs] loses no word and makes none: the paragraphs have
    together the words of the text. *)
Theorem to_paragraphs_keeps_words (text : str) :
  total_words (to_paragraphs text) = count_words text.
Proof.
  rewrite to_paragraphs_close, total_words_filter_nonempty, close_paragraphs_words.
  rewrite to_paragraphs_fold_words. cbn [fst snd].
  change (total_words []) with 0. rewrite split_on_words. lia.
Qed.

(** The shape of a paragraph: stripped, and on one line. *)
Definition one_line (p : str) : Prop := strip p = p /\ Forall (fun c => c <> NL) p.

Lemma Forall_join (P : char -> Prop) (sep : str) (l : list str) :
  Forall P sep -> Forall (Forall P) l -> Forall P (join sep l).
Proof.
  intros Hsep. induction 1 as [|x l Hx Hl IH]; cbn [join]; [constructor|].
  destruct l as [|y l]; [exact Hx|].
  apply Forall_app. split; [exact Hx|]. apply Forall_app. split; [exact Hsep|exact IH].
Qed.

Lemma close_paragraphs_one_line (st : list str * list str) :
  Forall one_line (fst st) -> Forall (Forall (fun c => c <> NL)) (snd st) ->
  Forall one_line (close_paragraphs st).
Proof.
  destruct st as [ps cur]. cbn [fst snd]. intros Hps Hcur. unfold close_paragraphs.
  cbn [fst snd]. destruct (is_empty cur); [exact Hps|].
  apply Forall_app. split; [exact Hps|]. repeat constructor.
  - apply strip_idempotent.
  - apply Forall_strip, Forall_join; [repeat constructor; discriminate|exact Hcur].
Qed.

Lemma to_paragraphs_fold_one_line (lines : list str) :
  Forall (Forall (fun c => c <> NL)) lines ->
  forall st : list str * list str,
    Forall one_line (fst st) -> Forall (Forall (fun c => c <> NL)) (snd st) ->
    Forall one_line (fst (fold_left to_paragraphs_step lines st))
    /\ Forall (Forall (fun c => c <> NL)) (snd (fold_left to_paragraphs_step lines st)).
Proof.
  induction 1 as [|line lines Hline _ IH]; intros st Hps Hcur; cbn [fold_left].
  - split; assumption.
  - apply IH.
    + destruct st as [ps cur]. unfold to_paragraphs_step.
      destruct (is_empty (strip line)); [|exact Hps].
      destruct (is_empty cur) eqn:Ec; [exact Hps|].
      pose proof (@close_paragraphs_one_line (ps, cur) Hps Hcur) as H.
      unfold close_paragraphs in H. cbn [fst snd] in H. rewrite Ec in H. exact H.
    + destruct st as [ps cur]. unfold to_paragraphs_step. cbn [fst snd] in *.
      destruct (is_empty (strip line)).
      * destruct (is_empty cur); [exact Hcur|constructor].
      * cbn [snd]. apply Forall_app. split; [exact Hcur|].
        repeat constructor. apply Forall_strip. exact Hline.
Qed.

(** X2. Every paragraph that [to_paragraphs] returns is not empty, has no
    space at either end, and holds no newline. *)
Theorem to_paragraphs_shape (text : str) :
  Forall (fun p => p <> [] /\ strip p = p /\ Forall (fun c => c <> NL) p)
    (to_paragraphs text).
Proof.
  rewrite to_paragraphs_close. apply Forall_forall. intros p Hp.
  apply filter_In in Hp as [Hin Hne].
  apply negb_true_iff, is_empty_false in Hne.
  destruct (@to_paragraphs_fold_one_line (split_on NL text) (split_on_no_delimiter NL text)
              ([], []) (Forall_nil _) (Forall_nil _)) as [Hps Hcur].
  pose proof (close_paragraphs_one_line _ Hps Hcur) as Hall.
  rewrite Forall_forall in Hall. destruct (Hall p Hin) as [Hs Hnl].
  repeat split; assumption.
Qed.

Lemma lstrip_nil (p : char -> bool) (s : str) :
  lstrip p s = [] <-> Forall (fun c => p c = true) s.
Proof.
  induction s as [|c s IH]; cbn [lstrip].
  - split; [constructor|reflexivity].
  - destruct (p c) eqn:Hc.
    + rewrite IH. split; [intros H; constructor; assumption|].
      intros H. apply Forall_cons_iff in H as [_ H]. exact H.
    + split; [discriminate|]. intros H. apply Forall_cons_iff in H as [H _]. congruence.
Qed.

(** A text strips to nothing exactly when it is made of spaces. *)
Lemma strip_nil (s : str) : strip s = [] <-> Forall (fun c => isspace c = true) s.
Proof.
  rewrite <- lstrip_nil. unfold strip, strip_chars.
  pose proof (lstrip_solid isspace s) as H.
  destruct (lstrip isspace s) as [|c r]; [split; reflexivity|].
  destruct (rstrip_solid_head isspace c r H) as (r' & ->). split; discriminate.
Qed.

Lemma split_on_Forall (P : char -> Prop) (d : char) (s : str) :
  P d -> (Forall P s <-> Forall (Forall P) (split_on d s)).
Proof.
  intros Hd. induction s as [|c s IH]; cbn [split_on].
  - split; repeat constructor.
  - destruct (N.eqb c d) eqn:E.
    + apply N.eqb_eq in E. subst c. split.
      * intros H. apply Forall_cons_iff in H as [_ H]. constructor; [constructor|].
        apply IH. exact H.
      * intros H. apply Forall_cons_iff in H as [_ H]. constructor; [exact Hd|].
        apply IH. exact H.
    + destruct (split_on d s) as [|w ws].
      * split.
        -- intros H. apply Forall_cons_iff in H as [H _]. repeat constructor. exact H.
        -- intros H. apply Forall_cons_iff in H as [H _]. apply Forall_cons_iff in H as [H _].
           constructor; [exact H|]. apply IH. constructor.
      * split.
        -- intros H. apply Forall_cons_iff in H as [Hc H]. apply IH in H.
           apply Forall_cons_iff in H as [Hw Hws].
           constructor; [constructor; assumption|exact Hws].
        -- intros H. apply Forall_cons_iff in H as [Hcw Hws].
           apply Forall_cons_iff in Hcw as [Hc Hw].
           constructor; [exact Hc|]. apply IH. constructor; assumption.
Qed.

Lemma strip_trimmed (s : str) : strip s <> [] -> trimmed (strip s).
Proof. intros H. split; [exact H|apply strip_idempotent]. Qed.

(** The state of the loop of [to_paragraphs] once a line that is not blank
    has been read: a paragraph is open, or one that is not empty is closed. *)
Definition paragraph_seen (st : list str * list str) : Prop :=
  snd st <> [] \/ Exists (fun p => p <> []) (fst st).

Lemma to_paragraphs_step_open (st : list str * list str) (line : str) :
  Forall trimmed (snd st) -> Forall trimmed (snd (to_paragraphs_step st line)).
Proof.
  destruct st as [ps cur]. unfold to_paragraphs_step. cbn [snd]. intros Hcur.
  destruct (is_empty (strip line)) eqn:E.
  - destruct (is_empty cur); [exact Hcur|constructor].
  - cbn [snd]. apply Forall_app. split; [exact Hcur|].
    constructor; [|constructor].
    apply strip_trimmed, is_empty_false. exact E.
Qed.

Lemma to_paragraphs_step_seen (st : list str * list str) (line : str) :
  Forall trimmed (snd st) ->
  paragraph_seen st \/ strip line <> [] ->
  paragraph_seen (to_paragraphs_step st line).
Proof.
  destruct st as [ps cur]. unfold to_paragraphs_step, paragraph_seen. cbn [fst snd].
  intros Hcur Hseen.
  destruct (is_empty (strip line)) eqn:E.
  - apply is_empty_true in E.
    destruct Hseen as [Hseen|Hline]; [|contradiction].
    destruct (is_empty cur) eqn:Ec; [exact Hseen|].
    right. cbn [fst]. apply Exists_app. right. constructor.
    apply is_empty_false in Ec.
    destruct (join_trimmed [SP] Ec Hcur) as [Hne Hfix]. rewrite Hfix. exact Hne.
  - left. cbn [snd]. intros H. apply app_eq_nil in H as [_ H]. discriminate.
Qed.

Lemma to_paragraphs_fold_seen (lines : list str) :
  forall st : list str * list str,
    Forall trimmed (snd st) ->
    paragraph_seen st \/ Exists (fun line => strip line <> []) lines ->
    Forall trimmed (snd (fold_left to_paragraphs_step lines st))
    /\ paragraph_seen (fold_left to_paragraphs_step lines st).
Proof.
  induction lines as [|line lines IH]; intros st Hcur Hseen; cbn [fold_left].
  - split; [exact Hcur|]. destruct Hseen as [H|H]; [exact H|inversion H].
  - apply IH; [apply to_paragraphs_step_open; exact Hcur|].
    destruct Hseen as [H|H].
    + left. apply to_paragraphs_step_seen; [exact Hcur|left; exact H].
    + apply Exists_cons in H as [H|H].
      * left. apply to_paragraphs_step_seen; [exact Hcur|right; exact H].
      * right. exact H.
Qed.

Lemma to_paragraphs_fold_blank (lines : list str) :
  Forall (fun line => strip line = []) lines ->
  fold_left to_paragraphs_step lines ([], []) = ([], []).
Proof.
  induction 1 as [|line lines Hline _ IH]; cbn [fold_left]; [reflexivity|].
  unfold to_paragraphs_step at 2. rewrite Hline. cbn [is_empty]. exact IH.
Qed.

(** X3. [to_paragraphs] returns no paragraph exactly on the texts that are
    made of spaces (the empty text among them). *)
Theorem to_paragraphs_nil_iff_blank (text : str) :
  to_paragraphs text = [] <-> Forall (fun c => isspace c = true) text.
Proof.
  rewrite (@split_on_Forall (fun c => isspace c = true) NL text eq_refl).
  split.
  - intros Hnil. apply Forall_forall. intros line Hline. apply strip_nil.
    destruct (strip line) as [|c r] eqn:E; [reflexivity|]. exfalso.
    destruct (@to_paragraphs_fold_seen (split_on NL text) ([], []) (Forall_nil _)) as [Hcur Hseen].
    { right. apply Exists_exists. exists line. split; [exact Hline|]. rewrite E. discriminate. }
    rewrite to_paragraphs_close in Hnil.
    destruct (fold_left to_paragraphs_step (split_on NL text) ([], [])) as [ps cur].
    unfold close_paragraphs, paragraph_seen in *. cbn [fst snd] in *.
    assert (Hex : Exists (fun p => p <> [])
                    (if is_empty cur then ps else ps ++ [strip (join [SP] cur)])).
    { destruct (is_empty cur) eqn:Ec.
      - apply is_empty_true in Ec. destruct Hseen as [H|H]; [contradiction|exact H].
      - apply Exists_app. right. constructor. apply is_empty_false in Ec.
        destruct (join_trimmed [SP] Ec Hcur) as [Hne Hfix]. rewrite Hfix. exact Hne. }
    apply Exists_exists in Hex as (p & Hp & Hne).
    assert (Hin : In p (filter (fun p => negb (is_empty p))
                          (if is_empty cur then ps else ps ++ [strip (join [SP] cur)]))).
    { apply filter_In. split; [exact Hp|]. apply negb_true_iff, is_empty_false. exact Hne. }
    replace (filter _ _) with (@nil str) in Hin by (symmetry; exact Hnil). exact Hin.
  - intros Hall. rewrite to_paragraphs_close, to_paragraphs_fold_blank; [reflexivity|].
    eapply Forall_impl; [|exact Hall]. intros line. apply strip_nil.
Qed.

(** ** Sections *)

(** The first index that [indices_where] finds: what stands before it fails
    the test, and the search goes on after it. *)
Lemma indices_where_cons {A : Type} (p : A -> bool) (l : list A) :
  forall (pos i : nat) (rest : list nat),
    indices_where p pos l = i :: rest ->
    exists pre x post,
      l = pre ++ x :: post
      /\ i = pos + length pre
      /\ Forall (fun a => p a = false) pre
      /\ p x = true
      /\ rest = indices_where p (S i) post.
Proof.
  induction l as [|a l IH]; intros pos i rest H; cbn [indices_where] in H; [discriminate|].
  destruct (p a) eqn:Ha.
  - injection H as <- <-. exists [], a, l. cbn [app length]. rewrite Nat.add_0_r.
    repeat split; [constructor|exact Ha].
  - destruct (IH _ _ _ H) as (pre & x & post & -> & -> & Hpre & Hx & ->).
    exists (a :: pre), x, post. cbn [app length].
    replace (pos + S (length pre)) with (S pos + length pre) by lia.
    repeat split; [constructor; assumption|exact Hx].
Qed.

Lemma indices_where_nil {A : Type} (p : A -> bool) (l : list A) :
  forall pos : nat, indices_where p pos l = [] -> Forall (fun a => p a = false) l.
Proof.
  induction l as [|a l IH]; intros pos H; cbn [indices_where] in H; [constructor|].
  destruct (p a) eqn:Ha; [discriminate|]. constructor; [exact Ha|apply (IH _ H)].
Qed.

Lemma slice_tail {A : Type} (before : list A) (x : A) (post : list A) :
  slice (S (length before)) (length (before ++ x :: post)) (before ++ x :: post) = post.
Proof.
  unfold slice. rewrite length_app. cbn [length].
  replace (S (length before)) with (length (before ++ [x]))
    by (rewrite length_app; simpl; lia).
  replace (before ++ x :: post) with ((before ++ [x]) ++ post)
    by (rewrite <- app_assoc; reflexivity).
  rewrite skipn_app, skipn_all, Nat.sub_diag. cbn [app skipn].
  rewrite length_app. cbn [length].
  replace (length before + S (length post) - (length before + 1)) with (length post) by lia.
  apply firstn_all.
Qed.

Lemma slice_middle {A : Type} (before : list A) (x : A) (pre post : list A) :
  slice (S (length before)) (S (length before) + length pre) (before ++ x :: pre ++ post) = pre.
Proof.
  unfold slice.
  replace (S (length before)) with (length (before ++ [x]))
    by (rewrite length_app; simpl; lia).
  replace (before ++ x :: pre ++ post) with ((before ++ [x]) ++ pre ++ post)
    by (rewrite <- app_assoc; reflexivity).
  rewrite skipn_app, skipn_all, Nat.sub_diag. cbn [app skipn].
  replace (length (before ++ [x]) + length pre - length (before ++ [x])) with (length pre + 0)
    by lia.
  rewrite firstn_app_2. cbn [firstn]. apply app_nil_r.
Qed.

Lemma in_slice {A : Type} (a b : nat) (l : list A) (x : A) : In x (slice a b l) -> In x l.
Proof.
  unfold slice. intros H.
  rewrite <- (firstn_skipn a l). apply in_or_app. right.
  rewrite <- (firstn_skipn (b - a) (skipn a l)). apply in_or_app. left. exact H.
Qed.

Section SplitSections.

Context {U : UnicodeDB} {F : Type} {FL : PyFloat F}.

Variable paragraphs : list str.
Variable min_section_words : Z.

(** A section that [split_sections] makes of a heading: the paragraphs from
    the index [a] to the index [b] (not included), under the paragraph that
    stands before them. *)
Definition heading_section (s : section_t) (r : nat * nat) : Prop :=
  0 < fst r /\ fst r < snd r /\ snd r <= length paragraphs
  /\ fst s = nth (fst r - 1) paragraphs []
  /\ snd s = slice (fst r) (snd r) paragraphs
  /\ looks_like_heading (fst s) = true
  /\ is_excluded_section_name (fst s) = false
  /\ (min_section_words <= Z.of_nat (count_words (join [NL; NL] (snd s))))%Z
  /\ Forall (fun p => looks_like_heading p = false) (snd s).

(** The ranges follow one another without overlap. *)
Definition in_order (ranges : list (nat * nat)) : Prop :=
  StronglySorted (fun r r' : nat * nat => snd r <= fst r') ranges.

Lemma heading_sections_spec (rest : list nat) :
  forall (before : list str) (x : str) (post : list str),
    paragraphs = before ++ x :: post ->
    looks_like_heading x = true ->
    rest = indices_where looks_like_heading (S (length before)) post ->
    exists ranges : list (nat * nat),
      Forall2 heading_section
        (heading_sections paragraphs min_section_words (length before :: rest)) ranges
      /\ in_order ranges
      /\ Forall (fun r => S (length before) <= fst r) ranges.
Proof.
  induction rest as [|next rest IH]; intros before x post Hps Hx Hrest.
  - symmetry in Hrest. apply indices_where_nil in Hrest.
    cbn [heading_sections].
    assert (Hbody : slice (S (length before)) (length paragraphs) paragraphs = post)
      by (rewrite Hps; apply slice_tail).
    assert (Hhead : nth (length before) paragraphs [] = x)
      by (rewrite Hps; apply nth_middle).
    rewrite Hbody, Hhead.
    destruct (is_empty post) eqn:E1; [exists []; repeat constructor|].
    destruct (negb (words_ge (join [NL; NL] post) min_section_words)) eqn:E2;
      [exists []; repeat constructor|].
    destruct (is_excluded_section_name x) eqn:E3; [exists []; repeat constructor|].
    exists [(S (length before), length paragraphs)].
    split; [|split; repeat constructor].
    constructor; [|constructor].
    apply is_empty_false in E1. apply negb_false_iff, Z.leb_le in E2.
    unfold heading_section. cbn [fst snd].
    assert (Hlen : length paragraphs = length before + S (length post))
      by (rewrite Hps, length_app; reflexivity).
    assert (0 < length post) by (destruct post; [contradiction|simpl; lia]).
    replace (S (length before) - 1) with (length before) by lia.
    rewrite Hbody, Hhead. repeat split; try assumption; lia.
  - symmetry in Hrest.
    destruct (indices_where_cons _ _ _ Hrest) as (pre & x' & post' & Hpost & Hnext & Hpre & Hx' & Hrest').
    assert (Hps' : paragraphs = (before ++ x :: pre) ++ x' :: post')
      by (rewrite Hps, Hpost, <- app_assoc; reflexivity).
    assert (Hlen' : length (before ++ x :: pre) = next)
      by (rewrite length_app; simpl; lia).
    destruct (IH (before ++ x :: pre) x' post' Hps' Hx') as (ranges & Hall & Hord & Hlow).
    { rewrite Hlen'. exact Hrest'. }
    rewrite Hlen' in Hall, Hlow.
    cbn [heading_sections].
    assert (Hbody : slice (S (length before)) next paragraphs = pre).
    { rewrite Hps, Hpost, Hnext. apply slice_middle. }
    assert (Hhead : nth (length before) paragraphs [] = x)
      by (rewrite Hps; apply nth_middle).
    rewrite Hbody, Hhead.
    assert (Hlow' : Forall (fun r : nat * nat => S (length before) <= fst r) ranges).
    { eapply Forall_impl; [|exact Hlow]. cbn beta. intros r Hr. lia. }
    destruct (is_empty pre) eqn:E1; [exists ranges; repeat split; assumption|].
    destruct (negb (words_ge (join [NL; NL] pre) min_section_words)) eqn:E2;
      [exists ranges; repeat split; assumption|].
    destruct (is_excluded_section_name x) eqn:E3; [exists ranges; repeat split; assumption|].
    exists ((S (length before), next) :: ranges).
    split; [|split].
    + constructor; [|exact Hall].
      apply is_empty_false in E1. apply negb_false_iff, Z.leb_le in E2.
      unfold heading_section. cbn [fst snd].
      assert (Hlen : length paragraphs = next + S (length post'))
        by (rewrite Hps', length_app, Hlen'; reflexivity).
      assert (0 < length pre) by (destruct pre; [contradiction|simpl; lia]).
      replace (S (length before) - 1) with (length before) by lia.
      rewrite Hbody, Hhead. repeat split; try assumption; lia.
    + constructor; [exact Hord|].
      eapply Forall_impl; [|exact Hlow]. cbn beta. intros r Hr. cbn [snd]. lia.
    + constructor; [cbn [fst]; lia|exact Hlow'].
Qed.

(** What [split_sections] returns is the whole text as one section, or the
    sections of the headings with the section of the lead before them. *)
Definition lead_section (s : section_t) (r : nat * nat) : Prop :=
  fst r = 0 /\ 0 < snd r /\ snd r <= length paragraphs
  /\ fst s = lit "Introduction"
  /\ snd s = slice (fst r) (snd r) paragraphs
  /\ (min_section_words <= Z.of_nat (count_words (join [NL; NL] (snd s))))%Z
  /\ Forall (fun p => looks_like_heading p = false) (snd s).

Definition whole_text (s : section_t) (r : nat * nat) : Prop :=
  r = (0, length paragraphs) /\ s = (lit "Full text", paragraphs).

Lemma slice_whole {A : Type} (l : list A) : slice 0 (length l) l = l.
Proof. unfold slice. rewrite Nat.sub_0_r. cbn [skipn]. apply firstn_all. Qed.

Lemma split_sections_spec (split_mode : str) (sections : list section_t) :
  split_sections paragraphs split_mode min_section_words = Ok sections ->
  exists ranges : list (nat * nat),
    Forall2 (fun s r => whole_text s r \/ lead_section s r \/ heading_section s r)
      sections ranges
    /\ in_order ranges
    /\ ranges <> [].
Proof.
  unfold split_sections.
  destruct (negb (str_eqb split_mode (lit "headings") || str_eqb split_mode (lit "none")));
    [discriminate|].
  assert (Hwhole : exists ranges : list (nat * nat),
             Forall2 (fun s r => whole_text s r \/ lead_section s r \/ heading_section s r)
               [(lit "Full text", paragraphs)] ranges
             /\ in_order ranges /\ ranges <> []).
  { exists [(0, length paragraphs)]. split; [|split; [repeat constructor|discriminate]].
    constructor; [|constructor]. left. split; reflexivity. }
  destruct (str_eqb split_mode (lit "none")); [intros E; injection E as <-; exact Hwhole|].
  destruct (indices_where looks_like_heading 0 paragraphs) as [|first rest] eqn:Hidx;
    [intros E; injection E as <-; exact Hwhole|].
  destruct (indices_where_cons _ _ _ Hidx) as (pre & x & post & Hps & Hfirst & Hpre & Hx & Hrest).
  cbn [Nat.add] in Hfirst. subst first.
  destruct (@heading_sections_spec rest pre x post Hps Hx Hrest) as (ranges & Hall & Hord & Hlow).
  assert (Hlead : firstn (length pre) paragraphs = pre).
  { rewrite Hps. rewrite <- (Nat.add_0_r (length pre)). rewrite firstn_app_2.
    cbn [firstn]. apply app_nil_r. }
  rewrite Hlead.
  set (hs := heading_sections paragraphs min_section_words (length pre :: rest)) in *.
  destruct (Nat.ltb 0 (length pre) && words_ge (join [NL; NL] pre) min_section_words) eqn:El.
  - cbn [app is_empty]. intros E. injection E as <-.
    apply andb_true_iff in El as [Hpos Hw]. apply Nat.ltb_lt in Hpos. apply Z.leb_le in Hw.
    exists ((0, length pre) :: ranges). split; [|split; [|discriminate]].
    + constructor.
      * right. left. unfold lead_section. cbn [fst snd].
        assert (Hs : slice 0 (length pre) paragraphs = pre).
        { unfold slice. rewrite Nat.sub_0_r. exact Hlead. }
        rewrite Hs. repeat split; try assumption.
        rewrite Hps, length_app. lia.
      * eapply Forall2_impl; [|exact Hall]. intros s r H. right. right. exact H.
    + constructor; [exact Hord|].
      eapply Forall_impl; [|exact Hlow]. cbn beta. intros r Hr. cbn [snd]. lia.
  - cbn [app]. intros E. clearbody hs.
    destruct hs as [|h hs]; cbn [is_empty] in E; injection E as <-; [exact Hwhole|].
    exists ranges. split; [|split; [exact Hord|]].
    + eapply Forall2_impl; [|exact Hall]. intros s r H. right. right. exact H.
    + intros ->. inversion Hall.
Qed.

(** A section holds paragraphs of the text only. *)
Lemma split_sections_incl (split_mode : str) (sections : list section_t)
    (s : section_t) (p : str) :
  split_sections paragraphs split_mode min_section_words = Ok sections ->
  In s sections -> In p (snd s) -> In p paragraphs.
Proof.
  intros Hrun Hs Hp. destruct (split_sections_spec _ Hrun) as (ranges & Hall & _).
  clear Hrun. induction Hall as [|s' r sections ranges Hs' _ IH]; [contradiction|].
  destruct Hs as [->|Hs]; [|apply IH; exact Hs].
  destruct Hs' as [[_ ->]|[Hl|Hh]].
  - exact Hp.
  - destruct Hl as (_ & _ & _ & _ & Hbody & _). rewrite Hbody in Hp. apply (in_slice _ _ _ _ Hp).
  - destruct Hh as (_ & _ & _ & _ & Hbody & _). rewrite Hbody in Hp. apply (in_slice _ _ _ _ Hp).
Qed.


(** X4. What a section of [split_sections] holds. The result is never
    empty, and a section is the whole text under the name Full text, or the
    lead before the first heading under the name Introduction, or the
    paragraphs that follow a heading under that heading (a paragraph of the
    text that looks like a heading, and is no excluded name). In the last
    two cases the section has a paragraph or more, none of which looks like
    a heading, and [min_section_words] words or more. *)
Theorem split_sections_shape (split_mode : str) (sections : list section_t)
    (Hrun : split_sections paragraphs split_mode min_section_words = Ok sections) :
  sections <> []
  /\ Forall (fun s : section_t =>
       s = (lit "Full text", paragraphs)
       \/ (snd s <> []
           /\ Forall (fun p => In p paragraphs /\ looks_like_heading p = false) (snd s)
           /\ (min_section_words <= Z.of_nat (count_words (join [NL; NL] (snd s))))%Z
           /\ (fst s = lit "Introduction"
               \/ (In (fst s) paragraphs
                   /\ looks_like_heading (fst s) = true
                   /\ is_excluded_section_name (fst s) = false))))
     sections.
Proof.
  destruct (split_sections_spec _ Hrun) as (ranges & Hall & _ & Hne).
  split.
  - intros ->. destruct ranges; [apply Hne; reflexivity|inversion Hall].
  - clear Hne Hrun. induction Hall as [|s r sections ranges Hs _ IH]; constructor; [|exact IH].
    assert (Hslice : forall a b, a < b -> snd s = slice a b paragraphs ->
              Forall (fun p => looks_like_heading p = false) (snd s) ->
              snd s <> []
              /\ Forall (fun p => In p paragraphs /\ looks_like_heading p = false) (snd s)
              \/ length paragraphs <= a).
    { intros a b Hab Hbody Hno.
      destruct (Nat.le_gt_cases (length paragraphs) a) as [Hout|Hin]; [right; exact Hout|].
      left. split.
      - rewrite Hbody. unfold slice. intros E.
        apply (f_equal (@length str)) in E. rewrite length_firstn, length_skipn in E.
        simpl in E. lia.
      - apply Forall_forall. intros p Hp. split.
        + rewrite Hbody in Hp. apply (in_slice _ _ _ _ Hp).
        + rewrite Forall_forall in Hno. apply Hno. exact Hp. }
    destruct Hs as [[_ Hs]|[Hs|Hs]].
    + left. exact Hs.
    + right. destruct Hs as (Ha & Hb & Hle & Ht & Hbody & Hw & Hno).
      assert (Hab : fst r < snd r) by lia.
      destruct (Hslice _ _ Hab Hbody Hno) as [[Hne Hin]|Hout]; [|lia].
      repeat split; try assumption. left. exact Ht.
    + right. destruct Hs as (Ha & Hab & Hle & Ht & Hbody & Hh & Hex & Hw & Hno).
      destruct (Hslice _ _ Hab Hbody Hno) as [[Hne Hin]|Hout]; [|lia].
      repeat split; try assumption. right. repeat split; try assumption.
      rewrite Ht. apply nth_In. lia.
Qed.

(** X5. The sections of [split_sections] are cut out of the list of the
    paragraphs one after the other: each is the slice of a range of indices,
    and the ranges follow one another without overlap, so that no paragraph
    is in two sections and the order of the text is kept. *)
Theorem split_sections_in_order (split_mode : str) (sections : list section_t)
    (Hrun : split_sections paragraphs split_mode min_section_words = Ok sections) :
  exists ranges : list (nat * nat),
    map snd sections = map (fun r => slice (fst r) (snd r) paragraphs) ranges
    /\ Forall (fun r => fst r <= snd r <= length paragraphs) ranges
    /\ StronglySorted (fun r r' : nat * nat => snd r <= fst r') ranges.
Proof.
  destruct (split_sections_spec _ Hrun) as (ranges & Hall & Hord & _).
  exists ranges. split; [|split; [|exact Hord]].
  - clear Hord Hrun. induction Hall as [|s r sections ranges Hs _ IH]; [reflexivity|].
    cbn [map]. rewrite IH. f_equal.
    destruct Hs as [[-> ->]|[Hs|Hs]].
    + cbn [fst snd]. symmetry. apply slice_whole.
    + apply Hs.
    + apply Hs.
  - clear Hord Hrun. induction Hall as [|s r sections ranges Hs _ IH]; constructor; [|exact IH].
    destruct Hs as [[-> _]|[Hs|Hs]].
    + cbn [fst snd]. lia.
    + destruct Hs as (Ha & Hb & Hle & _). lia.
    + destruct Hs as (Ha & Hab & Hle & _). lia.
Qed.

End SplitSections.

(** ** The units of a section *)

(** The pieces of a paragraph have its words, whatever the bounds. *)
Lemma split_oversized_paragraph_words (paragraph : str) (target_words max_words : Z) :
  total_words (split_oversized_paragraph paragraph target_words max_words)
  = count_words paragraph.
Proof.
  unfold split_oversized_paragraph.
  destruct (split_chunks_spec target_words max_words (sentences_of paragraph)) as [Hcat Hall].
  set (chunks := split_chunks target_words max_words (sentences_of paragraph)) in *.
  destruct (is_empty (sentences_of paragraph)) eqn:He.
  - rewrite total_words_cons. change (total_words []) with 0. lia.
  - rewrite filter_all.
    + rewrite <- (sentences_of_words paragraph), <- Hcat, total_words_concat.
      unfold total_words at 1. rewrite map_map. f_equal.
      apply map_ext. intros ch. rewrite count_words_strip. apply count_words_join_sp.
    + eapply Forall_impl; [|exact Hall].
      intros ch Hch. apply negb_true_iff, is_empty_false. exact Hch.
Qed.

(** The pieces of a paragraph that has a word are trimmed. *)
Lemma split_oversized_paragraph_trimmed (paragraph : str) (target_words max_words : Z) :
  0 < count_words paragraph ->
  Forall trimmed (split_oversized_paragraph paragraph target_words max_words).
Proof.
  intros Hw. unfold split_oversized_paragraph.
  destruct (split_chunks_spec target_words max_words (sentences_of paragraph)) as [Hcat Hall].
  set (chunks := split_chunks target_words max_words (sentences_of paragraph)) in *.
  destruct (is_empty (sentences_of paragraph)) eqn:He.
  - apply is_empty_true in He. exfalso.
    rewrite <- (sentences_of_words paragraph), He in Hw.
    change (total_words []) with 0 in Hw. lia.
  - apply Forall_forall. intros piece Hp.
    apply in_map_iff in Hp as (ch & <- & Hch).
    apply filter_In in Hch as [Hch Hne].
    apply negb_true_iff, is_empty_false in Hne.
    apply strip_trimmed, strip_of_solid, join_solid; [exact Hne|].
    apply Forall_forall. intros s Hs.
    pose proof (sentences_of_solid paragraph) as Hso.
    rewrite <- Hcat in Hso. rewrite Forall_forall in Hso. apply Hso.
    apply in_concat. exists ch. split; assumption.
Qed.

(** The words of the texts of a list of units. *)
Definition unit_words (its : list item) : nat := total_words (map snd its).

Lemma unit_words_app (l1 l2 : list item) : unit_words (l1 ++ l2) = unit_words l1 + unit_words l2.
Proof. unfold unit_words. rewrite map_app. apply total_words_app. Qed.

Lemma unit_words_one (it : item) : unit_words [it] = count_words (snd it).
Proof. unfold unit_words. cbn [map]. rewrite total_words_cons. change (total_words []) with 0. lia. Qed.

Lemma count_words_blank_line (a b : str) :
  count_words (strip (a ++ [NL; NL] ++ b)) = count_words a + count_words b.
Proof.
  rewrite count_words_strip.
  change (a ++ [NL; NL] ++ b) with (a ++ NL :: (NL :: b)).
  rewrite count_words_app_sep by reflexivity.
  rewrite count_words_sep_cons by reflexivity. reflexivity.
Qed.

Lemma merge_step_words (max_words min_words : Z) (merged : list item * item) (it : item) :
  unit_words (fst (merge_step max_words min_words merged it))
  + count_words (snd (snd (merge_step max_words min_words merged it)))
  = unit_words (fst merged) + count_words (snd (snd merged)) + count_words (snd it).
Proof.
  destruct merged as [before [prev_sec prev_text]]. destruct it as [sec text0].
  unfold merge_step. cbn [fst snd].
  destruct (Z.ltb (Z.of_nat (count_words text0)) min_words
            && Z.leb (Z.of_nat (count_words prev_text + count_words text0)) max_words);
    cbn [fst snd].
  - rewrite count_words_blank_line. lia.
  - rewrite unit_words_app, unit_words_one. cbn [snd]. lia.
Qed.

Lemma merge_items_words (max_words min_words : Z) (its : list item) :
  unit_words (merge_items max_words min_words its) = unit_words its.
Proof.
  unfold merge_items. destruct its as [|first [|second rest]]; [reflexivity|reflexivity|].
  assert (Hfold : forall l merged,
            unit_words (fst (fold_left (merge_step max_words min_words) l merged))
            + count_words (snd (snd (fold_left (merge_step max_words min_words) l merged)))
            = unit_words (fst merged) + count_words (snd (snd merged)) + unit_words l).
  { induction l as [|x l IH]; intros merged; cbn [fold_left].
    - unfold unit_words at 3. cbn [map]. change (total_words []) with 0. lia.
    - rewrite IH, merge_step_words.
      change (x :: l) with ([x] ++ l). rewrite unit_words_app, unit_words_one. lia. }
  specialize (Hfold (second :: rest) ([], first)).
  destruct (fold_left _ _ _) as [before last]. cbn [fst snd] in Hfold.
  rewrite unit_words_app, unit_words_one, Hfold.
  change (first :: second :: rest) with ([first] ++ second :: rest).
  rewrite unit_words_app, unit_words_one.
  unfold unit_words at 1. cbn [map]. change (total_words []) with 0. lia.
Qed.

(** The pairs of neighbours of a list. *)
Fixpoint adjacent {A : Type} (P : A -> A -> Prop) (l : list A) : Prop :=
  match l with
  | [] => True
  | a :: t =>
      match t with
      | [] => True
      | b :: _ => P a b /\ adjacent P t
      end
  end.

Lemma adjacent_snoc {A : Type} (P : A -> A -> Prop) (l : list A) (a b : A) :
  adjacent P (l ++ [a]) -> P a b -> adjacent P ((l ++ [a]) ++ [b]).
Proof.
  induction l as [|x l IH]; intros Hl Hab.
  - simpl. split; [exact Hab|exact I].
  - cbn [app] in *. destruct (l ++ [a]) as [|y t] eqn:E.
    + apply app_eq_nil in E as [_ E]. discriminate.
    + cbn [app adjacent] in *. destruct Hl as [Hxy Ht].
      split; [exact Hxy|]. apply IH; assumption.
Qed.

Lemma adjacent_last {A : Type} (P : A -> A -> Prop) (l : list A) (a a' : A) :
  (forall x, P x a -> P x a') -> adjacent P (l ++ [a]) -> adjacent P (l ++ [a']).
Proof.
  intros Hmono. induction l as [|x l IH]; intros Hl.
  - exact I.
  - cbn [app] in *. destruct l as [|y l].
    + cbn [app adjacent] in *. destruct Hl as [Hxa _]. split; [apply Hmono; exact Hxa|exact I].
    + cbn [app adjacent] in *. destruct Hl as [Hxy Ht].
      split; [exact Hxy|]. apply IH. exact Ht.
Qed.

Lemma adjacent_at {A : Type} (P : A -> A -> Prop) (l1 : list A) (a b : A) (l2 : list A) :
  adjacent P (l1 ++ a :: b :: l2) -> P a b.
Proof.
  induction l1 as [|x l1 IH]; intros H.
  - apply H.
  - apply IH. cbn [app] in H. destruct (l1 ++ a :: b :: l2) eqn:E.
    + apply app_eq_nil in E as [_ E]. discriminate.
    + apply H.
Qed.

(** What the merge pass leaves between two neighbours: the second has
    [min_words] words or more, or the two have together more than
    [max_words] words. *)
Definition settled (max_words min_words : Z) (prev cur : item) : Prop :=
  (min_words <= Z.of_nat (count_words (snd cur)))%Z
  \/ (max_words < Z.of_nat (count_words (snd prev) + count_words (snd cur)))%Z.

Lemma merge_items_settled (max_words min_words : Z) (its : list item) :
  adjacent (settled max_words min_words) (merge_items max_words min_words its).
Proof.
  unfold merge_items. destruct its as [|first [|second rest]]; [exact I|exact I|].
  assert (Hfold : forall l merged,
            adjacent (settled max_words min_words) (fst merged ++ [snd merged]) ->
            adjacent (settled max_words min_words)
              (fst (fold_left (merge_step max_words min_words) l merged)
               ++ [snd (fold_left (merge_step max_words min_words) l merged)])).
  { induction l as [|x l IH]; intros merged Hm; cbn [fold_left]; [exact Hm|].
    apply IH. destruct merged as [before [prev_sec prev_text]]. destruct x as [sec text0].
    unfold merge_step. cbn [fst snd] in *.
    destruct (Z.ltb (Z.of_nat (count_words text0)) min_words
              && Z.leb (Z.of_nat (count_words prev_text + count_words text0)) max_words)
      eqn:Em; cbn [fst snd].
    - apply (@adjacent_last _ (settled max_words min_words) before
               (prev_sec, prev_text)); [|exact Hm].
      intros y. unfold settled. cbn [snd]. rewrite count_words_blank_line. lia.
    - apply adjacent_snoc; [exact Hm|].
      unfold settled. cbn [snd].
      apply andb_false_iff in Em as [Em|Em];
        [apply Z.ltb_ge in Em; left; exact Em|apply Z.leb_gt in Em; right; exact Em]. }
  specialize (Hfold (second :: rest) ([], first) I).
  destruct (fold_left _ _ _) as [before last]. exact Hfold.
Qed.

Section ChunkUnits.

Context {U : UnicodeDB} {F : Type} {FL : PyFloat F}.

Variable section_title : str.
Variables target_words max_words min_words : Z.

(** The words that the loop of [chunk_section] holds: in the units made and
    in the paragraphs that wait. *)
Definition held_words (st : chunk_state) : nat :=
  unit_words (items st) + total_words (current st).

Lemma emit_current_words (st : chunk_state) :
  held_words (emit_current section_title st) = held_words st.
Proof.
  unfold emit_current, held_words. destruct (is_empty (current st)) eqn:E; [reflexivity|].
  cbn [items current]. change (total_words []) with 0.
  assert (Hw : count_words (strip (join [NL; NL] (current st))) = total_words (current st))
    by (rewrite count_words_strip; apply count_words_join_nl).
  destruct (is_empty (strip (join [NL; NL] (current st)))) eqn:E2.
  - apply is_empty_true in E2. rewrite E2, count_words_nil in Hw. lia.
  - rewrite unit_words_app, unit_words_one. cbn [snd]. lia.
Qed.

(** The paragraphs that are no structural heading stubs. *)
Definition prose (paragraphs : list str) : list str :=
  filter (fun p => negb (is_structural_heading_paragraph p)) paragraphs.

Lemma chunk_step_words (st : chunk_state) (paragraph : str) :
  held_words (chunk_step section_title target_words max_words st paragraph)
  = held_words st + total_words (prose [paragraph]).
Proof.
  unfold chunk_step, prose. cbn [filter].
  destruct (is_structural_heading_paragraph paragraph); cbn [negb].
  - rewrite emit_current_words. change (total_words []) with 0. lia.
  - rewrite total_words_cons. change (total_words []) with 0.
    destruct (Z.ltb max_words (Z.of_nat (count_words paragraph))).
    + pose proof (emit_current_words st) as He. unfold held_words in *.
      cbn [items current]. rewrite unit_words_app.
      unfold unit_words at 2. rewrite map_map. cbn [snd]. rewrite map_id.
      rewrite split_oversized_paragraph_words. lia.
    + set (st1 := if negb (is_empty (current st))
                     && Z.ltb max_words (Z.of_nat (current_words st + count_words paragraph))
                  then emit_current section_title st else st).
      assert (H1 : held_words st1 = held_words st)
        by (unfold st1; destruct (_ && _); [apply emit_current_words|reflexivity]).
      set (st2 := {| items := items st1;
                     current := current st1 ++ [paragraph];
                     current_words := current_words st1 + count_words paragraph |}).
      assert (H2 : held_words st2 = held_words st + count_words paragraph).
      { unfold held_words in *. unfold st2. cbn [items current].
        rewrite total_words_snoc. lia. }
      change (held_words (if Z.leb target_words (Z.of_nat (current_words st2))
                          then emit_current section_title st2 else st2)
              = held_words st + (count_words paragraph + 0)).
      destruct (Z.leb target_words (Z.of_nat (current_words st2)));
        [rewrite emit_current_words|]; lia.
Qed.

Lemma chunk_fold_words (paragraphs : list str) :
  forall st : chunk_state,
    held_words (fold_left (chunk_step section_title target_words max_words) paragraphs st)
    = held_words st + total_words (prose paragraphs).
Proof.
  induction paragraphs as [|p l IH]; intros st; cbn [fold_left].
  - change (total_words (prose [])) with 0. lia.
  - rewrite IH, chunk_step_words.
    change (p :: l) with ([p] ++ l). unfold prose. rewrite filter_app, total_words_app. lia.
Qed.

(** X6. [chunk_section] drops the structural heading stubs and nothing
    else: its units have together the words of the other paragraphs of the
    section, whatever the three bounds. *)
Theorem chunk_section_keeps_words (paragraphs : list str) :
  total_words (map snd (chunk_section section_title paragraphs target_words max_words min_words))
  = total_words
      (filter (fun p => negb (is_structural_heading_paragraph p)) paragraphs).
Proof.
  change (unit_words (chunk_section section_title paragraphs target_words max_words min_words)
          = total_words (prose paragraphs)).
  unfold chunk_section. rewrite merge_items_words. unfold chunk_items.
  set (st := fold_left _ _ _).
  pose proof (emit_current_words st) as He.
  assert (Hcur : total_words (current (emit_current section_title st)) = 0).
  { unfold emit_current. destruct (is_empty (current st)) eqn:E; [|reflexivity].
    apply is_empty_true in E. rewrite E. reflexivity. }
  unfold held_words in He at 1. rewrite Hcur in He.
  unfold st in He at 2. rewrite chunk_fold_words in He.
  unfold held_words in He. cbn [items current] in He.
  unfold unit_words at 2 in He. cbn [map] in He.
  change (total_words []) with 0 in He. lia.
Qed.

(** X7. Between two units that follow one another in what [chunk_section]
    returns, the merge pass has left nothing to do: the second has
    [min_words] words or more, or the two have together more than
    [max_words] words. *)
Theorem chunk_section_merged (paragraphs : list str)
    (before : list item) (prev cur : item) (after : list item) :
  chunk_section section_title paragraphs target_words max_words min_words
  = before ++ prev :: cur :: after ->
  (min_words <= Z.of_nat (count_words (snd cur)))%Z
  \/ (max_words < Z.of_nat (count_words (snd prev) + count_words (snd cur)))%Z.
Proof.
  intros Hcut. unfold chunk_section in Hcut.
  pose proof (merge_items_settled max_words min_words
                (chunk_items section_title paragraphs target_words max_words)) as H.
  rewrite Hcut in H. apply (adjacent_at _ _ _ _ _ H).
Qed.

(** A unit as [chunk_section] makes them: under the name of the section, and
    with a text that is not empty and has no space at either end. *)
Definition well_formed (it : item) : Prop := fst it = section_title /\ trimmed (snd it).

Hypothesis max_nonneg : (0 <= max_words)%Z.

Lemma emit_current_well_formed (st : chunk_state) :
  Forall well_formed (items st) -> Forall well_formed (items (emit_current section_title st)).
Proof.
  intros H. unfold emit_current. destruct (is_empty (current st)); [exact H|].
  cbn [items]. destruct (is_empty (strip (join [NL; NL] (current st)))) eqn:E; [exact H|].
  apply Forall_app. split; [exact H|]. constructor; [|constructor].
  split; [reflexivity|]. apply strip_trimmed, is_empty_false. exact E.
Qed.

Lemma chunk_step_well_formed (st : chunk_state) (paragraph : str) :
  Forall well_formed (items st) ->
  Forall well_formed (items (chunk_step section_title target_words max_words st paragraph)).
Proof.
  intros H. unfold chunk_step.
  destruct (is_structural_heading_paragraph paragraph);
    [apply emit_current_well_formed; exact H|].
  destruct (Z.ltb max_words (Z.of_nat (count_words paragraph))) eqn:Hbig.
  - cbn [items]. apply Forall_app. split; [apply emit_current_well_formed; exact H|].
    apply Z.ltb_lt in Hbig.
    assert (Hw : 0 < count_words paragraph) by lia.
    pose proof (split_oversized_paragraph_trimmed paragraph target_words max_words Hw) as Ht.
    apply Forall_forall. intros it Hit. apply in_map_iff in Hit as (piece & <- & Hp).
    rewrite Forall_forall in Ht. split; [reflexivity|apply Ht; exact Hp].
  - set (st1 := if negb (is_empty (current st))
                   && Z.ltb max_words (Z.of_nat (current_words st + count_words paragraph))
                then emit_current section_title st else st).
    assert (H1 : Forall well_formed (items st1))
      by (unfold st1; destruct (_ && _); [apply emit_current_well_formed|]; exact H).
    cbn [current_words].
    destruct (Z.leb target_words (Z.of_nat (current_words st1 + count_words paragraph)));
      [apply emit_current_well_formed|]; exact H1.
Qed.

Lemma merge_items_well_formed (its : list item) :
  Forall well_formed its -> Forall well_formed (merge_items max_words min_words its).
Proof.
  intros Hall. unfold merge_items.
  destruct its as [|first [|second rest]]; [exact Hall|exact Hall|].
  apply Forall_cons_iff in Hall as [Hfirst Hrest].
  assert (Hfold : forall l merged,
            Forall well_formed l ->
            Forall well_formed (fst merged) -> well_formed (snd merged) ->
            Forall well_formed (fst (fold_left (merge_step max_words min_words) l merged))
            /\ well_formed (snd (fold_left (merge_step max_words min_words) l merged))).
  { induction l as [|x l IH]; intros merged Hl Hb Hlast; [split; assumption|].
    apply Forall_cons_iff in Hl as [Hx Hl]. cbn [fold_left].
    destruct merged as [before [prev_sec prev_text]]. destruct x as [sec text0].
    cbn [fst snd] in *.
    apply IH; [exact Hl| |]; unfold merge_step;
      destruct (Z.ltb (Z.of_nat (count_words text0)) min_words
                && Z.leb (Z.of_nat (count_words prev_text + count_words text0)) max_words);
      cbn [fst snd]; try assumption.
    - apply Forall_app. split; [exact Hb|]. constructor; [exact Hlast|constructor].
    - destruct Hlast as [Hsec Htrim]. cbn [fst snd] in *. split; [exact Hsec|].
      apply strip_trimmed, strip_of_solid.
      destruct (trimmed_ends Htrim) as [Hsolid _].
      destruct prev_text as [|c r]; [contradiction|exact Hsolid]. }
  destruct (Hfold (second :: rest) ([], first) Hrest (Forall_nil _) Hfirst) as [Hb Hl].
  destruct (fold_left _ _ _) as [before last]. cbn [fst snd] in *.
  apply Forall_app. split; [exact Hb|]. constructor; [exact Hl|constructor].
Qed.

(** X8. For a bound [max_words] that is not negative, every unit of
    [chunk_section] stands under the name of the section, and its text is
    not empty and has no space at either end. *)
Theorem chunk_section_well_formed (paragraphs : list str) :
  Forall (fun it : item => fst it = section_title /\ snd it <> [] /\ strip (snd it) = snd it)
    (chunk_section section_title paragraphs target_words max_words min_words).
Proof.
  assert (H : Forall well_formed
                (chunk_section section_title paragraphs target_words max_words min_words)).
  { unfold chunk_section. apply merge_items_well_formed. unfold chunk_items.
    apply emit_current_well_formed.
    assert (Hinv : forall st, Forall well_formed (items st) ->
              Forall well_formed
                (items (fold_left (chunk_step section_title target_words max_words)
                          paragraphs st))).
    { induction paragraphs as [|p l IH]; intros st Hst; [exact Hst|].
      cbn [fold_left]. apply IH, chunk_step_well_formed, Hst. }
    apply Hinv. constructor. }
  eapply Forall_impl; [|exact H]. intros it [Hsec [Hne Hfix]]. repeat split; assumption.
Qed.

End ChunkUnits.

(** ** The records of a run *)

(** A text made of spaces normalises to the empty text. *)
Lemma normalize_text_blank (raw : str) :
  Forall (fun c => isspace c = true) raw -> normalize_text raw = [].
Proof.
  intros Hraw. unfold normalize_text.
  set (t2 := replace [BOM] [] (replace [CR] [NL] (replace [CR; NL] [NL] raw))).
  assert (H2 : Forall (fun c => isspace c = true) t2).
  { unfold t2, replace. repeat apply Forall_replace_go; try exact Hraw; repeat constructor. }
  assert (H3 : strip_gutenberg_boilerplate t2 = []).
  { unfold strip_gutenberg_boilerplate. apply strip_nil.
    destruct (GUTENBERG_START_RE t2) as [[b e]|];
      destruct (GUTENBERG_END_RE t2) as [[b' e']|];
      repeat first [apply Forall_firstn | apply Forall_skipn]; exact H2. }
  rewrite H3. reflexivity.
Qed.

Section Records.

Context {U : UnicodeDB} {F : Type} {FL : PyFloat F} {R : PyRandom}.

Variable load_work_text : WorkSpec.t -> result str.
Variables target_words max_words min_words min_section_words min_unit_words : Z.

Local Notation build :=
  (build_records load_work_text target_words max_words min_words
     min_section_words min_unit_words).
Local Notation loop :=
  (works_loop load_work_text target_words max_words min_words
     min_section_words min_unit_words).

(** The record of the [n]-th unit of a work: the fields of the work, the
    title with the section and the number, and the counts and the scores of
    its own text. *)
Definition made_from (work : WorkSpec.t) (n : nat) (r : UnitRecord F) : Prop :=
  title r = WorkSpec.author work ++ lit " - " ++ WorkSpec.title work ++ lit " - "
            ++ section r ++ lit " (" ++ str_of_nat n ++ lit ")"
  /\ author r = WorkSpec.author work
  /\ work_title r = WorkSpec.title work
  /\ work_id r = WorkSpec.work_id work
  /\ domain r = WorkSpec.domain work
  /\ unit_type r = WorkSpec.unit_type work
  /\ tags r = WorkSpec.tags work
  /\ words r = count_words (text r)
  /\ sentences r = sentence_count (text r)
  /\ (exists fk, flesch_kincaid_grade (text r) = Ok fk /\ fk_grade r = fround fk 1)
  /\ (exists poly, pct_polysyllabic (text r) = Ok poly /\ pct_poly r = fround poly 4)
  /\ (exists burden,
        factual_burden_score (text r) = Ok burden /\ factual_burden r = fround burden 4).

Lemma record_of_chunk_made (work : WorkSpec.t) (sec_name chunk_text : str) (n : nat) :
  exists r, record_of_chunk work sec_name chunk_text n = Ok r
            /\ made_from work n r /\ text r = chunk_text /\ section r = sec_name.
Proof.
  unfold record_of_chunk.
  destruct (flesch_kincaid_grade_total chunk_text) as (fk & Hfk).
  destruct (pct_polysyllabic_total chunk_text) as (poly & Hpoly).
  destruct (factual_burden_score_total chunk_text) as (burden & Hburden).
  rewrite Hfk, Hpoly, Hburden. cbn [bind].
  eexists. split; [reflexivity|].
  unfold made_from.
  cbn [title text domain fk_grade words sentences author work_title work_id unit_type tags
       section pct_poly factual_burden].
  repeat split; try reflexivity.
  - exists fk. split; [exact Hfk|reflexivity].
  - exists poly. split; [exact Hpoly|reflexivity].
  - exists burden. split; [exact Hburden|reflexivity].
Qed.

(** The units that a loop adds to the records: numbered from the index it
    starts with, each taken from a chunk that has [min_unit_words] words. *)
Definition numbered_from (work : WorkSpec.t) (n : nat) (new : list (UnitRecord F)) : Prop :=
  forall i r, nth_error new i = Some r -> made_from work (n + i) r.

Lemma numbered_from_app (work : WorkSpec.t) (n : nat) (l1 l2 : list (UnitRecord F)) :
  numbered_from work n l1 -> numbered_from work (n + length l1) l2 ->
  numbered_from work n (l1 ++ l2).
Proof.
  intros H1 H2 i r Hi.
  destruct (Nat.lt_ge_cases i (length l1)) as [Hlt|Hge].
  - rewrite nth_error_app1 in Hi by exact Hlt. apply H1. exact Hi.
  - rewrite nth_error_app2 in Hi by exact Hge.
    replace (n + i) with (n + length l1 + (i - length l1)) by lia.
    apply H2. exact Hi.
Qed.

Lemma chunks_loop_spec (work : WorkSpec.t) (chunks : list item) :
  forall st : list (UnitRecord F) * nat,
    exists new,
      chunks_loop min_unit_words work chunks st = Ok (fst st ++ new, snd st + length new)
      /\ numbered_from work (snd st) new
      /\ Forall (fun r => In (section r, text r) chunks) new.
Proof.
  induction chunks as [|[sec_name chunk_text] rest IH]; intros st.
  - exists []. cbn [chunks_loop length]. rewrite app_nil_r, Nat.add_0_r.
    split; [destruct st; reflexivity|]. split; [|constructor].
    intros i r Hi. destruct i; discriminate Hi.
  - cbn [chunks_loop].
    destruct (Z.ltb (Z.of_nat (count_words chunk_text)) min_unit_words).
    + destruct (IH st) as (new & Hrun & Hnum & Hin).
      exists new. split; [exact Hrun|]. split; [exact Hnum|].
      eapply Forall_impl; [|exact Hin]. intros r Hr. right. exact Hr.
    + destruct (record_of_chunk_made work sec_name chunk_text (snd st))
        as (r & Hr & Hmade & Htext & Hsec).
      rewrite Hr. cbn [bind].
      destruct (IH (fst st ++ [r], S (snd st))) as (new & Hrun & Hnum & Hin).
      cbn [fst snd] in *.
      exists (r :: new). split; [|split].
      * rewrite Hrun, <- app_assoc. cbn [app length]. f_equal. f_equal. lia.
      * apply (@numbered_from_app work (snd st) [r] new).
        -- intros i r' Hi. destruct i as [|i]; [|destruct i; discriminate Hi].
           injection Hi as <-. rewrite Nat.add_0_r. exact Hmade.
        -- cbn [length]. rewrite Nat.add_1_r. exact Hnum.
      * constructor; [left; rewrite Htext, Hsec; reflexivity|].
        eapply Forall_impl; [|exact Hin]. intros r' Hr'. right. exact Hr'.
Qed.

Lemma sections_loop_spec (work : WorkSpec.t) (sections : list section_t) :
  forall st : list (UnitRecord F) * nat,
    exists new,
      sections_loop target_words max_words min_words min_unit_words work sections st
      = Ok (fst st ++ new, snd st + length new)
      /\ numbered_from work (snd st) new
      /\ Forall (fun r => exists s, In s sections
                   /\ In (section r, text r)
                        (chunk_section (fst s) (snd s) target_words max_words min_words))
           new.
Proof.
  induction sections as [|[section_title section_paragraphs] rest IH]; intros st.
  - exists []. cbn [sections_loop length]. rewrite app_nil_r, Nat.add_0_r.
    split; [destruct st; reflexivity|]. split; [|constructor].
    intros i r Hi. destruct i; discriminate Hi.
  - cbn [sections_loop].
    destruct (chunks_loop_spec work
                (chunk_section section_title section_paragraphs
                   target_words max_words min_words) st) as (new1 & Hrun1 & Hnum1 & Hin1).
    rewrite Hrun1. cbn [bind].
    destruct (IH (fst st ++ new1, snd st + length new1)) as (new2 & Hrun2 & Hnum2 & Hin2).
    cbn [fst snd] in *.
    exists (new1 ++ new2). split; [|split].
    + rewrite Hrun2, <- app_assoc, length_app. f_equal. f_equal. lia.
    + apply numbered_from_app; assumption.
    + apply Forall_app. split.
      * eapply Forall_impl; [|exact Hin1]. intros r Hr.
        exists (section_title, section_paragraphs). split; [left; reflexivity|exact Hr].
      * eapply Forall_impl; [|exact Hin2]. intros r (s & Hs & Hr).
        exists s. split; [right; exact Hs|exact Hr].
Qed.

(** What one work gives: nothing when its text has no paragraph, and
    otherwise the units of its sections, numbered from 1. *)
Definition units_of (work : WorkSpec.t) (new : list (UnitRecord F)) : Prop :=
  exists raw,
    load_work_text work = Ok raw
    /\ numbered_from work 1 new
    /\ (to_paragraphs (normalize_text raw) = [] -> new = [])
    /\ Forall (fun r => exists sections s,
                 split_sections (to_paragraphs (normalize_text raw))
                   (WorkSpec.split_mode work) min_section_words = Ok sections
                 /\ In s sections
                 /\ In (section r, text r)
                      (chunk_section (fst s) (snd s) target_words max_words min_words))
         new.

(** The first work on which a run stops, and the exception: the one of the
    text source, or [ValueError] for a split mode that is not known on a
    text that has a paragraph. *)
Definition fails_on (work : WorkSpec.t) (e : exn) : Prop :=
  load_work_text work = Raise e
  \/ (e = ValueError
      /\ WorkSpec.split_mode work <> lit "headings"
      /\ WorkSpec.split_mode work <> lit "none"
      /\ exists raw, load_work_text work = Ok raw
                     /\ to_paragraphs (normalize_text raw) <> []).

Lemma split_sections_raise (paragraphs : list str) (split_mode : str) (e : exn) :
  split_sections paragraphs split_mode min_section_words = Raise e ->
  e = ValueError /\ split_mode <> lit "headings" /\ split_mode <> lit "none".
Proof.
  unfold split_sections.
  destruct (str_eqb split_mode (lit "headings")) eqn:E1;
    destruct (str_eqb split_mode (lit "none")) eqn:E2; cbn [orb negb].
  - discriminate.
  - destruct (indices_where _ _ _); [discriminate|].
    destruct (is_empty _); discriminate.
  - discriminate.
  - intros H. injection H as <-. apply str_eqb_neq in E1, E2. repeat split; assumption.
Qed.

Lemma works_loop_spec (works : list WorkSpec.t) :
  forall records : list (UnitRecord F),
    (exists groups,
        loop works records = Ok (records ++ concat groups)
        /\ Forall2 units_of works groups)
    \/ (exists before work after e,
          works = before ++ work :: after
          /\ loop works records = Raise e
          /\ fails_on work e
          /\ exists groups, Forall2 units_of before groups).
Proof.
  induction works as [|work rest IH]; intros records.
  - left. exists []. cbn [works_loop concat]. rewrite app_nil_r. split; [reflexivity|constructor].
  - cbn [works_loop].
    destruct (load_work_text work) as [raw|e] eqn:Hload; cbn [bind].
    2:{ right. exists [], work, rest, e. repeat split; [left; exact Hload|].
        exists []. constructor. }
    destruct (is_empty (to_paragraphs (normalize_text raw))) eqn:Hempty.
    + apply is_empty_true in Hempty.
      assert (Hunit : units_of work []).
      { exists raw. split; [exact Hload|]. split; [|split; [reflexivity|constructor]].
        intros i r Hi. destruct i; discriminate Hi. }
      destruct (IH records) as [(groups & Hrun & Hall)|
                                (before & w & after & e & Hcut & Hrun & Hfail & groups & Hall)].
      * left. exists ([] :: groups). cbn [concat app]. split; [exact Hrun|].
        constructor; assumption.
      * right. exists (work :: before), w, after, e. subst rest.
        split; [reflexivity|]. split; [exact Hrun|]. split; [exact Hfail|].
        exists ([] :: groups). constructor; assumption.
    + apply is_empty_false in Hempty.
      destruct (split_sections (to_paragraphs (normalize_text raw))
                  (WorkSpec.split_mode work) min_section_words) as [sections|e] eqn:Hsplit;
        cbn [bind].
      2:{ right. exists [], work, rest, e.
          destruct (@split_sections_raise _ _ _ Hsplit) as (-> & Hm1 & Hm2).
          repeat split; [|exists []; constructor].
          right. repeat split; try assumption. exists raw. split; assumption. }
      destruct (sections_loop_spec work sections (records, 1)) as (new & Hs & Hnum & Hin).
      rewrite Hs. cbn [bind fst snd].
      assert (Hunit : units_of work new).
      { exists raw. split; [exact Hload|]. split; [exact Hnum|]. split; [contradiction|].
        eapply Forall_impl; [|exact Hin]. intros r (s & Hsin & Hr).
        exists sections, s. repeat split; assumption. }
      destruct (IH (records ++ new)) as [(groups & Hrun & Hall)|
                                         (before & w & after & e & Hcut & Hrun & Hfail & groups & Hall)].
      * left. exists (new :: groups). cbn [concat]. rewrite app_assoc. split; [exact Hrun|].
        constructor; assumption.
      * right. exists (work :: before), w, after, e. subst rest.
        split; [reflexivity|]. split; [exact Hrun|]. split; [exact Hfail|].
        exists (new :: groups). constructor; assumption.
Qed.

(** Where a record of a run comes from. *)
Lemma build_records_source (works : list WorkSpec.t) (shuffle_seed : option Z)
    (records : list (UnitRecord F)) (r : UnitRecord F) :
  build works shuffle_seed = Ok records -> In r records ->
  exists work raw sections s n,
    In work works
    /\ load_work_text work = Ok raw
    /\ split_sections (to_paragraphs (normalize_text raw)) (WorkSpec.split_mode work)
         min_section_words = Ok sections
    /\ In s sections
    /\ In (section r, text r)
         (chunk_section (fst s) (snd s) target_words max_words min_words)
    /\ 1 <= n
    /\ made_from work n r.
Proof.
  intros Hrun Hin. unfold build_records in Hrun.
  destruct (works_loop_spec works []) as [(groups & Hloop & Hall)|
                                          (before & w & after & e & _ & Hloop & _)];
    rewrite Hloop in Hrun; cbn [bind app] in Hrun; [|discriminate].
  assert (Hr : In r (concat groups)).
  { destruct shuffle_seed; injection Hrun as <-; [apply (shuffle_in _ _ _ Hin)|exact Hin]. }
  clear Hrun Hloop Hin.
  induction Hall as [|work new works groups Hunit _ IH]; [contradiction|].
  cbn [concat] in Hr. apply in_app_or in Hr as [Hr|Hr].
  - destruct Hunit as (raw & Hload & Hnum & _ & Hsrc).
    rewrite Forall_forall in Hsrc. destruct (Hsrc r Hr) as (sections & s & Hsplit & Hs & Hchunk).
    apply In_nth_error in Hr as (i & Hi).
    exists work, raw, sections, s, (1 + i).
    split; [left; reflexivity|]. split; [exact Hload|]. split; [exact Hsplit|].
    split; [exact Hs|]. split; [exact Hchunk|]. split; [lia|apply (Hnum i r Hi)].
  - destruct (IH Hr) as (work' & raw & sections & s & n & Hw & Hrest).
    exists work', raw, sections, s, n. split; [right; exact Hw|exact Hrest].
Qed.

(** X9. A run without a shuffle returns the units work by work, in the order
    of the works; the units of a work are numbered from 1 without a gap (a
    chunk that is dropped for being too short takes no number), and each
    record has the fields of its work, the counts and the scores of its own
    text. *)
Theorem build_records_by_work (works : list WorkSpec.t) (records : list (UnitRecord F))
    (Hrun : build works None = Ok records) :
  exists groups : list (list (UnitRecord F)),
    records = concat groups
    /\ Forall2 (fun work new =>
                  forall i r, nth_error new i = Some r -> made_from work (S i) r)
         works groups.
Proof.
  unfold build_records in Hrun.
  destruct (works_loop_spec works []) as [(groups & Hloop & Hall)|
                                          (before & w & after & e & _ & Hloop & _)];
    rewrite Hloop in Hrun; cbn [bind app] in Hrun; [|discriminate].
  injection Hrun as <-. exists groups. split; [reflexivity|].
  eapply Forall2_impl; [|exact Hall].
  intros work new (raw & _ & Hnum & _) i r Hi. apply (Hnum i r Hi).
Qed.

(** X10. A run raises only what its text source raises, and [ValueError] on
    a work whose split mode is neither [headings] nor [none]; and this one
    only when the text of the work has a paragraph. The scoring and the
    chunking raise nothing. *)
Theorem build_records_raises (works : list WorkSpec.t) (shuffle_seed : option Z) (e : exn)
    (Hrun : build works shuffle_seed = Raise e) :
  exists work, In work works /\ fails_on work e.
Proof.
  unfold build_records in Hrun.
  destruct (works_loop_spec works []) as [(groups & Hloop & _)|
                                          (before & w & after & e' & Hcut & Hloop & Hfail & _)];
    rewrite Hloop in Hrun; cbn [bind] in Hrun.
  - destruct shuffle_seed; discriminate.
  - injection Hrun as <-. exists w. split; [|exact Hfail].
    rewrite Hcut. apply in_or_app. right. left. reflexivity.
Qed.

(** X11. A work whose text is made of spaces (the empty text among them)
    gives no record and stops no run, whatever its split mode: the run is
    the run over the other works. *)
Theorem build_records_skips_blank (before : list WorkSpec.t) (work : WorkSpec.t)
    (after : list WorkSpec.t) (raw : str) (shuffle_seed : option Z)
    (Hload : load_work_text work = Ok raw)
    (Hblank : Forall (fun c => isspace c = true) raw) :
  build (before ++ work :: after) shuffle_seed = build (before ++ after) shuffle_seed.
Proof.
  unfold build_records. f_equal.
  generalize (@nil (UnitRecord F)) as records.
  induction before as [|w before IH]; intros records; cbn [app works_loop].
  - rewrite Hload. cbn [bind]. rewrite (normalize_text_blank Hblank). reflexivity.
  - destruct (load_work_text w) as [raw'|e']; cbn [bind]; [|reflexivity].
    destruct (is_empty (to_paragraphs (normalize_text raw'))); [apply IH|].
    destruct (split_sections _ _ _) as [sections|e']; cbn [bind]; [|reflexivity].
    destruct (sections_loop _ _ _ _ _ _ _) as [st|e']; cbn [bind]; [apply IH|reflexivity].
Qed.

(** X12. Every record of a run, shuffled or not, is a unit that
    [chunk_section] makes of a section of one of the works, with the fields
    of that work. *)
Theorem build_records_provenance (works : list WorkSpec.t) (shuffle_seed : option Z)
    (records : list (UnitRecord F)) (r : UnitRecord F)
    (Hrun : build works shuffle_seed = Ok records) (Hin : In r records) :
  exists work raw sections s n,
    In work works
    /\ load_work_text work = Ok raw
    /\ split_sections (to_paragraphs (normalize_text raw)) (WorkSpec.split_mode work)
         min_section_words = Ok sections
    /\ In s sections
    /\ In (section r, text r)
         (chunk_section (fst s) (snd s) target_words max_words min_words)
    /\ 1 <= n
    /\ made_from work n r.
Proof.
  apply (@build_records_source _ _ _ _ Hrun Hin).
Qed.

(** A paragraph within the bound needs no split. *)
Lemma splits_to_size_small (paragraphs : list str) :
  (forall p, In p paragraphs -> Z.leb (Z.of_nat (count_words p)) max_words = true) ->
  Forall (splits_to_size max_words) paragraphs.
Proof.
  intros H. apply Forall_forall. intros p Hp Hbig.
  apply H, Z.leb_le in Hp. lia.
Qed.

(** X14. The ceiling of the units, where it holds. For a bound [max_words]
    that is not negative, every record of a run has [max_words] words or
    fewer, provided no text has a paragraph of more than [max_words] words
    with a sentence of more than [max_words] words. *)
Theorem build_records_max_words (works : list WorkSpec.t) (shuffle_seed : option Z)
    (records : list (UnitRecord F)) (r : UnitRecord F)
    (max_nonneg : (0 <= max_words)%Z)
    (Hsplit : forall work raw,
        In work works -> load_work_text work = Ok raw ->
        Forall (splits_to_size max_words) (to_paragraphs (normalize_text raw)))
    (Hrun : build works shuffle_seed = Ok records) (Hin : In r records) :
  (Z.of_nat (words r) <= max_words)%Z /\ words r = count_words (text r).
Proof.
  destruct (@build_records_source _ _ _ _ Hrun Hin)
    as (work & raw & sections & s & n & Hw & Hload & Hsec & Hs & Hchunk & _ & Hmade).
  destruct Hmade as (_ & _ & _ & _ & _ & _ & _ & Hwords & _).
  split; [|exact Hwords]. rewrite Hwords.
  assert (Hbody : Forall (splits_to_size max_words) (snd s)).
  { pose proof (Hsplit work raw Hw Hload) as Hall. rewrite Forall_forall in Hall.
    apply Forall_forall. intros p Hp. apply Hall.
    apply (@split_sections_incl _ _ _ _ _ _ _ _ _ Hsec Hs Hp). }
  pose proof (@chunk_section_fits U F FL target_words max_words min_words max_nonneg
                (fst s) (snd s) Hbody) as Hfits.
  rewrite Forall_forall in Hfits. apply (Hfits _ Hchunk).
Qed.

Hypothesis shuffle_indices_perm :
  forall (seed : Z) (n : nat), Permutation (shuffle_indices seed n) (seq 0 n).

(** X13. The shuffle reorders the records and does nothing else: a run with
    a seed stops on the exception of the run without one, or returns a
    permutation of its records. *)
Theorem build_records_shuffle (works : list WorkSpec.t) (seed : Z) :
  match build works None with
  | Ok records =>
      exists shuffled,
        build works (Some seed) = Ok shuffled
        /\ Permutation shuffled records
        /\ length shuffled = length records
  | Raise e => build works (Some seed) = Raise e
  end.
Proof.
  unfold build_records. destruct (loop works []) as [records|e]; cbn [bind]; [|reflexivity].
  exists (shuffle seed records).
  assert (Hperm : Permutation (shuffle seed records) records).
  { unfold shuffle.
    rewrite (Permutation_flat_map _ (shuffle_indices_perm seed (length records))).
    pose proof (flat_map_nth_error records []) as E. cbn [app length] in E.
    rewrite E. reflexivity. }
  split; [reflexivity|]. split; [exact Hperm|apply Permutation_length; exact Hperm].
Qed.

End Records.

(** ** The normalised text *)

Lemma sp_ok_no_tab (s : str) : sp_ok s -> Forall (fun c => c <> TAB) s.
Proof.
  induction s as [|c s IH]; [constructor|]. cbn [sp_ok]. intros (Hc & _ & Hs).
  constructor; [exact Hc|apply IH; exact Hs].
Qed.

Lemma sp_ok_no_pair (a b : str) : ~ sp_ok (a ++ [SP; SP] ++ b).
Proof.
  induction a as [|c a IH]; cbn [app sp_ok].
  - intros (_ & H & _). apply (H eq_refl). reflexivity.
  - intros (_ & _ & H). apply IH. exact H.
Qed.

Lemma nl_bounded_no_triple (a b : str) : forall k, ~ nl_bounded k (a ++ [NL; NL; NL] ++ b).
Proof.
  induction a as [|c a IH]; intros k; cbn [app].
  - intros H. cbn [nl_bounded] in H.
    change (N.eqb NL NL) with true in H. cbn iota in H.
    apply nl_bounded_le in H. lia.
  - cbn [nl_bounded]. destruct (N.eqb c NL).
    + apply IH.
    + intros [_ H]. apply (IH 0). exact H.
Qed.

(** X16. What [normalize_text] returns holds no carriage return, no
    byte-order mark and no tab, has no space at either end, and has
    nowhere two spaces or three newlines in a row. *)
Theorem normalize_text_clean (raw : str) :
  let t := normalize_text raw in
  ~ In CR t /\ ~ In BOM t /\ ~ In TAB t
  /\ strip t = t
  /\ (forall a b, t <> a ++ [SP; SP] ++ b)
  /\ (forall a b, t <> a ++ [NL; NL; NL] ++ b).
Proof.
  intros t. destruct (normalize_text_normal raw) as (Hcr & Hbom & Hstrip & Hsp & Hnl).
  fold t in Hcr, Hbom, Hstrip, Hsp, Hnl.
  assert (Hnot : forall (c : char) (s : str), Forall (fun x => x <> c) s -> ~ In c s).
  { intros c s H Hin. rewrite Forall_forall in H. apply (H c Hin). reflexivity. }
  split; [apply Hnot; exact Hcr|]. split; [apply Hnot; exact Hbom|].
  split; [apply Hnot, sp_ok_no_tab; exact Hsp|]. split; [exact Hstrip|]. split.
  - intros a b E. rewrite E in Hsp. apply (sp_ok_no_pair _ _ Hsp).
  - intros a b E. rewrite E in Hnl. apply (nl_bounded_no_triple _ _ _ Hnl).
Qed.

Lemma firstn_plus {A : Type} (n m : nat) (l : list A) :
  firstn (n + m) l = firstn n l ++ firstn m (skipn n l).
Proof.
  revert l. induction n as [|n IH]; intros l; [reflexivity|].
  destruct l as [|x l]; cbn [Nat.add firstn skipn app].
  - rewrite firstn_nil. reflexivity.
  - rewrite IH. reflexivity.
Qed.

(** X17. The END marker is searched in the whole text and cut in the text
    that the START marker has already shortened. With a START marker that
    ends at [e] and an END marker that begins at [b], not before [e],
    [strip_gutenberg_boilerplate] keeps the text between the two markers and
    the [e] characters that follow it, from the END marker on. *)
Theorem strip_gutenberg_boilerplate_keeps_past_end (text : str) (a e b c : nat)
    (Hstart : GUTENBERG_START_RE text = Some (a, e))
    (Hend : GUTENBERG_END_RE text = Some (b, c))
    (Horder : e <= b) :
  strip_gutenberg_boilerplate text = strip (slice e b text ++ slice b (b + e) text).
Proof.
  unfold strip_gutenberg_boilerplate. rewrite Hstart, Hend. f_equal.
  unfold slice.
  replace (b + e - b) with e by lia.
  replace b with ((b - e) + e) at 1 by lia.
  rewrite firstn_plus. f_equal.
  rewrite skipn_skipn. replace (b - e + e) with b by lia. reflexivity.
Qed.

(** ** The scores *)

Lemma vowel_groups_bound (token : str) :
  forall prev : bool,
    2 * vowel_groups prev token <= length token + (if prev then 0 else 1).
Proof.
  induction token as [|ch rest IH]; intros prev; cbn [vowel_groups length].
  - destruct prev; lia.
  - specialize (IH (in_chars VOWELS ch)).
    destruct (in_chars VOWELS ch); destruct prev; cbn [andb negb] in *; lia.
Qed.

(** X18. A word has one syllable or more for [count_syllables], and no more
    than half its characters, rounded up. *)
Theorem count_syllables_bounds (word : str) :
  1 <= count_syllables word /\ 2 * count_syllables word <= Nat.max 2 (length word + 1).
Proof.
  unfold count_syllables.
  set (token := strip_chars _ word).
  assert (Hlen : length token <= length word).
  { unfold token, strip_chars.
    etransitivity; [apply rstrip_length|apply lstrip_length]. }
  destruct (is_empty token); [lia|].
  pose proof (vowel_groups_bound token false) as Hg. cbn iota in Hg.
  destruct (ends_with (lit "e") token && Nat.ltb 1 (vowel_groups false token)); lia.
Qed.

Section Fractions.

Context {U : UnicodeDB} {F : Type} {FL : PyFloat F}.

Lemma count_if_le {A : Type} (p : A -> bool) (l : list A) : count_if p l <= length l.
Proof.
  unfold count_if. induction l as [|a l IH]; [apply le_n|].
  cbn [filter]. destruct (p a); cbn [length]; lia.
Qed.

(** X19. The two proportions of the scoring. On a text with a word,
    [pct_polysyllabic] is the quotient of a count of words by the number of
    the words, so a proportion between 0 and 1; [factual_burden_score] is
    the quotient of the sum of two counts of tokens by the number of the
    tokens, and a token that holds a digit and is capitalised counts twice:
    the score is between 0 and 2. *)
Theorem scoring_proportions (text : str) :
  (word_findall text <> [] ->
   exists poly : nat,
     poly <= count_words text
     /\ pct_polysyllabic text
        = Ok (of_ratio (Z.of_nat poly) (Z.of_nat (count_words text))))
  /\ (burden_tokens text <> [] ->
      exists digits capitals : nat,
        digits <= length (burden_tokens text)
        /\ capitals <= length (burden_tokens text)
        /\ factual_burden_score text
           = Ok (of_ratio (Z.of_nat (digits + capitals))
                   (Z.of_nat (length (burden_tokens text))))).
Proof.
  split.
  - intros Hne. unfold pct_polysyllabic.
    apply is_empty_false in Hne. rewrite Hne.
    exists (count_if (fun w => Nat.leb 3 (count_syllables w)) (word_findall text)).
    split; [apply count_if_le|].
    apply truediv_ok, length_nonzero. exact Hne.
  - intros Hne. unfold factual_burden_score.
    apply is_empty_false in Hne. rewrite Hne.
    exists (count_if (existsb uni_isdigit) (burden_tokens text)),
      (count_if (fun token => py_isupper (firstn 1 token) && py_islower (skipn 1 token))
         (burden_tokens text)).
    split; [apply count_if_le|]. split; [apply count_if_le|].
    apply truediv_ok, length_nonzero. exact Hne.
Qed.

End Fractions.

(** ** The share of an author in the tiers *)

Lemma filter_none {A : Type} (p : A -> bool) (l : list A) :
  Forall (fun a => p a = false) l -> filter p l = [].
Proof.
  induction 1 as [|a l Ha _ IH]; simpl; [reflexivity|]. rewrite Ha. exact IH.
Qed.

Lemma dict_get_absent {A : Type} (k : str) (d : list (str * list A)) :
  ~ In k (map fst d) -> dict_get k d = [].
Proof.
  induction d as [|[k0 rows] d IH]; cbn [map fst dict_get]; intros Hk; [reflexivity|].
  destruct (str_eqb k0 k) eqn:E.
  - apply str_eqb_eq in E. exfalso. apply Hk. left. exact E.
  - apply IH. intros H. apply Hk. right. exact H.
Qed.

(** In the values of a dict whose keys are those of its rows, the rows of
    one key are the rows of one value. *)
Lemma filter_concat_groups {A : Type} (key : A -> str) (f : list A -> list A) (a : str)
    (d : list (str * list A)) :
  NoDup (map fst d) ->
  (forall e, In e d -> Forall (fun r => key r = fst e) (snd e)) ->
  (forall g r, In r (f g) -> In r g) ->
  f [] = [] ->
  filter (fun r => str_eqb (key r) a) (concat (map f (map snd d))) = f (dict_get a d).
Proof.
  intros Hnd Hkeys Hsub Hnil.
  induction d as [|[k rows] d IH]; cbn [map fst snd concat dict_get].
  - symmetry. exact Hnil.
  - inversion Hnd as [|? ? Hnotin Hnd']; subst.
    assert (Hrows : Forall (fun r => key r = k) (f rows)).
    { pose proof (Hkeys (k, rows) (or_introl eq_refl)) as H. cbn [fst snd] in H.
      rewrite Forall_forall in H. apply Forall_forall. intros r Hr.
      apply H, (Hsub _ _ Hr). }
    assert (IH' : filter (fun r => str_eqb (key r) a) (concat (map f (map snd d)))
                  = f (dict_get a d)).
    { apply IH; [exact Hnd'|]. intros e He. apply Hkeys. right. exact He. }
    rewrite filter_app, IH'.
    destruct (str_eqb k a) eqn:E.
    + apply str_eqb_eq in E. subst k.
      rewrite (dict_get_absent _ _ Hnotin), Hnil, app_nil_r.
      apply filter_all. eapply Forall_impl; [|exact Hrows].
      cbn beta. intros r ->. apply str_eqb_refl.
    + rewrite filter_none; [reflexivity|].
      eapply Forall_impl; [|exact Hrows]. cbn beta. intros r ->. exact E.
Qed.

Section AuthorShare.

Context {F : Type} {FL : PyFloat F}.

Local Notation key := (fun r : @row F => author (snd r)).
Local Notation no_tiers := {| easy := @nil (@row F); medium := []; hard := [] |}.

(** The cuts of [assign_tiers] in the rows of an author that has three rows
    or more: the correction of the second cut never applies. *)
Lemma cuts_in_range (n : nat) :
  3 <= n ->
  1 <= n / 3
  /\ Nat.max 1 (n / 3) < Nat.max (Nat.max 1 (n / 3) + 1) (2 * n / 3)
  /\ Nat.max (Nat.max 1 (n / 3) + 1) (2 * n / 3) < n.
Proof.
  intros Hn.
  pose proof (Nat.div_mod_eq n 3) as H1.
  pose proof (Nat.mod_upper_bound n 3 ltac:(discriminate)) as H2.
  pose proof (Nat.div_mod_eq (2 * n) 3) as H3.
  pose proof (Nat.mod_upper_bound (2 * n) 3 ltac:(discriminate)) as H4.
  lia.
Qed.

Lemma tier_author_sizes (g : list (@row F)) :
  let t := tier_author no_tiers g in
  let n := length g in
  (n <= 1 -> length (easy t) = 0 /\ length (medium t) = 0 /\ length (hard t) = n)
  /\ (n = 2 -> length (easy t) = 0 /\ length (medium t) = 1 /\ length (hard t) = 1)
  /\ (3 <= n ->
      length (easy t) = Nat.max 1 (n / 3)
      /\ length (medium t)
         = Nat.max (Nat.max 1 (n / 3) + 1) (2 * n / 3) - Nat.max 1 (n / 3)
      /\ length (hard t) = n - Nat.max (Nat.max 1 (n / 3) + 1) (2 * n / 3)).
Proof.
  intros t n. unfold t, tier_author.
  pose proof (sort_rows_length g) as Hlen. fold n in Hlen.
  set (rows := sort_rows g) in *. rewrite Hlen.
  split; [|split].
  - intros Hn. destruct n as [|[|n]]; [|cbn; rewrite Hlen; repeat split|lia].
    apply length_zero_iff_nil in Hlen. rewrite Hlen. repeat split.
  - intros ->. cbn [Nat.eqb easy medium hard app]. unfold slice.
    rewrite !length_firstn, !length_skipn, Hlen. repeat split.
  - intros Hn. destruct (cuts_in_range Hn) as (H1 & H2 & H3).
    destruct (Nat.eqb n 1) eqn:E1; [apply Nat.eqb_eq in E1; lia|].
    destruct (Nat.eqb n 2) eqn:E2; [apply Nat.eqb_eq in E2; lia|].
    destruct (Nat.leb n (Nat.max (Nat.max 1 (n / 3) + 1) (2 * n / 3))) eqn:E3;
      [apply Nat.leb_le in E3; lia|].
    cbn [easy medium hard app]. unfold slice.
    rewrite !length_firstn, !length_skipn, Hlen. lia.
Qed.

Lemma tier_author_nil :
  easy (tier_author no_tiers []) = [] /\ medium (tier_author no_tiers []) = []
  /\ hard (tier_author no_tiers []) = [].
Proof. repeat split. Qed.

Lemma tier_author_in (g : list (@row F)) (y : @row F) :
  (In y (easy (tier_author no_tiers g)) -> In y g)
  /\ (In y (medium (tier_author no_tiers g)) -> In y g)
  /\ (In y (hard (tier_author no_tiers g)) -> In y g).
Proof.
  assert (H : In y (easy (tier_author no_tiers g) ++ medium (tier_author no_tiers g)
                    ++ hard (tier_author no_tiers g)) -> In y g).
  { intros H. rewrite (tier_author_cut g) in H.
    apply (Permutation_in _ (sort_rows_perm g)). exact H. }
  repeat split; intros Hy; apply H; apply in_or_app;
    [left|right; apply in_or_app; left|right; apply in_or_app; right]; exact Hy.
Qed.

(** The rows of one author in a tier are the band of that tier in the sorted
    rows of the author. *)
Lemma tier_rows_of_author (ranked : list (@row F)) (a : str) :
  let t := tier_rows ranked in
  let mine := fun l : list (@row F) => filter (fun r => str_eqb (author (snd r)) a) l in
  let band := tier_author no_tiers (rows_of key a ranked) in
  mine (easy t) = easy band /\ mine (medium t) = medium band /\ mine (hard t) = hard band.
Proof.
  intros t mine band. unfold t, tier_rows. rewrite fold_tier_author.
  cbn [easy medium hard app].
  destruct (group_rows_spec key ranked) as (Hnd & Hget & Hent).
  assert (Hkeys : forall e, In e (group_rows key ranked) ->
                            Forall (fun r => key r = fst e) (snd e)).
  { intros e He. rewrite (Hent e He). apply Forall_forall. intros r Hr.
    apply filter_In in Hr as [_ Hr]. apply str_eqb_eq in Hr. exact Hr. }
  unfold mine, band. rewrite <- (Hget a).
  repeat split.
  - apply (@filter_concat_groups _ key (fun g => easy (tier_author no_tiers g)) a _ Hnd Hkeys);
      [intros g r; apply (tier_author_in g r)|reflexivity].
  - apply (@filter_concat_groups _ key (fun g => medium (tier_author no_tiers g)) a _ Hnd Hkeys);
      [intros g r; apply (tier_author_in g r)|reflexivity].
  - apply (@filter_concat_groups _ key (fun g => hard (tier_author no_tiers g)) a _ Hnd Hkeys);
      [intros g r; apply (tier_author_in g r)|reflexivity].
Qed.

Lemma filter_map_snd (q : UnitRecord F -> bool) (l : list (@row F)) :
  filter q (map snd l) = map snd (filter (fun r => q (snd r)) l).
Proof.
  induction l as [|x l IH]; [reflexivity|].
  cbn [map filter]. destruct (q (snd x)); cbn [map]; rewrite IH; reflexivity.
Qed.

(** X20. The share of an author in each tier, on three records or more. An
    author with one record has it in the hard tier, and an author with two
    has one in the medium tier and one in the hard tier. An author with [n]
    records, three or more, has [cut1 = max(1, n // 3)] of them in the easy
    tier, [cut2 - cut1] in the medium tier and [n - cut2] in the hard tier
    for [cut2 = max(cut1 + 1, 2n // 3)]: one or more in each tier, [cut2]
    being always below [n]. *)
Theorem assign_tiers_author_share (records : list (UnitRecord F)) (a : str)
    (Hlen : 3 <= length records) :
  exists t,
    assign_tiers records = Ok t
    /\ let by_a := fun l : list (UnitRecord F) =>
                     length (filter (fun r => str_eqb (author r) a) l) in
       let n := by_a records in
       let cut1 := Nat.max 1 (n / 3) in
       let cut2 := Nat.max (cut1 + 1) (2 * n / 3) in
       (n = 1 -> by_a (easy t) = 0 /\ by_a (medium t) = 0 /\ by_a (hard t) = 1)
       /\ (n = 2 -> by_a (easy t) = 0 /\ by_a (medium t) = 1 /\ by_a (hard t) = 1)
       /\ (3 <= n ->
           by_a (easy t) = cut1 /\ by_a (medium t) = cut2 - cut1 /\ by_a (hard t) = n - cut2
           /\ 1 <= cut1 /\ cut1 < cut2 /\ cut2 < n).
Proof.
  exists (tiers_map snd (tier_rows (spec_ranked records))).
  split; [apply assign_tiers_spec; exact Hlen|].
  intros by_a n cut1 cut2.
  set (ranked := spec_ranked records).
  destruct (tier_rows_of_author ranked a) as (He & Hm & Hh).
  assert (Hby : forall l : list (@row F),
            by_a (map snd l) = length (filter (fun r => str_eqb (author (snd r)) a) l)).
  { intros l. unfold by_a. rewrite filter_map_snd, length_map. reflexivity. }
  assert (Hn : length (rows_of key a ranked) = n).
  { unfold n. rewrite <- (spec_ranked_records records). fold ranked. rewrite Hby. reflexivity. }
  set (band := tier_author no_tiers (rows_of key a ranked)) in *.
  assert (Ee : by_a (easy (tiers_map snd (tier_rows ranked))) = length (easy band)).
  { change (by_a (map snd (easy (tier_rows ranked))) = length (easy band)).
    rewrite Hby. apply (f_equal (@length _)). exact He. }
  assert (Em : by_a (medium (tiers_map snd (tier_rows ranked))) = length (medium band)).
  { change (by_a (map snd (medium (tier_rows ranked))) = length (medium band)).
    rewrite Hby. apply (f_equal (@length _)). exact Hm. }
  assert (Eh : by_a (hard (tiers_map snd (tier_rows ranked))) = length (hard band)).
  { change (by_a (map snd (hard (tier_rows ranked))) = length (hard band)).
    rewrite Hby. apply (f_equal (@length _)). exact Hh. }
  rewrite Ee, Em, Eh. unfold band.
  destruct (tier_author_sizes (rows_of key a ranked)) as (S1 & S2 & S3).
  rewrite Hn in S1, S2, S3.
  split; [|split].
  - intros E. destruct S1 as (Se & Sm & Sh); [lia|]. rewrite Se, Sm, Sh. repeat split. exact E.
  - exact S2.
  - intros E. destruct (S3 E) as (Se & Sm & Sh).
    destruct (cuts_in_range E) as (C1 & C2 & C3).
    unfold cut1, cut2. repeat split; try assumption; lia.
Qed.

End AuthorShare.

(** ** The fill of the pieces of a paragraph *)

Section SplitFill.

Variables target_words max_words : Z.

(** A chunk of sentences that is closed for a reason: it has reached
    [target_words], or the sentence that opens the next chunk would have
    taken it above [max_words]. *)
Definition filled (chunk next : list str) : Prop :=
  (target_words <= Z.of_nat (total_words chunk))%Z
  \/ (max_words < Z.of_nat (total_words chunk + count_words (hd [] next)))%Z.

(** The loop of [split_oversized_paragraph] between two sentences: the
    chunks that are closed and the one that is open follow one another
    filled, and after a flush the last chunk has reached the target. *)
Definition fill_inv (st : split_state) : Prop :=
  sp_words st = total_words (sp_current st)
  /\ match sp_current st with
     | [] => adjacent filled (sp_chunks st)
             /\ (forall before last, sp_chunks st = before ++ [last] ->
                                     (target_words <= Z.of_nat (total_words last))%Z)
     | _ :: _ => adjacent filled (sp_chunks st ++ [sp_current st])
     end.

Lemma adjacent_open {A : Type} (P : A -> A -> Prop) (l : list A) (b : A) :
  adjacent P l -> (forall before last, l = before ++ [last] -> P last b) ->
  adjacent P (l ++ [b]).
Proof.
  intros Hl Hlast. destruct l as [|x l] using rev_ind; [exact I|].
  apply adjacent_snoc; [exact Hl|]. apply (Hlast l x). reflexivity.
Qed.

Lemma flush_inv (chunks : list (list str)) (cur : list str) :
  cur <> [] -> adjacent filled (chunks ++ [cur]) ->
  (target_words <= Z.of_nat (total_words cur))%Z ->
  fill_inv {| sp_chunks := chunks ++ [cur]; sp_current := []; sp_words := 0 |}.
Proof.
  intros Hne Hadj Hreach. split; [reflexivity|]. cbn [sp_current sp_chunks].
  split; [exact Hadj|].
  intros before last E. apply app_inj_tail in E as [_ <-]. exact Hreach.
Qed.

Lemma split_step_fill (st : split_state) (sentence : str) :
  fill_inv st -> fill_inv (split_step target_words max_words st sentence).
Proof.
  destruct st as [chunks cur w]. intros [Hw Hinv]. cbn [sp_words sp_current sp_chunks] in *.
  subst w. unfold split_step. cbn [sp_words sp_current sp_chunks].
  destruct cur as [|s0 cur]; cbn [is_empty negb andb].
  - destruct Hinv as [Hadj Hlast]. change (total_words []) with 0.
    cbv beta zeta. cbn [sp_words sp_current sp_chunks app Nat.add].
    assert (Hopen : adjacent filled (chunks ++ [[sentence]])).
    { apply adjacent_open; [exact Hadj|].
      intros before last E. left. apply (Hlast _ _ E). }
    assert (Hone : total_words [sentence] = count_words sentence)
      by (rewrite total_words_cons; change (total_words []) with 0; lia).
    destruct (Z.leb target_words (Z.of_nat (count_words sentence))) eqn:Ht.
    + apply flush_inv; [discriminate|exact Hopen|]. rewrite Hone. apply Z.leb_le. exact Ht.
    + split; [cbn [sp_words sp_current]; symmetry; exact Hone|exact Hopen].
  - destruct (Z.ltb max_words (Z.of_nat (total_words (s0 :: cur) + count_words sentence)))
      eqn:Hover.
    + cbv beta zeta. cbn [sp_words sp_current sp_chunks]. apply Z.ltb_lt in Hover.
      assert (Hopen : adjacent filled ((chunks ++ [s0 :: cur]) ++ [[sentence]])).
      { apply adjacent_snoc; [exact Hinv|]. right. exact Hover. }
      assert (Hone : total_words [sentence] = count_words sentence)
        by (rewrite total_words_cons; change (total_words []) with 0; lia).
      destruct (Z.leb target_words (Z.of_nat (count_words sentence))) eqn:Ht.
      * apply flush_inv; [discriminate|exact Hopen|]. rewrite Hone. apply Z.leb_le. exact Ht.
      * split; [cbn [sp_words sp_current]; symmetry; exact Hone|exact Hopen].
    + cbv beta zeta. cbn [sp_words sp_current sp_chunks].
      assert (Hgrow : adjacent filled (chunks ++ [(s0 :: cur) ++ [sentence]])).
      { apply (@adjacent_last _ filled chunks (s0 :: cur)); [|exact Hinv].
        intros x Hx. exact Hx. }
      assert (Hsum : total_words ((s0 :: cur) ++ [sentence])
                     = total_words (s0 :: cur) + count_words sentence)
        by apply total_words_snoc.
      destruct (Z.leb target_words (Z.of_nat (total_words (s0 :: cur) + count_words sentence)))
        eqn:Ht.
      * apply flush_inv; [discriminate|exact Hgrow|]. rewrite Hsum. apply Z.leb_le. exact Ht.
      * split; [cbn [sp_words sp_current]; symmetry; exact Hsum|exact Hgrow].
Qed.

Lemma split_chunks_filled (sentences : list str) :
  adjacent filled (split_chunks target_words max_words sentences).
Proof.
  unfold split_chunks.
  assert (Hfold : forall l st, fill_inv st ->
            fill_inv (fold_left (split_step target_words max_words) l st)).
  { induction l as [|s l IH]; intros st Hst; [exact Hst|].
    cbn [fold_left]. apply IH, split_step_fill, Hst. }
  specialize (Hfold sentences {| sp_chunks := []; sp_current := []; sp_words := 0 |}).
  destruct Hfold as [_ Hinv].
  { split; [reflexivity|]. cbn [sp_current sp_chunks]. split; [exact I|].
    intros before last E. destruct before; discriminate E. }
  destruct (sp_current _) as [|s0 cur]; cbn [is_empty]; [apply Hinv|exact Hinv].
Qed.

(** X21. The pieces of [split_oversized_paragraph] are filled. The pieces
    are the chunks of the sentences of the paragraph, joined by spaces; and
    a chunk that is followed by another has [target_words] words or more,
    or has with the first sentence of the next chunk more than [max_words]
    words. *)
Theorem split_oversized_paragraph_filled (paragraph : str)
    (Hsentences : sentences_of paragraph <> []) :
  exists chunks : list (list str),
    concat chunks = sentences_of paragraph
    /\ split_oversized_paragraph paragraph target_words max_words
       = map (fun chunk => strip (join [SP] chunk)) chunks
    /\ forall before chunk next after,
         chunks = before ++ chunk :: next :: after ->
         (target_words <= Z.of_nat (total_words chunk))%Z
         \/ (exists first rest,
               next = first :: rest
               /\ (max_words < Z.of_nat (total_words chunk + count_words first))%Z).
Proof.
  destruct (split_chunks_spec target_words max_words (sentences_of paragraph)) as [Hcat Hall].
  exists (split_chunks target_words max_words (sentences_of paragraph)).
  split; [exact Hcat|]. split.
  - unfold split_oversized_paragraph.
    apply is_empty_false in Hsentences. rewrite Hsentences.
    rewrite filter_all; [reflexivity|].
    eapply Forall_impl; [|exact Hall].
    intros ch Hch. apply negb_true_iff, is_empty_false. exact Hch.
  - intros before chunk next after Hcut.
    pose proof (split_chunks_filled (sentences_of paragraph)) as Hadj.
    rewrite Hcut in Hadj, Hall. apply adjacent_at in Hadj.
    destruct Hadj as [Hreach|Hover]; [left; exact Hreach|right].
    rewrite Forall_forall in Hall.
    assert (Hne : next <> []).
    { apply Hall. apply in_or_app. right. right. left. reflexivity. }
    destruct next as [|first rest]; [contradiction|].
    exists first, rest. split; [reflexivity|exact Hover].
Qed.

End SplitFill.

(** * The properties on the executable instances *)

(** ** The laws of the rational instance *)

Lemma qc_zero_is_zero : @fis_zero Qc qc_float (@fzero Qc qc_float) = true.
Proof. reflexivity. Qed.

Lemma qc_ltb_asym (x y : Qc) : qc_ltb x y = true -> qc_ltb y x = false.
Proof.
  unfold qc_ltb. rewrite negb_true_iff, negb_false_iff. intros H.
  apply Qle_bool_iff, Qlt_le_weak, Qnot_le_lt.
  intros Hle. apply Qle_bool_iff in Hle. congruence.
Qed.

Lemma qc_ltb_cotrans (x y z : Qc) :
  qc_ltb x z = true -> qc_ltb x y = true \/ qc_ltb y z = true.
Proof.
  unfold qc_ltb. rewrite !negb_true_iff. intros Hzx.
  destruct (Qle_bool (this y) (this x)) eqn:Hyx; [right|left; reflexivity].
  destruct (Qle_bool (this z) (this y)) eqn:Hzy; [exfalso|reflexivity].
  apply Qle_bool_iff in Hyx, Hzy.
  assert (Hle : Qle_bool (this z) (this x) = true)
    by (apply Qle_bool_iff; apply (Qle_trans _ _ _ Hzy Hyx)).
  congruence.
Qed.

Lemma qc_sum_perm (l l' : list Qc) : Permutation l l' -> qc_sum l = qc_sum l'.
Proof.
  induction 1 as [|x l l' _ IH|x y l|l l' l'' _ IH1 _ IH2]; simpl.
  - reflexivity.
  - rewrite IH. reflexivity.
  - rewrite !Qcplus_assoc, (Qcplus_comm y x). reflexivity.
  - congruence.
Qed.

Lemma qc_mean_perm (l l' : list Qc) : Permutation l l' -> qc_mean l = qc_mean l'.
Proof.
  intros Hp. unfold qc_mean.
  rewrite (qc_sum_perm Hp), (Permutation_length Hp). reflexivity.
Qed.

Lemma qc_stdev_perm (l l' : list Qc) : Permutation l l' -> qc_stdev l = qc_stdev l'.
Proof.
  intros Hp. unfold qc_stdev.
  rewrite (qc_mean_perm Hp), (Permutation_length Hp).
  rewrite (qc_sum_perm (Permutation_map _ Hp)). reflexivity.
Qed.

Lemma qc_mean_exact (values : list Qc) :
  values <> [] ->
  @stat_mean Qc qc_float values = qc_mean (map (fun x : Qc => x) values).
Proof. intros _. rewrite map_id. reflexivity. Qed.

Lemma qc_stdev_sample (values : list Qc) :
  2 <= length values ->
  @stat_stdev Qc qc_float values
  = qc_sqrt_up (sample_variance (map (fun x : Qc => x) values)).
Proof. intros _. rewrite map_id. reflexivity. Qed.

Lemma sample_random_perm (seed : Z) (n : nat) :
  Permutation (@shuffle_indices sample_random seed n) (seq 0 n).
Proof.
  unfold shuffle_indices, sample_random.
  destruct (Nat.eqb n 3) eqn:En; [|reflexivity].
  apply Nat.eqb_eq in En. subst n. cbn [andb seq].
  destruct (Z.eqb seed 4).
  - apply Permutation_sym, (Permutation_rev [0; 1; 2]).
  - destruct (Z.eqb seed 0); [|reflexivity].
    apply perm_skip, perm_swap.
Qed.

(** ** A small corpus *)

(** The decision of [no_ties]. *)
Fixpoint all_pairs_b {A : Type} (p : A -> A -> bool) (l : list A) : bool :=
  match l with
  | [] => true
  | a :: l' => forallb (p a) l' && all_pairs_b p l'
  end.

Lemma all_pairs_b_sound {A : Type} (p : A -> A -> bool) (l : list A) :
  all_pairs_b p l = true -> ForallOrdPairs (fun a b => p a b = true) l.
Proof.
  induction l as [|a l IH]; simpl; intros H; constructor.
  - apply andb_true_iff in H as [H _]. apply Forall_forall.
    rewrite forallb_forall in H. exact H.
  - apply IH. apply andb_true_iff in H as [_ H]. exact H.
Qed.

Definition no_ties_b {F : Type} {FL : PyFloat F} (records : list (UnitRecord F)) : bool :=
  all_pairs_b
    (fun r r' =>
       negb (str_eqb (author r) (author r'))
       || flt (spec_difficulty records r) (spec_difficulty records r')
       || flt (spec_difficulty records r') (spec_difficulty records r))
    records.

Lemma no_ties_b_sound {F : Type} {FL : PyFloat F} (records : list (UnitRecord F)) :
  no_ties_b records = true -> no_ties records.
Proof.
  intros H. apply all_pairs_b_sound in H. unfold no_ties.
  revert H. apply ForallOrdPairs_impl. intros r r' _ _ Hb Hauth.
  apply orb_true_iff in Hb as [Hb|Hb]; [|right; exact Hb].
  apply orb_true_iff in Hb as [Hb|Hb]; [|left; exact Hb].
  apply negb_true_iff, str_eqb_neq in Hb. contradiction.
Qed.

Definition example_work (id : string) : WorkSpec.t := {|
  WorkSpec.work_id := lit id;
  WorkSpec.author := lit "Poe";
  WorkSpec.title := lit id;
  WorkSpec.source := {| SourceSpec.source_type := lit "file";
                        SourceSpec.gutenberg_id := None;
                        SourceSpec.file_path := Some (lit id);
                        SourceSpec.url := None |};
  WorkSpec.domain := lit "Prose";
  WorkSpec.unit_type := lit "prose";
  WorkSpec.tags := [];
  WorkSpec.split_mode := lit "headings"
|}.

(** The text source: three texts of growing difficulty for the works [w1],
    [w2] and [w3], and one and the same text for every other work. *)
Definition example_loader (w : WorkSpec.t) : result str :=
  if str_eqb (WorkSpec.work_id w) (lit "w1") then
    Ok (lit "the cat sat. the dog ran.")
  else if str_eqb (WorkSpec.work_id w) (lit "w2") then
    Ok (lit "a considerable melancholy pervaded everything.")
  else if str_eqb (WorkSpec.work_id w) (lit "w3") then
    Ok (lit "immediately afterwards extraordinary circumstances materialised unexpectedly.")
  else Ok (lit "the quick brown fox jumps").

(** A run with [target_words = 3], [min_words = 1], [min_section_words = 0]
    and [min_unit_words = 1]. *)
Definition example_run (works : list WorkSpec.t) (max_words : Z) (shuffle_seed : option Z)
    : result (list (UnitRecord Qc)) :=
  @build_records ascii_db Qc qc_float sample_random example_loader 3 max_words 1 0 1
    works shuffle_seed.

Definition records_of (r : result (list (UnitRecord Qc))) : list (UnitRecord Qc) :=
  match r with
  | Ok l => l
  | Raise _ => []
  end.

Definition tiers_of (records : list (UnitRecord Qc)) : Tiers (UnitRecord Qc) :=
  match @assign_tiers Qc qc_float records with
  | Ok t => t
  | Raise _ => {| easy := []; medium := []; hard := [] |}
  end.

Definition graded_works : list WorkSpec.t :=
  [example_work "w3"; example_work "w1"; example_work "w2"].

Definition graded_records : list (UnitRecord Qc) :=
  records_of (example_run graded_works 8 None).

Definition graded_records_shuffled : list (UnitRecord Qc) :=
  records_of (example_run graded_works 8 (Some 4%Z)).

(** Three works of one author with the same text: three units of the same
    difficulty. *)
Definition tied_works : list WorkSpec.t :=
  [example_work "t1"; example_work "t2"; example_work "t3"].

Definition tied_records : list (UnitRecord Qc) :=
  records_of (example_run tied_works 8 None).

Definition tied_records_shuffled : list (UnitRecord Qc) :=
  records_of (example_run tied_works 8 (Some 4%Z)).

Definition stub_paragraphs : list str :=
  [lit "Hello there friend."; lit "II"; lit "Bye now."].

Definition two_start_markers : str :=
  lit "*** START OF THE PROJECT GUTENBERG EBOOK A ***x*** START OF THE PROJECT GUTENBERG EBOOK B ***y".

Definition raw_example : str :=
  lit "*** START OF THE PROJECT GUTENBERG EBOOK A ***" ++ [CR; NL; CR; NL; BOM]
  ++ lit "Hello   world" ++ [TAB; CR; NL; CR; NL; CR; NL; CR] ++ lit "Bye  ".

(** A work whose split mode [split_sections] does not know. *)
Definition odd_work : WorkSpec.t := {|
  WorkSpec.work_id := lit "w1";
  WorkSpec.author := lit "Poe";
  WorkSpec.title := lit "w1";
  WorkSpec.source := {| SourceSpec.source_type := lit "file";
                        SourceSpec.gutenberg_id := None;
                        SourceSpec.file_path := Some (lit "w1");
                        SourceSpec.url := None |};
  WorkSpec.domain := lit "Prose";
  WorkSpec.unit_type := lit "prose";
  WorkSpec.tags := [];
  WorkSpec.split_mode := lit "chapters"
|}.

(** A text of spaces, and the text source that has it for the work [blank]. *)
Definition blank_text : str := lit "  " ++ [NL; TAB] ++ lit " ".

Definition blank_loader (w : WorkSpec.t) : result str :=
  if str_eqb (WorkSpec.work_id w) (lit "blank") then Ok blank_text else example_loader w.

(** Two chapters under their headings. *)
Definition titled_paragraphs : list str :=
  [lit "Chapter One"; lit "the cat sat."; lit "Chapter Two"; lit "the dog ran."].

Definition titled_sections : list section_t :=
  [(lit "Chapter One", [lit "the cat sat."]); (lit "Chapter Two", [lit "the dog ran."])].

(** A text between its two markers. *)
Definition marked_text : str :=
  lit "*** START OF THE PROJECT GUTENBERG EBOOK A ***body*** END OF THE PROJECT GUTENBERG EBOOK A ***tail".

(** The first record of a list, for a list that has one. *)
Definition first_record (records : list (UnitRecord Qc)) : UnitRecord Qc :=
  hd {| title := []; text := []; domain := []; fk_grade := Q2Qc 0; words := 0;
        sentences := 0; author := []; work_title := []; work_id := []; unit_type := [];
        tags := []; section := []; pct_poly := Q2Qc 0; factual_burden := Q2Qc 0 |}
     records.

(** A rational as its numerator and its denominator, and the same for the
    difficulties of a ranked list and for a list of z-scores. *)
Definition fraction_of (q : Qc) : Z * positive := (Qnum (this q), Qden (this q)).

Definition difficulties (ranked : result (list (Qc * UnitRecord Qc))) : list (Z * positive) :=
  match ranked with
  | Ok l => map (fun x => fraction_of (fst x)) l
  | Raise _ => []
  end.

Definition fractions (zs : result (list Qc)) : list (Z * positive) :=
  match zs with
  | Ok l => map fraction_of l
  | Raise _ => []
  end.

(** ** The theorems at work *)

#[local] Existing Instance ascii_db.
#[local] Existing Instance qc_float.
#[local] Existing Instance sample_random.

Lemma z_score_length_where_statistics_returns_witness :
  ([Q2Qc 1; Q2Qc 2; Q2Qc 3] <> [] ->
   exists m, checked_mean [Q2Qc 1; Q2Qc 2; Q2Qc 3] = Ok m)
  /\ (1 < length [Q2Qc 1; Q2Qc 2; Q2Qc 3] ->
      exists s, checked_stdev [Q2Qc 1; Q2Qc 2; Q2Qc 3] = Ok s)
  /\ exists zs,
       @z_score_on Qc qc_float checked_mean checked_stdev [Q2Qc 1; Q2Qc 2; Q2Qc 3] = Ok zs
       /\ length zs = length [Q2Qc 1; Q2Qc 2; Q2Qc 3]
       /\ ([Q2Qc 1; Q2Qc 2; Q2Qc 3] = [] -> zs = []).
Proof.
  assert (H1 : [Q2Qc 1; Q2Qc 2; Q2Qc 3] <> [] ->
               exists m, checked_mean [Q2Qc 1; Q2Qc 2; Q2Qc 3] = Ok m)
    by (intros _; exists (qc_mean [Q2Qc 1; Q2Qc 2; Q2Qc 3]); vm_compute; reflexivity).
  assert (H2 : 1 < length [Q2Qc 1; Q2Qc 2; Q2Qc 3] ->
               exists s, checked_stdev [Q2Qc 1; Q2Qc 2; Q2Qc 3] = Ok s)
    by (intros _; exists (qc_stdev [Q2Qc 1; Q2Qc 2; Q2Qc 3]); vm_compute; reflexivity).
  split; [exact H1|]. split; [exact H2|].
  exact (@z_score_length_where_statistics_returns Qc qc_float checked_mean checked_stdev
           [Q2Qc 1; Q2Qc 2; Q2Qc 3] H1 H2).
Defined.

Lemma z_score_overflow_counterexample :
  fraction_of (qc_mean [DBL_MAX; Qcopp DBL_MAX]) = (0%Z, 1%positive)
  /\ checked_mean [DBL_MAX; Qcopp DBL_MAX] = Ok (qc_mean [DBL_MAX; Qcopp DBL_MAX])
  /\ qc_ltb DBL_MAX (qc_stdev [DBL_MAX; Qcopp DBL_MAX]) = true
  /\ checked_stdev [DBL_MAX; Qcopp DBL_MAX] = Raise OverflowError
  /\ @z_score_on Qc qc_float checked_mean checked_stdev [DBL_MAX; Qcopp DBL_MAX]
     = Raise OverflowError
  /\ ~ (exists zs,
          @z_score_on Qc qc_float checked_mean checked_stdev [DBL_MAX; Qcopp DBL_MAX] = Ok zs
          /\ length zs = length [DBL_MAX; Qcopp DBL_MAX]).
Proof.
  assert (H : @z_score_on Qc qc_float checked_mean checked_stdev [DBL_MAX; Qcopp DBL_MAX]
              = Raise OverflowError) by (vm_compute; reflexivity).
  split; [vm_compute; reflexivity|]. split; [vm_compute; reflexivity|].
  split; [vm_compute; reflexivity|]. split; [vm_compute; reflexivity|].
  split; [exact H|].
  intros (zs & Hzs & _). rewrite H in Hzs. discriminate Hzs.
Qed.

Lemma assign_tiers_sample_difficulty_witness :
  @fis_zero Qc qc_float (@fzero Qc qc_float) = true
  /\ 3 <= length graded_records
  /\ @rank_records Qc qc_float graded_records
     = Ok (ranked_with (fun x : Qc => x) (fun q : Qc => q) qc_sqrt_up sample_variance
             graded_records)
  /\ @assign_tiers Qc qc_float graded_records
     = Ok (tiers_map snd
             (tier_rows
                (ranked_with (fun x : Qc => x) (fun q : Qc => q) qc_sqrt_up sample_variance
                   graded_records))).
Proof.
  assert (Hzero : @fis_zero Qc qc_float (@fzero Qc qc_float) = true) by reflexivity.
  assert (Hlen : 3 <= length graded_records) by (vm_compute; apply le_n).
  split; [exact Hzero|]. split; [exact Hlen|].
  destruct (@assign_tiers_sample_difficulty Qc qc_float
              (fun x : Qc => x) (fun q : Qc => q) qc_sqrt_up
              qc_mean_exact qc_stdev_sample Hzero graded_records Hlen)
    as (H1 & H2 & _).
  split; [exact H1|exact H2].
Defined.

Lemma population_z_score_counterexample :
  fractions (@z_score Qc qc_float [Q2Qc 1; Q2Qc 2; Q2Qc 3])
  = [((-1)%Z, 1%positive); (0%Z, 1%positive); (1%Z, 1%positive)]
  /\ fraction_of (sample_variance [Q2Qc 1; Q2Qc 2; Q2Qc 3]) = (1%Z, 1%positive)
  /\ fraction_of (population_variance [Q2Qc 1; Q2Qc 2; Q2Qc 3]) = (2%Z, 3%positive)
  /\ fraction_of (Qcminus (Q2Qc 3) (qc_mean [Q2Qc 1; Q2Qc 2; Q2Qc 3])) = (1%Z, 1%positive)
  /\ Qcmult (Qcmult (Q2Qc 1) (Q2Qc 1)) (population_variance [Q2Qc 1; Q2Qc 2; Q2Qc 3])
     <> Qcmult (Qcminus (Q2Qc 3) (qc_mean [Q2Qc 1; Q2Qc 2; Q2Qc 3]))
          (Qcminus (Q2Qc 3) (qc_mean [Q2Qc 1; Q2Qc 2; Q2Qc 3]))
  /\ 3 <= length graded_records
  /\ difficulties (@rank_records Qc qc_float graded_records)
     <> difficulties
          (Ok (ranked_with (fun x : Qc => x) (fun q : Qc => q) qc_sqrt_up population_variance
                 graded_records)).
Proof.
  split; [vm_compute; reflexivity|]. split; [vm_compute; reflexivity|].
  split; [vm_compute; reflexivity|]. split; [vm_compute; reflexivity|].
  split; [intros E; apply (f_equal fraction_of) in E; vm_compute in E; discriminate E|].
  split; [vm_compute; apply le_n|].
  intros E. vm_compute in E. discriminate E.
Qed.

Lemma assign_tiers_monotone_witness :
  3 <= length graded_records
  /\ (forall e m,
        In e (easy (tier_rows (spec_ranked graded_records))) ->
        In m (medium (tier_rows (spec_ranked graded_records))) ->
        author (snd e) = author (snd m) -> qc_ltb (fst m) (fst e) = false)
  /\ (forall m h,
        In m (medium (tier_rows (spec_ranked graded_records))) ->
        In h (hard (tier_rows (spec_ranked graded_records))) ->
        author (snd m) = author (snd h) -> qc_ltb (fst h) (fst m) = false).
Proof.
  assert (Hlen : 3 <= length graded_records) by (vm_compute; apply le_n).
  split; [exact Hlen|].
  destruct (@assign_tiers_monotone Qc qc_float qc_ltb_asym qc_ltb_cotrans
              graded_records Hlen) as (_ & _ & H1 & H2 & _).
  split; [exact H1|exact H2].
Defined.

Lemma split_oversized_paragraph_keeps_text_witness :
  lit "a b c. d e! f g h i? j. k" <> []
  /\ split_oversized_paragraph (lit "a b c. d e! f g h i? j. k") 3 4
     = [lit "a b c."; lit "d e!"; lit "f g h i?"; lit "j. k"]
  /\ total_words (split_oversized_paragraph (lit "a b c. d e! f g h i? j. k") 3 4)
     = count_words (lit "a b c. d e! f g h i? j. k").
Proof.
  assert (Hne : lit "a b c. d e! f g h i? j. k" <> []) by discriminate.
  split; [exact Hne|]. split; [reflexivity|].
  destruct (@split_oversized_paragraph_keeps_text
              (lit "a b c. d e! f g h i? j. k") 3 4 Hne) as (_ & _ & _ & _ & H).
  exact H.
Defined.

Lemma chunk_section_at_target_witness :
  (1 <= 6)%Z /\ (6 <= 8)%Z /\ (1 <= 3)%Z
  /\ Forall (fun p => @is_structural_heading_paragraph ascii_db Qc qc_float p = false)
       [lit "a b c."; lit "d e f."]
  /\ Z.of_nat (total_words [lit "a b c."; lit "d e f."]) = 6%Z
  /\ exists unit_text,
       @chunk_section ascii_db Qc qc_float (lit "S") [lit "a b c."; lit "d e f."] 6 8 3
       = [(lit "S", unit_text)]
       /\ Z.of_nat (count_words unit_text) = 6%Z
       /\ (Forall trimmed [lit "a b c."; lit "d e f."] ->
           unit_text = join [NL; NL] [lit "a b c."; lit "d e f."]).
Proof.
  assert (H1 : (1 <= 6)%Z) by discriminate.
  assert (H2 : (6 <= 8)%Z) by discriminate.
  assert (H3 : (1 <= 3)%Z) by discriminate.
  assert (H4 : Forall (fun p => @is_structural_heading_paragraph ascii_db Qc qc_float p = false)
                 [lit "a b c."; lit "d e f."])
    by (repeat constructor).
  assert (H5 : Z.of_nat (total_words [lit "a b c."; lit "d e f."]) = 6%Z) by reflexivity.
  repeat (split; [assumption|]).
  exact (@chunk_section_at_target ascii_db Qc qc_float (lit "S") 6 8 3 H1 H2 H3
           [lit "a b c."; lit "d e f."] H4 H5).
Defined.

Lemma chunk_section_stub_counterexample :
  total_words stub_paragraphs = 6
  /\ @chunk_section ascii_db Qc qc_float (lit "S") stub_paragraphs 6 8 1
     = [(lit "S", lit "Hello there friend."); (lit "S", lit "Bye now.")]
  /\ @chunk_section ascii_db Qc qc_float (lit "S") stub_paragraphs 6 8 1200
     = [(lit "S", lit "Hello there friend." ++ [NL; NL] ++ lit "Bye now.")]
  /\ count_words (lit "Hello there friend." ++ [NL; NL] ++ lit "Bye now.") = 5.
Proof. repeat split. Qed.

Lemma normalize_text_idempotent_without_marker_witness :
  GUTENBERG_START_RE (normalize_text raw_example) = None
  /\ GUTENBERG_END_RE (normalize_text raw_example) = None
  /\ normalize_text raw_example = lit "Hello world " ++ [NL; NL] ++ lit "Bye"
  /\ normalize_text (normalize_text raw_example) = normalize_text raw_example.
Proof.
  assert (H1 : GUTENBERG_START_RE (normalize_text raw_example) = None) by reflexivity.
  assert (H2 : GUTENBERG_END_RE (normalize_text raw_example) = None) by reflexivity.
  split; [exact H1|]. split; [exact H2|]. split; [reflexivity|].
  exact (@normalize_text_idempotent_without_marker raw_example H1 H2).
Defined.

Lemma normalize_text_two_markers_counterexample :
  normalize_text two_start_markers
  = lit "x*** START OF THE PROJECT GUTENBERG EBOOK B ***y"
  /\ normalize_text (normalize_text two_start_markers) = lit "y"
  /\ normalize_text (normalize_text two_start_markers) <> normalize_text two_start_markers.
Proof.
  split; [reflexivity|]. split; [reflexivity|]. discriminate.
Qed.

Lemma shuffle_keeps_tiers_without_ties_witness :
  @build_records ascii_db Qc qc_float sample_random example_loader 3 8 1 0 1
    graded_works None = Ok graded_records
  /\ @build_records ascii_db Qc qc_float sample_random example_loader 3 8 1 0 1
       graded_works (Some 4%Z) = Ok graded_records_shuffled
  /\ graded_records_shuffled = rev graded_records
  /\ @assign_tiers Qc qc_float graded_records = Ok (tiers_of graded_records)
  /\ @assign_tiers Qc qc_float graded_records_shuffled = Ok (tiers_of graded_records_shuffled)
  /\ no_ties graded_records
  /\ tiers_agree (tiers_of graded_records) (tiers_of graded_records_shuffled).
Proof.
  assert (H1 : @build_records ascii_db Qc qc_float sample_random example_loader 3 8 1 0 1
                 graded_works None = Ok graded_records)
    by (vm_compute; reflexivity).
  assert (H2 : @build_records ascii_db Qc qc_float sample_random example_loader 3 8 1 0 1
                 graded_works (Some 4%Z) = Ok graded_records_shuffled)
    by (vm_compute; reflexivity).
  assert (H3 : @assign_tiers Qc qc_float graded_records = Ok (tiers_of graded_records))
    by (vm_compute; reflexivity).
  assert (H4 : @assign_tiers Qc qc_float graded_records_shuffled
               = Ok (tiers_of graded_records_shuffled))
    by (vm_compute; reflexivity).
  assert (H5 : no_ties graded_records)
    by (apply no_ties_b_sound; vm_compute; reflexivity).
  split; [exact H1|]. split; [exact H2|]. split; [vm_compute; reflexivity|].
  split; [exact H3|]. split; [exact H4|]. split; [exact H5|].
  exact (@shuffle_keeps_tiers_without_ties ascii_db Qc qc_float sample_random
           qc_ltb_asym qc_ltb_cotrans qc_mean_perm qc_stdev_perm sample_random_perm
           example_loader 3 8 1 0 1 graded_works None (Some 4%Z)
           graded_records graded_records_shuffled
           (tiers_of graded_records) (tiers_of graded_records_shuffled)
           H1 H2 H3 H4 H5).
Defined.

(** Two lists with the same units that each show one value under [f] show
    the same value. *)
Lemma same_units_one {A B : Type} (f : A -> B) (l l' : list A) (x y : B) :
  map f l = [x] -> map f l' = [y] -> same_units l l' -> x = y.
Proof.
  intros Hl Hl' Hsame.
  destruct l as [|a [|a' l]]; try discriminate Hl. injection Hl as <-.
  assert (Hin : In (f a) (map f l')) by (apply in_map, Hsame; left; reflexivity).
  rewrite Hl' in Hin. destruct Hin as [E|[]]. symmetry. exact E.
Qed.

Lemma shuffle_changes_tiers_counterexample :
  example_run tied_works 8 None = Ok tied_records
  /\ example_run tied_works 8 (Some 4%Z) = Ok tied_records_shuffled
  /\ @assign_tiers Qc qc_float tied_records = Ok (tiers_of tied_records)
  /\ @assign_tiers Qc qc_float tied_records_shuffled = Ok (tiers_of tied_records_shuffled)
  /\ map (@title Qc) (easy (tiers_of tied_records)) = [lit "Poe - t1 - Full text (1)"]
  /\ map (@title Qc) (easy (tiers_of tied_records_shuffled)) = [lit "Poe - t3 - Full text (1)"]
  /\ ~ tiers_agree (tiers_of tied_records) (tiers_of tied_records_shuffled).
Proof.
  assert (F1 : map (@title Qc) (easy (tiers_of tied_records))
               = [lit "Poe - t1 - Full text (1)"]) by (vm_compute; reflexivity).
  assert (F2 : map (@title Qc) (easy (tiers_of tied_records_shuffled))
               = [lit "Poe - t3 - Full text (1)"]) by (vm_compute; reflexivity).
  split; [vm_compute; reflexivity|]. split; [vm_compute; reflexivity|].
  split; [vm_compute; reflexivity|]. split; [vm_compute; reflexivity|].
  split; [exact F1|]. split; [exact F2|].
  intros (Heasy & _).
  pose proof (@same_units_one _ _ _ _ _ _ _ F1 F2 Heasy) as H.
  vm_compute in H. discriminate H.
Qed.

(** C1, where the code fails it. One paragraph of five words in one sentence,
    under [max_words = 4]: [split_oversized_paragraph] returns the sentence
    whole, and [build_records] emits a unit of five words. *)
Theorem build_records_unit_above_max_words :
  sentences_of (lit "the quick brown fox jumps") = [lit "the quick brown fox jumps"]
  /\ split_oversized_paragraph (lit "the quick brown fox jumps") 3 4
     = [lit "the quick brown fox jumps"]
  /\ map (@text Qc) (records_of (example_run [example_work "w0"] 4 None))
     = [lit "the quick brown fox jumps"]
  /\ map (@words Qc) (records_of (example_run [example_work "w0"] 4 None)) = [5]
  /\ exists r, example_run [example_work "w0"] 4 None = Ok [r]
               /\ (4 < Z.of_nat (count_words (text r)))%Z.
Proof.
  split; [vm_compute; reflexivity|]. split; [vm_compute; reflexivity|].
  split; [vm_compute; reflexivity|]. split; [vm_compute; reflexivity|].
  exists (hd (@Build_UnitRecord Qc [] [] [] (Q2Qc 0) 0 0 [] [] [] [] [] [] (Q2Qc 0) (Q2Qc 0))
             (records_of (example_run [example_work "w0"] 4 None))).
  split; vm_compute; reflexivity.
Qed.

(** ** The further properties at work *)

Lemma split_sections_shape_witness :
  @split_sections ascii_db Qc qc_float titled_paragraphs (lit "headings") 1 = Ok titled_sections
  /\ titled_sections <> []
  /\ Forall (fun s : section_t =>
       s = (lit "Full text", titled_paragraphs)
       \/ (snd s <> []
           /\ Forall (fun p => In p titled_paragraphs
                               /\ @looks_like_heading ascii_db Qc qc_float p = false) (snd s)
           /\ (1 <= Z.of_nat (count_words (join [NL; NL] (snd s))))%Z
           /\ (fst s = lit "Introduction"
               \/ (In (fst s) titled_paragraphs
                   /\ @looks_like_heading ascii_db Qc qc_float (fst s) = true
                   /\ @is_excluded_section_name ascii_db (fst s) = false))))
     titled_sections.
Proof.
  assert (H : @split_sections ascii_db Qc qc_float titled_paragraphs (lit "headings") 1
              = Ok titled_sections) by (vm_compute; reflexivity).
  split; [exact H|].
  exact (@split_sections_shape ascii_db Qc qc_float titled_paragraphs 1
           (lit "headings") titled_sections H).
Defined.

Lemma split_sections_in_order_witness :
  @split_sections ascii_db Qc qc_float titled_paragraphs (lit "headings") 1 = Ok titled_sections
  /\ exists ranges : list (nat * nat),
       map snd titled_sections
       = map (fun r => slice (fst r) (snd r) titled_paragraphs) ranges
       /\ Forall (fun r => fst r <= snd r <= length titled_paragraphs) ranges
       /\ StronglySorted (fun r r' : nat * nat => snd r <= fst r') ranges.
Proof.
  assert (H : @split_sections ascii_db Qc qc_float titled_paragraphs (lit "headings") 1
              = Ok titled_sections) by (vm_compute; reflexivity).
  split; [exact H|].
  exact (@split_sections_in_order ascii_db Qc qc_float titled_paragraphs 1
           (lit "headings") titled_sections H).
Defined.

Lemma chunk_section_merged_witness :
  @chunk_section ascii_db Qc qc_float (lit "S") [lit "a b c."; lit "d e f."] 3 8 1
  = [] ++ (lit "S", lit "a b c.") :: (lit "S", lit "d e f.") :: []
  /\ ((1 <= Z.of_nat (count_words (snd (lit "S", lit "d e f."))))%Z
      \/ (8 < Z.of_nat (count_words (snd (lit "S", lit "a b c."))
                        + count_words (snd (lit "S", lit "d e f."))))%Z).
Proof.
  assert (H : @chunk_section ascii_db Qc qc_float (lit "S") [lit "a b c."; lit "d e f."] 3 8 1
              = [] ++ (lit "S", lit "a b c.") :: (lit "S", lit "d e f.") :: [])
    by (vm_compute; reflexivity).
  split; [exact H|].
  exact (@chunk_section_merged ascii_db Qc qc_float (lit "S") 3 8 1
           [lit "a b c."; lit "d e f."] [] (lit "S", lit "a b c.") (lit "S", lit "d e f.") [] H).
Defined.

Lemma chunk_section_well_formed_witness :
  (0 <= 8)%Z
  /\ Forall (fun it : item => fst it = lit "S" /\ snd it <> [] /\ strip (snd it) = snd it)
       (@chunk_section ascii_db Qc qc_float (lit "S") stub_paragraphs 6 8 1).
Proof.
  assert (H : (0 <= 8)%Z) by discriminate.
  split; [exact H|].
  exact (@chunk_section_well_formed ascii_db Qc qc_float (lit "S") 6 8 1 H stub_paragraphs).
Defined.

Lemma build_records_by_work_witness :
  @build_records ascii_db Qc qc_float sample_random example_loader 3 8 1 0 1
    graded_works None = Ok graded_records
  /\ exists groups : list (list (UnitRecord Qc)),
       graded_records = concat groups
       /\ Forall2 (fun work new =>
                     forall i r, nth_error new i = Some r ->
                                 @made_from ascii_db Qc qc_float work (S i) r)
            graded_works groups.
Proof.
  assert (H : @build_records ascii_db Qc qc_float sample_random example_loader 3 8 1 0 1
                graded_works None = Ok graded_records)
    by (vm_compute; reflexivity).
  split; [exact H|].
  exact (@build_records_by_work ascii_db Qc qc_float sample_random example_loader 3 8 1 0 1
           graded_works graded_records H).
Defined.

Lemma build_records_raises_witness :
  @build_records ascii_db Qc qc_float sample_random example_loader 3 8 1 0 1
    [example_work "w2"; odd_work] None = Raise ValueError
  /\ exists work, In work [example_work "w2"; odd_work]
                  /\ fails_on example_loader work ValueError.
Proof.
  assert (H : @build_records ascii_db Qc qc_float sample_random example_loader 3 8 1 0 1
                [example_work "w2"; odd_work] None = Raise ValueError)
    by (vm_compute; reflexivity).
  split; [exact H|].
  exact (@build_records_raises ascii_db Qc qc_float sample_random example_loader 3 8 1 0 1
           [example_work "w2"; odd_work] None ValueError H).
Defined.

Lemma build_records_skips_blank_witness :
  blank_loader (example_work "blank") = Ok blank_text
  /\ Forall (fun c => isspace c = true) blank_text
  /\ @build_records ascii_db Qc qc_float sample_random blank_loader 3 8 1 0 1
       ([example_work "w1"] ++ example_work "blank" :: [example_work "w2"]) None
     = @build_records ascii_db Qc qc_float sample_random blank_loader 3 8 1 0 1
         ([example_work "w1"] ++ [example_work "w2"]) None.
Proof.
  assert (H1 : blank_loader (example_work "blank") = Ok blank_text) by (vm_compute; reflexivity).
  assert (H2 : Forall (fun c => isspace c = true) blank_text) by (repeat constructor).
  split; [exact H1|]. split; [exact H2|].
  exact (@build_records_skips_blank ascii_db Qc qc_float sample_random blank_loader 3 8 1 0 1
           [example_work "w1"] (example_work "blank") [example_work "w2"] blank_text None H1 H2).
Defined.

Lemma build_records_provenance_witness :
  @build_records ascii_db Qc qc_float sample_random example_loader 3 8 1 0 1
    graded_works (Some 4%Z) = Ok graded_records_shuffled
  /\ In (first_record graded_records_shuffled) graded_records_shuffled
  /\ exists work raw sections s n,
       In work graded_works
       /\ example_loader work = Ok raw
       /\ @split_sections ascii_db Qc qc_float (to_paragraphs (normalize_text raw))
            (WorkSpec.split_mode work) 0 = Ok sections
       /\ In s sections
       /\ In (section (first_record graded_records_shuffled),
              text (first_record graded_records_shuffled))
            (@chunk_section ascii_db Qc qc_float (fst s) (snd s) 3 8 1)
       /\ 1 <= n
       /\ @made_from ascii_db Qc qc_float work n (first_record graded_records_shuffled).
Proof.
  assert (H1 : @build_records ascii_db Qc qc_float sample_random example_loader 3 8 1 0 1
                 graded_works (Some 4%Z) = Ok graded_records_shuffled)
    by (vm_compute; reflexivity).
  assert (H2 : In (first_record graded_records_shuffled) graded_records_shuffled)
    by (vm_compute; left; reflexivity).
  split; [exact H1|]. split; [exact H2|].
  exact (@build_records_provenance ascii_db Qc qc_float sample_random example_loader 3 8 1 0 1
           graded_works (Some 4%Z) graded_records_shuffled
           (first_record graded_records_shuffled) H1 H2).
Defined.

Lemma build_records_shuffle_witness :
  (forall (seed : Z) (n : nat), Permutation (@shuffle_indices sample_random seed n) (seq 0 n))
  /\ match @build_records ascii_db Qc qc_float sample_random example_loader 3 8 1 0 1
             graded_works None with
     | Ok records =>
         exists shuffled,
           @build_records ascii_db Qc qc_float sample_random example_loader 3 8 1 0 1
             graded_works (Some 4%Z) = Ok shuffled
           /\ Permutation shuffled records
           /\ length shuffled = length records
     | Raise e =>
         @build_records ascii_db Qc qc_float sample_random example_loader 3 8 1 0 1
           graded_works (Some 4%Z) = Raise e
     end.
Proof.
  split; [exact sample_random_perm|].
  exact (@build_records_shuffle ascii_db Qc qc_float sample_random example_loader 3 8 1 0 1
           sample_random_perm graded_works 4%Z).
Defined.

Lemma build_records_max_words_witness :
  (0 <= 8)%Z
  /\ (forall work raw,
        In work graded_works -> example_loader work = Ok raw ->
        Forall (splits_to_size 8) (to_paragraphs (normalize_text raw)))
  /\ @build_records ascii_db Qc qc_float sample_random example_loader 3 8 1 0 1
       graded_works None = Ok graded_records
  /\ In (first_record graded_records) graded_records
  /\ (Z.of_nat (words (first_record graded_records)) <= 8)%Z
  /\ words (first_record graded_records) = count_words (text (first_record graded_records)).
Proof.
  assert (H0 : (0 <= 8)%Z) by discriminate.
  assert (H1 : forall work raw,
             In work graded_works -> example_loader work = Ok raw ->
             Forall (splits_to_size 8) (to_paragraphs (normalize_text raw))).
  { intros work raw Hw Hl. apply splits_to_size_small, forallb_forall.
    destruct Hw as [<-|[<-|[<-|[]]]]; vm_compute in Hl; injection Hl as <-;
      vm_compute; reflexivity. }
  assert (H2 : @build_records ascii_db Qc qc_float sample_random example_loader 3 8 1 0 1
                 graded_works None = Ok graded_records)
    by (vm_compute; reflexivity).
  assert (H3 : In (first_record graded_records) graded_records)
    by (vm_compute; left; reflexivity).
  split; [exact H0|]. split; [exact H1|]. split; [exact H2|]. split; [exact H3|].
  exact (@build_records_max_words ascii_db Qc qc_float sample_random example_loader 3 8 1 0 1
           graded_works None graded_records (first_record graded_records) H0 H1 H2 H3).
Defined.

Lemma build_records_min_unit_words_witness :
  @build_records ascii_db Qc qc_float sample_random example_loader 3 8 1 0 1
    graded_works None = Ok graded_records
  /\ In (first_record graded_records) graded_records
  /\ (1 <= Z.of_nat (count_words (text (first_record graded_records))))%Z.
Proof.
  assert (H1 : @build_records ascii_db Qc qc_float sample_random example_loader 3 8 1 0 1
                 graded_works None = Ok graded_records)
    by (vm_compute; reflexivity).
  assert (H2 : In (first_record graded_records) graded_records)
    by (vm_compute; left; reflexivity).
  split; [exact H1|]. split; [exact H2|].
  exact (@build_records_min_unit_words ascii_db Qc qc_float sample_random example_loader
           3 8 1 0 1 graded_works None graded_records (first_record graded_records) H1 H2).
Defined.

Lemma strip_gutenberg_boilerplate_keeps_past_end_witness :
  GUTENBERG_START_RE marked_text = Some (0, 46)
  /\ GUTENBERG_END_RE marked_text = Some (50, 94)
  /\ 46 <= 50
  /\ strip_gutenberg_boilerplate marked_text
     = strip (slice 46 50 marked_text ++ slice 50 (50 + 46) marked_text)
  /\ strip (slice 46 50 marked_text ++ slice 50 (50 + 46) marked_text)
     = lit "body*** END OF THE PROJECT GUTENBERG EBOOK A ***ta".
Proof.
  assert (H1 : GUTENBERG_START_RE marked_text = Some (0, 46)) by (vm_compute; reflexivity).
  assert (H2 : GUTENBERG_END_RE marked_text = Some (50, 94)) by (vm_compute; reflexivity).
  assert (H3 : 46 <= 50) by (repeat constructor).
  split; [exact H1|]. split; [exact H2|]. split; [exact H3|].
  split; [|vm_compute; reflexivity].
  exact (@strip_gutenberg_boilerplate_keeps_past_end marked_text 0 46 50 94 H1 H2 H3).
Defined.

Lemma assign_tiers_author_share_witness :
  3 <= length graded_records
  /\ exists t,
       @assign_tiers Qc qc_float graded_records = Ok t
       /\ let by_a := fun l : list (UnitRecord Qc) =>
                        length (filter (fun r => str_eqb (author r) (lit "Poe")) l) in
          let n := by_a graded_records in
          let cut1 := Nat.max 1 (n / 3) in
          let cut2 := Nat.max (cut1 + 1) (2 * n / 3) in
          (n = 1 -> by_a (easy t) = 0 /\ by_a (medium t) = 0 /\ by_a (hard t) = 1)
          /\ (n = 2 -> by_a (easy t) = 0 /\ by_a (medium t) = 1 /\ by_a (hard t) = 1)
          /\ (3 <= n ->
              by_a (easy t) = cut1 /\ by_a (medium t) = cut2 - cut1
              /\ by_a (hard t) = n - cut2
              /\ 1 <= cut1 /\ cut1 < cut2 /\ cut2 < n).
Proof.
  assert (Hlen : 3 <= length graded_records) by (vm_compute; apply le_n).
  split; [exact Hlen|].
  exact (@assign_tiers_author_share Qc qc_float graded_records (lit "Poe") Hlen).
Defined.

Lemma split_oversized_paragraph_filled_witness :
  sentences_of (lit "a b. c d. e f.") <> []
  /\ exists chunks : list (list str),
       concat chunks = sentences_of (lit "a b. c d. e f.")
       /\ split_oversized_paragraph (lit "a b. c d. e f.") 3 3
          = map (fun chunk => strip (join [SP] chunk)) chunks
       /\ forall before chunk next after,
            chunks = before ++ chunk :: next :: after ->
            (3 <= Z.of_nat (total_words chunk))%Z
            \/ (exists first rest,
                  next = first :: rest
                  /\ (3 < Z.of_nat (total_words chunk + count_words first))%Z).
Proof.
  assert (H : sentences_of (lit "a b. c d. e f.") <> []) by (vm_compute; discriminate).
  split; [exact H|].
  exact (@split_oversized_paragraph_filled 3 3 (lit "a b. c d. e f.") H).
Defined.
